(** * AI Bulk Translator for Excel: the translation engine of [taskpane.js]

    A shallow embedding of the core of [src/taskpane/taskpane.js]: the
    extraction of translatable cells, the session cache, the batcher, the
    retrying client [callGeminiBatch], the reconciliation of results onto
    the grid and the sheet-name post-processing, with the properties the
    specification states about them.

    Conventions.
    - A JavaScript string is a sequence of code units; it is modelled by a
      [string] whose characters stand for the code units 0..255, and
      [String.length] is the [length] property.
    - The module-level [translationCache] (a [Map] whose order is never
      observed) is a [gmap string value]; [uniqueTexts], whose key order
      is observed through [keys()], is an insertion-ordered association
      list.
    - The status bar ([updateStatus]) belongs to the UI shell and is not
      modelled; [fetch], [sleep] and [startCountdownTimer] are recorded
      as events of a trace. *)

From Stdlib Require Import ZArith Ascii String List Lia DecimalString DecimalNat.
From stdpp Require Import base gmap strings list sorting.

(** ** Constants (lines 17-22) *)

Definition STANDARD_MODEL : string := "gemini-1.5-flash".
Definition PRO_MODEL : string := "gemini-1.5-pro".
Definition BATCH_CELL_LIMIT : nat := 100.
Definition BATCH_CHAR_LIMIT : nat := 15000.
Definition SAFE_MODE_DELAY : Z := 1200.
Definition EXCEL_CELL_CHAR_LIMIT : nat := 32767.

(** ** JavaScript strings *)

(** [WhiteSpace] and [LineTerminator] of ECMAScript among the code units
    0..255: TAB, LF, VT, FF, CR, SP and NBSP. It is the set stripped by
    [trim] and matched by [\s]. *)
Definition is_white_space (c : ascii) : bool :=
  match nat_of_ascii c with
  | 9 | 10 | 11 | 12 | 13 | 32 | 160 => true
  | _ => false
  end.

Fixpoint trimStart (s : string) : string :=
  match s with
  | String c rest => if is_white_space c then trimStart rest else s
  | EmptyString => EmptyString
  end.

Fixpoint trimEnd (s : string) : string :=
  match s with
  | String c rest =>
      match trimEnd rest with
      | EmptyString => if is_white_space c then EmptyString else String c EmptyString
      | kept => String c kept
      end
  | EmptyString => EmptyString
  end.

(** [s.trim()] *)
Definition trim (s : string) : string := trimEnd (trimStart s).

(** [s.startsWith(p)] *)
Definition startsWith (s p : string) : bool := String.prefix p s.

(** [s.endsWith(p)] *)
Definition endsWith (s p : string) : bool :=
  String.prefix (String.rev p) (String.rev s).

(** [s.includes(p)] *)
Fixpoint includes (s p : string) : bool :=
  String.prefix p s
  || match s with
     | String _ rest => includes rest p
     | EmptyString => false
     end.

(** [toLowerCase] on the code units 0..255: A-Z and the capital letters
    of Latin-1 (all of 192..222 but the multiplication sign) move up by
    32. *)
Definition lower_unit (c : ascii) : ascii :=
  let n := nat_of_ascii c in
  if ((65 <=? n) && (n <=? 90))
     || ((192 <=? n) && (n <=? 222) && negb (n =? 215))
  then ascii_of_nat (n + 32)
  else c.

Fixpoint toLowerCase (s : string) : string :=
  match s with
  | String c rest => String (lower_unit c) (toLowerCase rest)
  | EmptyString => EmptyString
  end.

(** [s.substring(0, n)] for a number [n] that may be negative: a negative
    end is taken as 0 and an end past the string as its length. *)
Definition substring0 (n : Z) (s : string) : string :=
  String.substring 0 (Z.to_nat n) s.

(** Decimal rendering of a non-negative integer inside a template
    literal. *)
Definition decimal (n : nat) : string :=
  NilEmpty.string_of_uint (Nat.to_uint n).

Definition decimalZ (n : Z) : string :=
  NilEmpty.string_of_int (Z.to_int n).

(** The class [[:\\/?*[\]]] of line 492: the characters that a sheet name
    may not hold. *)
Definition illegal_in_sheet_name (c : ascii) : bool :=
  match c with
  | ":" | "\" | "/" | "?" | "*" | "[" | "]" => true
  | _ => false
  end%char.

(** [s.replace(/[:\\/?*[\]]/g, '')] *)
Fixpoint strip_illegal (s : string) : string :=
  match s with
  | String c rest =>
      if illegal_in_sheet_name c then strip_illegal rest
      else String c (strip_illegal rest)
  | EmptyString => EmptyString
  end.

(** [s.replace(/^```json\s*/, '')]: an opening fence at the very start
    goes, with the white space that follows it. *)
Definition strip_opening_fence (s : string) : string :=
  if startsWith s "```json"
  then trimStart (String.substring 7 (String.length s - 7) s)
  else s.

(** [s.replace(/```$/, '')]: three backquotes at the very end go. *)
Definition strip_closing_fence (s : string) : string :=
  if endsWith s "```"
  then String.substring 0 (String.length s - 3) s
  else s.

(** The longest prefix of [s] that ends with a closing bracket. *)
Fixpoint through_last_close (s : string) : option string :=
  match s with
  | String c rest =>
      match through_last_close rest with
      | Some kept => Some (String c kept)
      | None => if Ascii.eqb c "]" then Some (String c EmptyString) else None
      end
  | EmptyString => None
  end.

(** [s.match(/\[.*\]/s)]: with the [s] flag the dot matches every code
    unit, so the match runs from the first opening bracket to the last
    closing bracket after it; [None] is JavaScript's [null]. *)
Fixpoint match_bracketed (s : string) : option string :=
  match s with
  | String c rest =>
      if Ascii.eqb c "["
      then match through_last_close rest with
           | Some kept => Some (String c kept)
           | None => None
           end
      else match_bracketed rest
  | EmptyString => None
  end.

(** ** JavaScript values *)

(** The values that reach the engine: cell values read from the host,
    and whatever [response.json()] and [JSON.parse] produce. A number is
    looked at only for being zero; an integer stands for it. *)
#[warnings="-register-all"] Inductive value : Type :=
| VUndefined
| VNull
| VBool (b : bool)
| VNum (n : Z)
| VStr (s : string)
| VArr (items : list value)
| VObj (fields : list (string * value)).

(** ToBoolean: what [if (v)], [!v] and [v || w] test. *)
Definition truthy (v : value) : bool :=
  match v with
  | VUndefined | VNull => false
  | VBool b => b
  | VNum n => negb (n =? 0)%Z
  | VStr s => negb (String.eqb s EmptyString)
  | VArr _ | VObj _ => true
  end.

(** [a || b] *)
Definition js_or (a b : value) : value := if truthy a then a else b.

(** The value of the last field named [key]: on a repeated key
    [JSON.parse] keeps the last value. *)
Fixpoint field (fields : list (string * value)) (key : string) : option value :=
  match fields with
  | (k, v) :: rest =>
      match field rest key with
      | Some later => Some later
      | None => if String.eqb k key then Some v else None
      end
  | [] => None
  end.

(** A thrown error, by its [message]. *)
Definition thrown : Type := string.

(** A computation inside a [try] block. *)
Definition attempt (A : Type) : Type := thrown + A.

Definition attempt_bind {A B : Type} (m : attempt A) (k : A -> attempt B)
  : attempt B :=
  match m with
  | inl message => inl message
  | inr a => k a
  end.

Notation "'try!' x <- m ; k" := (attempt_bind m (fun x => k))
  (at level 60, x name, m at level 50, k at level 60, right associativity,
   format "'[v' 'try!'  x  <-  m ; '/' k ']'").

(** What the ECMAScript engine supplies: the two JSON built-ins and the
    message of the TypeError raised by a property read of [undefined] or
    [null], or by a call of something that is no function. [JSON_parse]
    gives [None] where [JSON.parse] throws a SyntaxError. *)
Record engine : Type := Engine {
  JSON_parse : string -> option value;
  JSON_stringify : value -> string;
  TypeError_message : value -> string -> string
}.

Section Values.

Variable E : engine.

(** [v.key] for a key that no prototype defines ([error], [message],
    [candidates], [promptFeedback], [blockReason], [content], [parts],
    [text]) and for [length]. *)
Definition get (v : value) (key : string) : attempt value :=
  match v with
  | VUndefined | VNull => inl (TypeError_message E v key)
  | VObj fields => inr (default VUndefined (field fields key))
  | VArr items =>
      inr (if String.eqb key "length" then VNum (Z.of_nat (length items))
           else VUndefined)
  | VStr s =>
      inr (if String.eqb key "length" then VNum (Z.of_nat (String.length s))
           else VUndefined)
  | VBool _ | VNum _ => inr VUndefined
  end.

(** [v?.key] *)
Definition get_opt (v : value) (key : string) : attempt value :=
  match v with
  | VUndefined | VNull => inr VUndefined
  | _ => get v key
  end.

(** [v[0]] *)
Definition get_first (v : value) : attempt value :=
  match v with
  | VUndefined | VNull => inl (TypeError_message E v "0")
  | VObj fields => inr (default VUndefined (field fields "0"))
  | VArr items => inr (default VUndefined (head items))
  | VStr (String c _) => inr (VStr (String c EmptyString))
  | VStr EmptyString | VBool _ | VNum _ => inr VUndefined
  end.

(** [v.method()] for a method of [String.prototype]: a string has it,
    no other value that JSON can produce has a function under that
    name. *)
Definition as_string (v : value) (method : string) : attempt string :=
  match v with
  | VStr s => inr s
  | _ => inl (TypeError_message E v method)
  end.

End Values.

(** ToString, as a template literal applies it. An array joins the
    renderings of its items with commas, [null] and [undefined] items
    rendering as nothing. An object renders as [[object Object]] unless
    a field of its own hides [toString], in which case no primitive
    value is found and a TypeError is thrown ([None]). *)
Fixpoint to_string (v : value) : option string :=
  match v with
  | VUndefined => Some "undefined"
  | VNull => Some "null"
  | VBool true => Some "true"
  | VBool false => Some "false"
  | VNum n => Some (decimalZ n)
  | VStr s => Some s
  | VArr items =>
      (fix join (first : bool) (l : list value) : option string :=
         match l with
         | [] => Some EmptyString
         | item :: rest =>
             match (match item with
                    | VUndefined | VNull => Some EmptyString
                    | _ => to_string item
                    end), join false rest with
             | Some s, Some t => Some ((if first then s else "," +:+ s) +:+ t)
             | _, _ => None
             end
         end) true items
  | VObj fields =>
      match field fields "toString" with
      | Some _ => None
      | None => Some "[object Object]"
      end
  end.

(** ** The batcher (lines 274-295 of [translateRange]) *)

Record batcher_state := BatcherState {
  allBatches : list (list string);
  currentBatch : list string;
  currentCharCount : nat
}.

(** [if (currentBatch.length > 0) { allBatches.push(currentBatch); }] *)
Definition push_current (st : batcher_state) : list (list string) :=
  if 0 <? length (currentBatch st)
  then allBatches st ++ [currentBatch st]
  else allBatches st.

(** One iteration of [for (const text of textsToFetchFromApi)]. *)
Definition batcher_step (st : batcher_state) (text : string) : batcher_state :=
  let textLength := String.length text in
  if BATCH_CHAR_LIMIT <? textLength then
    BatcherState (push_current st ++ [[text]]) [] 0
  else
    let st1 :=
      if (0 <? length (currentBatch st))
         && ((BATCH_CHAR_LIMIT <? currentCharCount st + textLength)
             || (BATCH_CELL_LIMIT <=? length (currentBatch st)))
      then BatcherState (allBatches st ++ [currentBatch st]) [] 0
      else st in
    BatcherState (allBatches st1) (currentBatch st1 ++ [text])
                 (currentCharCount st1 + textLength).

Definition smart_batching (textsToFetchFromApi : list string)
  : list (list string) :=
  push_current (fold_left batcher_step textsToFetchFromApi (BatcherState [] [] 0)).

(** The sum of the lengths of the texts of a batch. *)
Definition char_sum (batch : list string) : nat :=
  sum_list_with String.length batch.

(** The batch invariant of the specification: within both limits, or a
    single text that alone exceeds the character limit. *)
Definition batch_ok (batch : list string) : Prop :=
  (length batch <= BATCH_CELL_LIMIT /\ char_sum batch <= BATCH_CHAR_LIMIT)
  \/ (exists text, batch = [text] /\ BATCH_CHAR_LIMIT < String.length text).

(** What holds of the accumulator of the batcher between two turns. *)
Record batcher_inv (st : batcher_state) : Prop := {
  inv_closed : Forall batch_ok (allBatches st);
  inv_count : length (currentBatch st) <= BATCH_CELL_LIMIT;
  inv_chars : currentCharCount st = char_sum (currentBatch st);
  inv_budget : currentCharCount st <= BATCH_CHAR_LIMIT
}.

(** The texts the batcher has taken so far, in order. *)
Definition poured (st : batcher_state) : list string :=
  concat (allBatches st) ++ currentBatch st.

(** ** The network and the session *)

(** A response of [fetch]: its status and what [response.json()]
    resolves to, or the message of the error it rejects with. *)
Record response : Type := Response {
  status : nat;
  json : attempt value
}.

(** [response.ok]: the status is in the range 200-299. *)
Definition ok (r : response) : bool :=
  (200 <=? status r) && (status r <=? 299).

Inductive fetch_outcome : Type :=
| Rejected (message : thrown)
| Resolved (r : response).

(** The remote side: the outcome of the n-th request of the session. *)
Definition network : Type := nat -> fetch_outcome.

(** What the engine does to the outside, in order. *)
Inductive event : Type :=
| Fetch (texts : list string)
| Sleep (ms : Z)
| Countdown (ms : Z).

(** The state that outlives a call: the requests issued so far, the
    trace, and the module-level [translationCache] (line 26). *)
Record world : Type := World {
  requests : nat;
  trace : list event;
  translationCache : gmap string value
}.

Definition emit (e : event) (w : world) : world :=
  World (requests w) (trace w ++ [e]) (translationCache w).

(** [clearCache] (lines 71-74) *)
Definition clearCache (w : world) : world :=
  World (requests w) (trace w) ∅.

(** ** The client: [callGeminiBatch] (lines 536-590) *)

Definition MAX_RETRIES : nat := 3.

(** [texts.map(() => message)] *)
Definition all_items (texts : list string) (message : string) : list value :=
  map (fun _ => VStr message) texts.

Definition rate_limit_message : string :=
  "API Error: Rate limit exceeded after " +:+ decimal MAX_RETRIES +:+ " retries.".

Definition invalid_format_message : string :=
  "API Error: Invalid format from AI.".

Section Client.

Variable E : engine.
Variable net : network.

(** The two tests of lines 575-576 on the parsed reply; [None] is the
    [throw] of line 577. *)
Definition accept_parsed (texts : list string) (parsed : value)
  : option (list value) :=
  match parsed with
  | VArr items => if length items =? length texts then Some items else None
  | VStr _ => if length texts =? 1 then Some [parsed] else None
  | _ => None
  end.

(** Lines 573-584. In the [catch] branch the matched text opens with a
    bracket, and such a text parses to an array or not at all. *)
Definition parse_reply (texts : list string) (responseText : string)
  : list value :=
  match JSON_parse E responseText ≫= accept_parsed texts with
  | Some result => result
  | None =>
      match match_bracketed responseText with
      | Some jsonMatch =>
          match JSON_parse E jsonMatch with
          | Some (VArr items) => items
          | _ => all_items texts invalid_format_message
          end
      | None => all_items texts invalid_format_message
      end
  end.

(** [!data.candidates || data.candidates.length === 0] *)
Definition no_candidates (data : value) : attempt bool :=
  try! candidates <- get E data "candidates";
  if negb (truthy candidates) then inr true
  else
    try! len <- get E candidates "length";
    inr match len with VNum 0 => true | _ => false end.

(** Lines 558-584: the rest of the [try] block once the response is
    not a 429. *)
Definition read_response (texts : list string) (r : response)
  : attempt (list value) :=
  try! data <- json r;
  if negb (ok r) then
    try! error <- get_opt E data "error";
    try! message <- get_opt E error "message";
    let errorMessage := js_or message (VStr (JSON_stringify E data)) in
    try! errorText <- as_string E errorMessage "toLowerCase";
    if includes (toLowerCase errorText) "request payload size"
    then inr (all_items texts "API Error: Request size is too large.")
    else inr (all_items texts
                ("API Error: " +:+ decimal (status r) +:+ " - " +:+ errorText))
  else
    try! blocked <- no_candidates data;
    if blocked then
      try! feedback <- get E data "promptFeedback";
      try! blockReason <- get_opt E feedback "blockReason";
      let finishReason := js_or blockReason (VStr "Safety Filter") in
      match to_string finishReason with
      | Some reason => inr (all_items texts ("Blocked: " +:+ reason))
      | None => inl (TypeError_message E finishReason "toString")
      end
    else
      try! candidates <- get E data "candidates";
      try! candidate <- get_first E candidates;
      try! content <- get E candidate "content";
      try! parts <- get E content "parts";
      try! part <- get_first E parts;
      try! text <- get E part "text";
      try! responseText <- as_string E text "trim";
      inr (parse_reply texts
             (strip_closing_fence (strip_opening_fence (trim responseText)))).

(** [catch (error)] of line 585 *)
Definition caught (texts : list string) (result : attempt (list value))
  : list value :=
  match result with
  | inr translated => translated
  | inl message => all_items texts ("Network Error: " +:+ message)
  end.

(** The [while (attempt < MAX_RETRIES)] loop. Every turn either returns
    or raises [attempt]; [fuel] bounds the turns, and [None] means that
    it ran out. *)
Fixpoint retry_loop (fuel : nat) (texts : list string) (attempt : nat)
    (w : world) : option (list value * world) :=
  if attempt <? MAX_RETRIES then
    match fuel with
    | 0 => None
    | S fuel' =>
        let w1 := emit (Fetch texts)
                    (World (S (requests w)) (trace w) (translationCache w)) in
        match net (requests w) with
        | Rejected message => Some (caught texts (inl message), w1)
        | Resolved r =>
            if status r =? 429 then
              let attempt := S attempt in
              if MAX_RETRIES <=? attempt
              then Some (all_items texts rate_limit_message, w1)
              else
                let delay := (2 ^ Z.of_nat attempt * 1000)%Z in
                retry_loop fuel' texts attempt (emit (Sleep delay) w1)
            else Some (caught texts (read_response texts r), w1)
        end
    end
  else Some (all_items texts "API Error: Failed after all retries.", w).

Definition callGeminiBatch (texts : list string) (w : world)
  : option (list value * world) :=
  retry_loop MAX_RETRIES texts 0 w.

End Client.

(** ** The grid and the extraction (lines 235-247) *)

(** A value of [range.values]: a string, a number or a boolean; a blank
    cell is the empty string, and [CEmpty] covers a host that reports
    it as [null]. *)
Inductive cell : Type :=
| CStr (s : string)
| CNum (n : Z)
| CBool (b : bool)
| CEmpty.

Definition value_of_cell (c : cell) : value :=
  match c with
  | CStr s => VStr s
  | CNum n => VNum n
  | CBool b => VBool b
  | CEmpty => VNull
  end.

(** [{ row: i, col: j, text: cellValue }] *)
Record translatable : Type := Translatable {
  row : nat;
  col : nat;
  text : string
}.

(** [uniqueTexts], a [Map] whose keys come out in insertion order. *)
Definition ordered_map : Type := list (string * value).

Fixpoint map_get (m : ordered_map) (key : string) : option value :=
  match m with
  | (k, v) :: rest => if String.eqb k key then Some v else map_get rest key
  | [] => None
  end.

Definition map_has (m : ordered_map) (key : string) : bool :=
  match map_get m key with Some _ => true | None => false end.

(** [m.set(key, v)]: a key that is present keeps its place. *)
Fixpoint map_set (m : ordered_map) (key : string) (v : value) : ordered_map :=
  match m with
  | (k, old) :: rest =>
      if String.eqb k key then (k, v) :: rest
      else (k, old) :: map_set rest key v
  | [] => [(key, v)]
  end.

(** [Array.from(m.keys())] *)
Definition map_keys (m : ordered_map) : list string := map fst m.

Record extraction : Type := Extraction {
  cellsToTranslate : list translatable;
  uniqueTexts : ordered_map
}.

(** [typeof cellValue === 'string' && cellValue.trim() !== ""] *)
Definition qualifies (cellValue : cell) : bool :=
  match cellValue with
  | CStr s => negb (String.eqb (trim s) EmptyString)
  | _ => false
  end.

(** The body of the inner loop, lines 241-245. *)
Definition visit (i j : nat) (cellValue : cell) (acc : extraction) : extraction :=
  match cellValue with
  | CStr s =>
      if qualifies cellValue then
        Extraction
          (cellsToTranslate acc ++ [Translatable i j s])
          (if map_has (uniqueTexts acc) s then uniqueTexts acc
           else map_set (uniqueTexts acc) s VNull)
      else acc
  | _ => acc
  end.

(** [for (let j = ...; j < originalValues[i].length; j++)] *)
Fixpoint scan_row (i j : nat) (cells : list cell) (acc : extraction) : extraction :=
  match cells with
  | cellValue :: rest => scan_row i (S j) rest (visit i j cellValue acc)
  | [] => acc
  end.

(** [for (let i = ...; i < originalValues.length; i++)] *)
Fixpoint scan_rows (i : nat) (rows : list (list cell)) (acc : extraction)
  : extraction :=
  match rows with
  | cells :: rest => scan_rows (S i) rest (scan_row i 0 cells acc)
  | [] => acc
  end.

Definition extract (originalValues : list (list cell)) : extraction :=
  scan_rows 0 originalValues (Extraction [] []).

(** ** The cache lookup (lines 253-262) *)

Record lookup : Type := Lookup {
  resolved : ordered_map;
  textsToFetchFromApi : list string
}.

Definition lookup_step (cache : gmap string value) (acc : lookup) (text : string)
  : lookup :=
  match cache !! text with
  | Some cached => Lookup (map_set (resolved acc) text cached) (textsToFetchFromApi acc)
  | None => Lookup (resolved acc) (textsToFetchFromApi acc ++ [text])
  end.

Definition cache_lookup (cache : gmap string value) (uniqueTexts : ordered_map)
  : lookup :=
  fold_left (lookup_step cache) (map_keys uniqueTexts) (Lookup uniqueTexts []).

(** ** The batch loop (lines 297-329) *)

Record progress : Type := Progress {
  texts_map : ordered_map;
  totalErrors : nat;
  firstErrorMessage : value
}.

(** The test of line 311. *)
Definition is_error (translatedResult : value) : bool :=
  match translatedResult with
  | VStr s => startsWith s "API Error" || startsWith s "Blocked"
  | _ => false
  end.

(** Lines 307-321 for one item of a batch, on the run's progress and
    the session cache. *)
Definition settle_item (originalText : string) (translatedResult : value)
    (st : progress * gmap string value) : progress * gmap string value :=
  let (p, cache) := st in
  if is_error translatedResult then
    (Progress (texts_map p) (S (totalErrors p))
       (if negb (truthy (firstErrorMessage p)) then translatedResult
        else firstErrorMessage p),
     cache)
  else
    let finalText := js_or translatedResult (VStr originalText) in
    (Progress (map_set (texts_map p) originalText finalText)
       (totalErrors p) (firstErrorMessage p),
     <[originalText := finalText]> cache).

(** [for (let j = 0; j < batch.length; j++)], reading [translatedBatch[j]],
    which is [undefined] past the end of the array. *)
Fixpoint settle_batch (j : nat) (batch : list string) (translatedBatch : list value)
    (st : progress * gmap string value) : progress * gmap string value :=
  match batch with
  | originalText :: rest =>
      settle_batch (S j) rest translatedBatch
        (settle_item originalText (nth j translatedBatch VUndefined) st)
  | [] => st
  end.

Section Orchestrator.

Variable E : engine.
Variable net : network.

(** The model of the options; the API key, the target language and the
    output mode do not steer the engine. *)
Variable model : string.

(** One turn of [for (let i = 0; i < totalBatches; i++)], lines 300-328:
    the call of the client, the items of its reply, and the wait before
    the next batch. The reply is handed back with the new state. *)
Definition batch_turn (totalBatches i : nat) (batch : list string)
    (st : progress * world) : option (list value * (progress * world)) :=
  '(translatedBatch, w1) ← callGeminiBatch E net batch st.2;
  let '(p2, cache2) :=
    settle_batch 0 batch translatedBatch (st.1, translationCache w1) in
  let w2 := World (requests w1) (trace w1) cache2 in
  let w3 :=
    if String.eqb model STANDARD_MODEL
       && (1 <? totalBatches) && (i <? totalBatches - 1)
    then emit (Countdown SAFE_MODE_DELAY) w2
    else w2 in
  Some (translatedBatch, (p2, w3)).

Fixpoint process_batches (totalBatches i : nat) (batches : list (list string))
    (st : progress * world) : option (progress * world) :=
  match batches with
  | batch :: rest =>
      '(_, st') ← batch_turn totalBatches i batch st;
      process_batches totalBatches (S i) rest st'
  | [] => Some st
  end.

End Orchestrator.

(** ** The reconciliation (lines 334-346) *)

(** [JSON.parse(JSON.stringify(originalValues))]: a fresh grid with the
    same values; the strings, numbers, booleans and [null] of a range
    come back from the round trip as they went in. *)
Definition clone (originalValues : list (list cell)) : list (list value) :=
  map (map value_of_cell) originalValues.

(** [cells[c] = v] on a JavaScript array: past the end the array grows,
    and the slots skipped read as [undefined]. *)
Definition array_set (cells : list value) (c : nat) (v : value) : list value :=
  if c <? length cells then <[c := v]> cells
  else cells ++ replicate (c - length cells) VUndefined ++ [v].

(** [newValues[r][c] = v]; [None] is the TypeError of reading a row that
    does not exist. *)
Definition write_cell (newValues : list (list value)) (r c : nat) (v : value)
  : option (list (list value)) :=
  cells ← newValues !! r;
  Some (<[r := array_set cells c v]> newValues).

(** Lines 339-342. *)
Definition text_to_write (translatedText : value) : value :=
  match translatedText with
  | VStr s =>
      if EXCEL_CELL_CHAR_LIMIT <? String.length s
      then VStr (String.substring 0 EXCEL_CELL_CHAR_LIMIT s)
      else translatedText
  | _ => translatedText
  end.

(** The body of [for (const cell of cellsToTranslate)]; [get] of an
    absent key is [undefined]. *)
Definition reconcile_cell (texts : ordered_map) (newValues : list (list value))
    (c : translatable) : option (list (list value)) :=
  let translatedText := default VUndefined (map_get texts (text c)) in
  if truthy translatedText
  then write_cell newValues (row c) (col c) (text_to_write translatedText)
  else Some newValues.

Fixpoint reconcile_cells (texts : ordered_map) (cells : list translatable)
    (newValues : list (list value)) : option (list (list value)) :=
  match cells with
  | c :: rest => reconcile_cell texts newValues c ≫= reconcile_cells texts rest
  | [] => Some newValues
  end.

Definition reconcile (originalValues : list (list cell))
    (cells : list translatable) (texts : ordered_map)
  : option (list (list value)) :=
  reconcile_cells texts cells (clone originalValues).

(** ** The engine: [translateRange] (lines 230-390) *)

(** What a run yields: the fields [totalErrors] and [firstErrorMessage]
    of the object returned, and the grid handed to the host for writing,
    on the range itself or on the copy of the sheet ([None] when the run
    returns at line 250 and writes nothing). *)
Record outcome : Type := Outcome {
  errors : nat;
  first_error : value;
  newValues : option (list (list value))
}.

Section Engine.

Variable E : engine.
Variable net : network.
Variable model : string.

(** [None] stands for loop fuel running out in the client or for a
    TypeError in the reconciliation; neither happens. *)
Definition translateRange (originalValues : list (list cell)) (w : world)
  : option (outcome * world) :=
  let ex := extract originalValues in
  if length (cellsToTranslate ex) =? 0 then Some (Outcome 0 VNull None, w)
  else
    let found := cache_lookup (translationCache w) (uniqueTexts ex) in
    let cachedCount :=
      length (map_keys (uniqueTexts ex)) - length (textsToFetchFromApi found) in
    let w1 := if 0 <? cachedCount then emit (Sleep 500) w else w in
    let start := (Progress (resolved found) 0 VNull, w1) in
    '(p, w2) ←
      (if 0 <? length (textsToFetchFromApi found) then
         let allBatches := smart_batching (textsToFetchFromApi found) in
         process_batches E net model (length allBatches) 0 allBatches start
       else Some start);
    written ← reconcile originalValues (cellsToTranslate ex) (texts_map p);
    Some (Outcome (totalErrors p) (firstErrorMessage p) (Some written), w2).

End Engine.

(** ** Sheet names (lines 476, 492-496 and 514-523) *)

(** [existingNames.includes(name)] *)
Definition array_includes (names : list string) (name : string) : bool :=
  existsb (String.eqb name) names.

(** The suffix of line 518. *)
Definition sheet_suffix (counter : nat) : string := "_" +:+ decimal counter.

(** Line 519: the base name, shortened where the suffix would not fit in
    31 characters, and the suffix. *)
Definition suffixed (baseName : string) (counter : nat) : string :=
  let suffix := sheet_suffix counter in
  let room := (31 - Z.of_nat (String.length suffix))%Z in
  if (room <? Z.of_nat (String.length baseName))%Z
  then substring0 room baseName +:+ suffix
  else baseName +:+ suffix.

(** The [while] loop of lines 517-521; [None] means that [fuel] ran
    out. *)
Fixpoint unique_loop (fuel : nat) (baseName : string) (existingNames : list string)
    (finalName : string) (counter : nat) : option string :=
  if array_includes existingNames (toLowerCase finalName) then
    match fuel with
    | 0 => None
    | S fuel' =>
        unique_loop fuel' baseName existingNames (suffixed baseName counter) (S counter)
    end
  else Some finalName.

(** [getUniqueSheetName]: the loop is given one turn per existing name
    and one more, which is as many as it can take. *)
Definition getUniqueSheetName (baseName : string) (existingNames : list string)
  : option string :=
  unique_loop (S (length existingNames)) baseName existingNames baseName 1.

(** Line 492 *)
Definition sanitize (translatedSheetName : string) : string :=
  substring0 31 (strip_illegal translatedSheetName).

(** What [runTranslateSheetName] does to the sheet once it holds the
    translated name. *)
Inductive renaming : Type :=
| Keep
| Rename (uniqueName : string).

(** Lines 476 and 492-496, for the active sheet [sheetName], the names
    [sheetNames] of the sheets of the workbook and the translated name. *)
Definition post_process (sheetName : string) (sheetNames : list string)
    (translatedSheetName : string) : option renaming :=
  let existingNames := map toLowerCase sheetNames in
  let finalName := sanitize translatedSheetName in
  if negb (String.eqb (toLowerCase sheetName) (toLowerCase finalName))
  then Rename <$> getUniqueSheetName finalName existingNames
  else Some Keep.

(** ** A reference engine

    [JSON.parse] and [JSON.stringify] over the values above, for JSON
    texts whose numbers are integers and whose strings are free of
    [\u] escapes. The theorems below hold for every engine; this one
    serves to run the model on concrete replies. *)

Definition quote : ascii := "034"%char.

Definition quoted (s : string) : string :=
  String quote s +:+ String quote EmptyString.

Definition is_json_space (c : ascii) : bool :=
  match nat_of_ascii c with
  | 9 | 10 | 13 | 32 => true
  | _ => false
  end.

Fixpoint skip_space (s : string) : string :=
  match s with
  | String c rest => if is_json_space c then skip_space rest else s
  | EmptyString => EmptyString
  end.

Definition digit_of (c : ascii) : option Z :=
  let n := nat_of_ascii c in
  if (48 <=? n) && (n <=? 57) then Some (Z.of_nat (n - 48)) else None.

Fixpoint read_digits (acc : Z) (s : string) : Z * string :=
  match s with
  | String c rest =>
      match digit_of c with
      | Some d => read_digits (10 * acc + d) rest
      | None => (acc, s)
      end
  | EmptyString => (acc, EmptyString)
  end.

(** A fraction or an exponent is outside the texts read here. *)
Definition integer_ends (s : string) : bool :=
  match s with
  | String c _ => negb (Ascii.eqb c "." || Ascii.eqb c "e" || Ascii.eqb c "E")
  | EmptyString => true
  end.

Definition parse_natural (s : string) : option (Z * string) :=
  match s with
  | String c rest =>
      match digit_of c with
      | Some 0%Z => if integer_ends rest then Some (0%Z, rest) else None
      | Some d =>
          let (n, rest') := read_digits d rest in
          if integer_ends rest' then Some (n, rest') else None
      | None => None
      end
  | EmptyString => None
  end.

Definition parse_number (s : string) : option (value * string) :=
  match s with
  | String "-" rest => '(n, r) ← parse_natural rest; Some (VNum (- n), r)
  | _ => '(n, r) ← parse_natural s; Some (VNum n, r)
  end.

Definition unescape (c : ascii) : option ascii :=
  if Ascii.eqb c quote then Some quote
  else match c with
       | "\" => Some "\"
       | "/" => Some "/"
       | "b" => Some "008"
       | "f" => Some "012"
       | "n" => Some "010"
       | "r" => Some "013"
       | "t" => Some "009"
       | _ => None
       end%char.

(** The characters of a string literal, after its opening quote. *)
Fixpoint parse_chars (s : string) : option (string * string) :=
  match s with
  | String c rest =>
      if Ascii.eqb c quote then Some (EmptyString, rest)
      else if Ascii.eqb c "\" then
        match rest with
        | String e rest' =>
            c' ← unescape e;
            '(str, r) ← parse_chars rest';
            Some (String c' str, r)
        | EmptyString => None
        end
      else if nat_of_ascii c <? 32 then None
      else '(str, r) ← parse_chars rest; Some (String c str, r)
  | EmptyString => None
  end.

Definition parse_literal (word : string) (v : value) (s : string)
  : option (value * string) :=
  if String.prefix word s
  then Some (v, String.substring (String.length word)
                  (String.length s - String.length word) s)
  else None.

Fixpoint parse_value (fuel : nat) (s : string) : option (value * string) :=
  match fuel with
  | 0 => None
  | S fuel' =>
      match skip_space s with
      | String c rest =>
          if Ascii.eqb c "[" then
            match skip_space rest with
            | String "]" after => Some (VArr [], after)
            | _ => '(items, r) ← parse_items fuel' rest; Some (VArr items, r)
            end
          else if Ascii.eqb c "{" then
            match skip_space rest with
            | String "}" after => Some (VObj [], after)
            | _ => '(fields, r) ← parse_members fuel' rest; Some (VObj fields, r)
            end
          else if Ascii.eqb c quote then
            '(str, r) ← parse_chars rest; Some (VStr str, r)
          else if Ascii.eqb c "n" then parse_literal "null" VNull (String c rest)
          else if Ascii.eqb c "t" then parse_literal "true" (VBool true) (String c rest)
          else if Ascii.eqb c "f" then parse_literal "false" (VBool false) (String c rest)
          else parse_number (String c rest)
      | EmptyString => None
      end
  end
with parse_items (fuel : nat) (s : string) : option (list value * string) :=
  match fuel with
  | 0 => None
  | S fuel' =>
      '(v, r) ← parse_value fuel' s;
      match skip_space r with
      | String "," after => '(vs, r') ← parse_items fuel' after; Some (v :: vs, r')
      | String "]" after => Some ([v], after)
      | _ => None
      end
  end
with parse_members (fuel : nat) (s : string)
  : option (list (string * value) * string) :=
  match fuel with
  | 0 => None
  | S fuel' =>
      match skip_space s with
      | String c rest =>
          if Ascii.eqb c quote then
            '(key, r) ← parse_chars rest;
            match skip_space r with
            | String ":" after =>
                '(v, r') ← parse_value fuel' after;
                match skip_space r' with
                | String "," more =>
                    '(fields, r'') ← parse_members fuel' more;
                    Some ((key, v) :: fields, r'')
                | String "}" more => Some ([(key, v)], more)
                | _ => None
                end
            | _ => None
            end
          else None
      | EmptyString => None
      end
  end.

(** [JSON.parse(s)]; [None] is the SyntaxError. *)
Definition json_parse (s : string) : option value :=
  '(v, r) ← parse_value (2 * String.length s + 2) s;
  match skip_space r with
  | EmptyString => Some v
  | _ => None
  end.

Definition hex_digit (n : nat) : ascii :=
  if n <? 10 then ascii_of_nat (48 + n) else ascii_of_nat (87 + n).

(** A code unit inside a string literal, as [JSON.stringify] writes it. *)
Definition escape (c : ascii) : string :=
  if Ascii.eqb c quote then String "\" (String quote EmptyString)
  else match nat_of_ascii c with
       | 92 => "\\"
       | 8 => "\b"
       | 9 => "\t"
       | 10 => "\n"
       | 12 => "\f"
       | 13 => "\r"
       | n =>
           if n <? 32
           then "\u00" +:+ String (hex_digit (n / 16)) (String (hex_digit (n mod 16)) EmptyString)
           else String c EmptyString
       end.

Fixpoint escape_all (s : string) : string :=
  match s with
  | String c rest => escape c +:+ escape_all rest
  | EmptyString => EmptyString
  end.

(** [JSON.stringify(v)] for a value that [response.json()] produced.
    An [undefined] item of an array is written [null], an [undefined]
    field is left out. *)
Fixpoint json_stringify (v : value) : string :=
  match v with
  | VUndefined => "undefined"
  | VNull => "null"
  | VBool true => "true"
  | VBool false => "false"
  | VNum n => decimalZ n
  | VStr s => quoted (escape_all s)
  | VArr items =>
      "[" +:+
      (fix items_text (first : bool) (l : list value) : string :=
         match l with
         | [] => EmptyString
         | item :: rest =>
             (if first then EmptyString else ",")
             +:+ match item with
                 | VUndefined => "null"
                 | _ => json_stringify item
                 end
             +:+ items_text false rest
         end) true items
      +:+ "]"
  | VObj fields =>
      "{" +:+
      (fix fields_text (first : bool) (l : list (string * value)) : string :=
         match l with
         | [] => EmptyString
         | (_, VUndefined) :: rest => fields_text first rest
         | (key, item) :: rest =>
             (if first then EmptyString else ",")
             +:+ quoted (escape_all key) +:+ ":" +:+ json_stringify item
             +:+ fields_text false rest
         end) true fields
      +:+ "}"
  end.

Definition type_error_message (v : value) (key : string) : string :=
  match v with
  | VUndefined => "Cannot read properties of undefined (reading '" +:+ key +:+ "')"
  | VNull => "Cannot read properties of null (reading '" +:+ key +:+ "')"
  | _ => key +:+ " is not a function"
  end.

Definition reference_engine : engine :=
  Engine json_parse json_stringify type_error_message.

(** ** Definitions for the statements *)

(** The value at a position of a grid. *)
Definition cell_at {A : Type} (grid : list (list A)) (i j : nat) : option A :=
  grid !! i ≫= (.!! j).

(** Row-major order: an earlier row, or the same row and an earlier
    column. *)
Definition before (a b : translatable) : Prop :=
  row a < row b \/ (row a = row b /\ col a < col b).

(** Each text once, at the place of its first occurrence. *)
Fixpoint first_seen (texts : list string) : list string :=
  match texts with
  | t :: rest => t :: filter (fun u => u <> t) (first_seen rest)
  | [] => []
  end.

(** The translatable cells of a row from column [j] on, and of the rows
    of a grid from row [i] on, as the specification describes them: the
    string cells that are not blank, left to right and top to bottom. *)
Fixpoint row_cells (i j : nat) (cells : list cell) : list translatable :=
  match cells with
  | c :: rest =>
      match c with
      | CStr s => if qualifies c then [Translatable i j s] else []
      | _ => []
      end ++ row_cells i (S j) rest
  | [] => []
  end.

Fixpoint grid_cells (i : nat) (rows : list (list cell)) : list translatable :=
  match rows with
  | cells :: rest => row_cells i 0 cells ++ grid_cells (S i) rest
  | [] => []
  end.

(** Line 243 *)
Definition note (m : ordered_map) (s : string) : ordered_map :=
  if map_has m s then m else map_set m s VNull.

(** The world after the request of one turn of the loop. *)
Definition requested (texts : list string) (w : world) : world :=
  emit (Fetch texts) (World (S (requests w)) (trace w) (translationCache w)).

(** The code units of a string. *)
Definition chars (s : string) : list ascii := list_ascii_of_string s.

(** A name is taken when its lower-case form is among the names given. *)
Definition taken (existingNames : list string) (name : string) : Prop :=
  array_includes existingNames (toLowerCase name) = true.

(** The position of a translatable cell. *)
Definition position (c : translatable) : nat * nat := (row c, col c).

(** A grid has a slot at the position of [c]. *)
Definition in_range {A : Type} (grid : list (list A)) (c : translatable) : Prop :=
  exists cells, grid !! row c = Some cells /\ col c < length cells.

(** Two grids have as many rows, and row by row as many columns. *)
Definition same_shape {A B : Type} (g : list (list A)) (g' : list (list B)) : Prop :=
  Forall2 (fun cells cells' => length cells = length cells') g g'.

(** A text of [n] characters. *)
Definition long_text (n : N) : string :=
  string_of_list_ascii (replicate (N.to_nat n) "a"%char).

(** The items of a batch, from index [j] on, each with what the reply
    holds for it. *)
Fixpoint aligned (j : nat) (batch : list string) (translatedBatch : list value)
  : list (string * value) :=
  match batch with
  | originalText :: rest =>
      (originalText, nth j translatedBatch VUndefined)
      :: aligned (S j) rest translatedBatch
  | [] => []
  end.

(** Lines 307-321 for an item and its result. *)
Definition settle (st : progress * gmap string value) (item : string * value)
  : progress * gmap string value :=
  settle_item item.1 item.2 st.

(** All the items of the batches of a run with their results, in the
    order in which the loop settles them. *)
Definition settled (batches : list (list string)) (replies : list (list value))
  : list (string * value) :=
  concat (zip_with (aligned 0) batches replies).

(** The number of results that line 311 takes for errors. *)
Definition count_errors (items : list (string * value)) : nat :=
  length (filter (fun item => is_error item.2 = true) items).

(** The replies of the client during the batch loop, one per batch: the
    successive values of [translatedBatch]. *)
Fixpoint replies (E : engine) (net : network) (model : string)
    (totalBatches i : nat) (batches : list (list string))
    (st : progress * world) : option (list (list value)) :=
  match batches with
  | batch :: rest =>
      '(translatedBatch, st') ← batch_turn E net model totalBatches i batch st;
      later ← replies E net model totalBatches (S i) rest st';
      Some (translatedBatch :: later)
  | [] => Some []
  end.

(** The phases of a run of [translateRange]: the cache lookup, the
    batches, the state the batch loop starts from and the replies it
    gets. *)
Definition run_lookup (grid : list (list cell)) (w : world) : lookup :=
  cache_lookup (translationCache w) (uniqueTexts (extract grid)).

Definition run_batches (grid : list (list cell)) (w : world) : list (list string) :=
  smart_batching (textsToFetchFromApi (run_lookup grid w)).

Definition run_start (grid : list (list cell)) (w : world) : progress * world :=
  (Progress (resolved (run_lookup grid w)) 0 VNull,
   if 0 <? length (map_keys (uniqueTexts (extract grid)))
           - length (textsToFetchFromApi (run_lookup grid w))
   then emit (Sleep 500) w else w).

Definition run_replies (E : engine) (net : network) (model : string)
    (grid : list (list cell)) (w : world) : option (list (list value)) :=
  replies E net model (length (run_batches grid w)) 0 (run_batches grid w)
          (run_start grid w).

(** An event of the batch loop: a request for one of the batches, or a
    wait. *)
Definition loop_event (batches : list (list string)) (e : event) : Prop :=
  match e with
  | Fetch texts => texts ∈ batches
  | Sleep _ | Countdown _ => True
  end.

(** A response with status 200 whose first candidate carries [text]. *)
Definition reply_with (text : string) : fetch_outcome :=
  Resolved (Response 200 (inr
    (VObj [("candidates",
            VArr [VObj [("content",
                         VObj [("parts", VArr [VObj [("text", VStr text)]])])]])]))).

(** A response whose body is the empty JSON object. *)
Definition empty_body (status : nat) : fetch_outcome :=
  Resolved (Response status (inr (VObj []))).

(** ** Further definitions for the statements *)

(** The first result that line 311 takes for an error, or [null]. *)
Definition first_error_of (items : list (string * value)) : value :=
  match filter (fun item => is_error item.2 = true) items with
  | item :: _ => item.2
  | [] => VNull
  end.

(** The requests and waits of one call of the client: one request, or
    two with 2 seconds in between, or three with 2 and then 4 seconds in
    between. *)
Definition call_events (texts : list string) : list (list event) :=
  [ [Fetch texts];
    [Fetch texts; Sleep 2000; Fetch texts];
    [Fetch texts; Sleep 2000; Fetch texts; Sleep 4000; Fetch texts] ].

(** A string that stands for a failure of the whole batch. *)
Definition failure_string (message : string) : bool :=
  startsWith message "API Error: " || startsWith message "Blocked: "
  || startsWith message "Network Error: ".


(** The answer is a response with status 429, the only one that the
    client asks again for. *)
Definition rate_limited (answer : fetch_outcome) : bool :=
  match answer with
  | Resolved r => status r =? 429
  | Rejected _ => false
  end.

(** The string holds white space only. *)
Fixpoint white (s : string) : bool :=
  match s with
  | String c rest => is_white_space c && white rest
  | EmptyString => true
  end.

(** The text is among the items whose result line 311 takes for an
    error. *)
Definition failed (items : list (string * value)) (t : string) : bool :=
  existsb (fun item => String.eqb item.1 t && is_error item.2) items.

(** The requests and the countdowns among the events of a run. *)
Definition is_fetch (e : event) : bool :=
  match e with
  | Fetch _ => true
  | _ => false
  end.

Definition is_countdown (e : event) : bool :=
  match e with
  | Countdown _ => true
  | _ => false
  end.

Definition fetches (events : list event) : nat :=
  length (List.filter is_fetch events).

Definition countdowns (events : list event) : nat :=
  length (List.filter is_countdown events).

(** The events of one call of the client for a batch. *)
Definition one_call (texts : list string) (call : list event) : Prop :=
  call ∈ call_events texts.

(** The events of the batch loop from turn [i] on, given the events of
    the call of each turn: the calls in order, and after each of them
    the countdown where lines 325-328 have one. *)
Fixpoint loop_events (model : string) (totalBatches i : nat)
    (calls : list (list event)) : list event :=
  match calls with
  | call :: rest =>
      call
      ++ (if String.eqb model STANDARD_MODEL
             && (1 <? totalBatches) && (i <? totalBatches - 1)
          then [Countdown SAFE_MODE_DELAY] else [])
      ++ loop_events model totalBatches (S i) rest
  | [] => []
  end.

(** The wait of line 267, taken when the cache answers for a text. *)
Definition run_notice (grid : list (list cell)) (w : world) : list event :=
  if 0 <? length (map_keys (uniqueTexts (extract grid)))
          - length (textsToFetchFromApi (run_lookup grid w))
  then [Sleep 500] else [].
(** ** The task pane around the engine *)

(** *** The API key (lines 81-150) *)

(** [s.substring(start)] *)
Definition substring_from (start : nat) (s : string) : string :=
  String.substring start (String.length s - start) s.

(** [maskApiKey] (lines 145-150) *)
Definition maskApiKey (apiKey : string) : string :=
  if 8 <? String.length apiKey
  then String.substring 0 4 apiKey +:+ "..."
       +:+ substring_from (String.length apiKey - 4) apiKey
  else apiKey.

(** The two layouts of the pane: what [showInputMode] (lines 125-129)
    and [showDisplayMode] (lines 134-138) leave on display. *)
Inductive layout : Type :=
| InputMode
| DisplayMode.

(** A call of [updateStatus] (lines 172-189), by its arguments. The
    engine's own progress messages stay out of the model; what is kept
    is the status that a command of the pane closes with. *)
Record status_call : Type := Status {
  status_message : string;
  status_detail : value;
  status_progress : option Z;
  status_isError : bool
}.

(** The pane: the value of the input field, the text of [masked-key],
    the layout and the last status. *)
Record pane : Type := Pane {
  api_key_input : string;
  masked_key : string;
  shown : layout;
  last_status : option status_call
}.

Definition showInputMode (p : pane) : pane :=
  Pane (api_key_input p) (masked_key p) InputMode (last_status p).

Definition showDisplayMode (p : pane) : pane :=
  Pane (api_key_input p) (masked_key p) DisplayMode (last_status p).

Definition updateStatus (message : string) (detail : value)
    (progress : option Z) (isError : bool) (p : pane) : pane :=
  Pane (api_key_input p) (masked_key p) (shown p)
       (Some (Status message detail progress isError)).

Definition set_masked_key (text : string) (p : pane) : pane :=
  Pane (api_key_input p) text (shown p) (last_status p).

(** The document settings hold the key under [apiKey]; [None] is the
    [null] that [settings.get] returns when nothing is stored. *)
Definition setting : Type := option string.

(** [loadApiKey] (lines 81-89) *)
Definition loadApiKey (apiKey : setting) (p : pane) : pane :=
  match apiKey with
  | Some key =>
      if truthy (VStr key) && negb (String.eqb (trim key) EmptyString)
      then showDisplayMode (set_masked_key (maskApiKey key) p)
      else showInputMode p
  | None => showInputMode p
  end.

(** What [saveAsync] hands to its callback. *)
Inductive async_result : Type :=
| Succeeded
| Failed (error_message : string).

(** [saveApiKey] (lines 94-112): the setting as [settings.set] leaves
    it, and the pane once the callback of [saveAsync] has run. *)
Definition saveApiKey (result : async_result) (stored : setting) (p : pane)
  : setting * pane :=
  let apiKey := trim (api_key_input p) in
  if truthy (VStr apiKey) then
    (Some apiKey,
     match result with
     | Succeeded =>
         updateStatus "API Key saved successfully." VNull None false
           (showDisplayMode (set_masked_key (maskApiKey apiKey) p))
     | Failed error_message =>
         updateStatus "Error: Could not save API key." (VStr error_message)
           None true p
     end)
  else (stored, updateStatus "Please enter a valid API key." VNull None true p).

(** [editApiKey] (lines 117-120) *)
Definition editApiKey (stored : setting) (p : pane) : pane :=
  showInputMode
    (Pane (match stored with
           | Some key => if truthy (VStr key) then key else EmptyString
           | None => EmptyString
           end)
          (masked_key p) (shown p) (last_status p)).

(** *** The countdown (lines 203-218) *)

(** The callback of the interval: every tick takes 100 ms off
    [timeLeft], and the first tick that leaves nothing resolves. The
    result is the number of ticks; [None] means that [fuel] ran out. *)
Fixpoint countdown (fuel : nat) (timeLeft : Z) : option nat :=
  match fuel with
  | 0 => None
  | S fuel' =>
      let timeLeft := (timeLeft - 100)%Z in
      if (timeLeft <=? 0)%Z then Some 1
      else S <$> countdown fuel' timeLeft
  end.

(** [startCountdownTimer]: the ticks until the promise resolves. *)
Definition startCountdownTimer (duration : Z) : option nat :=
  countdown (S (Z.to_nat (duration / 100))) duration.
(** ** The commands of the pane *)

(** *** Handing the grid to the host (lines 348-387) *)

(** Line 381: the address without the sheet it names. [indexOf] is
    the position of the first [!]. *)
Definition local_address (address : string) : string :=
  if includes address "!" then
    match String.index 0 "!" address with
    | Some position => substring_from (position + 1) address
    | None => address
    end
  else address.

(** Lines 368-374: the first sheet of the reloaded collection whose
    name the snapshot does not hold. A sheet stands here by its name. *)
Definition find_new_sheet (existingSheetNames : gset string)
    (items : list string) : option string :=
  List.find (fun name => negb (bool_decide (name ∈ existingSheetNames))) items.

(** What the add-in asks of the host. *)
Inductive command : Type :=
| SetRangeValues (newValues : list (list value))
| CopyAfter
| SetSheetValues (sheet localAddress : string) (newValues : list (list value))
| Activate (sheet : string).

(** An error object: its [name], its [code], which an [Error] of the
    add-in does not have, and its [message]. *)
Record js_error : Type := JsError {
  error_name : string;
  code : option string;
  error_text : string
}.

(** What the host holds for a range: its values and address, and the
    names of the sheets as loaded before and after the copy of lines
    362-367. *)
Record range_data : Type := RangeData {
  values : list (list cell);
  address : string;
  names_before : list string;
  names_after : list string
}.

(** Lines 348-387: the commands issued, and the error thrown if any.
    The host is taken to carry out what it is asked: an error of its
    own enters only where the range is first loaded. *)
Definition write_back (mode : string) (d : range_data)
    (newValues : list (list value)) : list command * option js_error :=
  if String.eqb mode "replace" then ([SetRangeValues newValues], None)
  else
    let existingSheetNames : gset string := list_to_set (names_before d) in
    match find_new_sheet existingSheetNames (names_after d) with
    | Some newSheet =>
        ([CopyAfter;
          SetSheetValues newSheet (local_address (address d)) newValues;
          Activate newSheet], None)
    | None =>
        ([CopyAfter],
         Some (JsError "Error" None
           "Fatal: Could not find the newly created worksheet after copy operation."))
    end.

Section Commands.

Variable E : engine.
Variable net : network.
Variable model : string.
Variable mode : string.

(** [translateRange] with its two ends (lines 230-390): the first
    [context.sync] either throws or loads the range; after the engine
    the grid goes to the host. The result is what the function throws
    or returns. *)
Definition translate_range_on (answer : js_error + range_data) (w : world)
  : option ((js_error + outcome) * list command * world) :=
  match answer with
  | inl thrown_error => Some (inl thrown_error, [], w)
  | inr d =>
      '(out, w') ← translateRange E net model (values d) w;
      match newValues out with
      | None => Some (inr out, [], w')
      | Some newValues =>
          match write_back mode d newValues with
          | (commands, Some thrown_error) => Some (inl thrown_error, commands, w')
          | (commands, None) => Some (inr out, commands, w')
          end
      end
  end.

(** *** [runSelectionTranslation] (lines 395-414) *)

(** The status that closes a command (lines 402-406 and 408). *)
Definition selection_status (result : js_error + outcome) : status_call :=
  match result with
  | inr out =>
      if 0 <? errors out
      then Status (decimal (errors out) +:+ " cells could not be translated.")
                  (first_error out) (Some 100%Z) true
      else Status "Selection translated successfully!" VNull (Some 100%Z) false
  | inl thrown_error =>
      Status "An unexpected error occurred."
             (VStr (error_name thrown_error +:+ ": " +:+ error_text thrown_error))
             (Some 100%Z) true
  end.

(** *** [runWorkbookTranslation] (lines 419-460) *)

Record tally : Type := Tally {
  totalWorkbookErrors : nat;
  firstOverallErrorMessage : value
}.

(** Lines 438-441 *)
Definition add_result (out : outcome) (t : tally) : tally :=
  Tally (totalWorkbookErrors t + errors out)
        (if truthy (first_error out) && negb (truthy (firstOverallErrorMessage t))
         then first_error out
         else firstOverallErrorMessage t).

(** The loop of lines 429-447 over the sheets, each with its name and
    with what the host holds for its used range. The first component
    of the result is the error that leaves the loop, if any. *)
Fixpoint workbook_loop (sheets : list (string * (js_error + range_data)))
    (t : tally) (issued : list command) (w : world)
  : option (option js_error * tally * list command * world) :=
  match sheets with
  | [] => Some (None, t, issued, w)
  | (name, answer) :: rest =>
      let issued :=
        if String.eqb mode "replace" then issued ++ [Activate name] else issued in
      '(result, commands, w') ← translate_range_on answer w;
      match result with
      | inr out => workbook_loop rest (add_result out t) (issued ++ commands) w'
      | inl thrown_error =>
          if bool_decide (code thrown_error = Some "ItemNotFound")
          then workbook_loop rest t (issued ++ commands) w'
          else Some (Some thrown_error, t, issued ++ commands, w')
      end
  end.

(** Lines 449-456: the status that closes the command. *)
Definition workbook_status (thrown_error : option js_error) (t : tally)
  : status_call :=
  match thrown_error with
  | Some e =>
      Status "An unexpected error occurred."
             (VStr (error_name e +:+ ": " +:+ error_text e)) (Some 100%Z) true
  | None =>
      if 0 <? totalWorkbookErrors t
      then Status ("Workbook translation completed with "
                   +:+ decimal (totalWorkbookErrors t) +:+ " errors.")
                  (firstOverallErrorMessage t) (Some 100%Z) true
      else Status "Entire workbook translated successfully!" VNull
                  (Some 100%Z) false
  end.

Definition runWorkbookTranslation (sheets : list (string * (js_error + range_data)))
    (w : world) : option (option js_error * tally * list command * world) :=
  workbook_loop sheets (Tally 0 VNull) [] w.

(** *** [runTranslateSheetName] (lines 465-506) *)

(** Lines 492-496: [replace] is a method of strings only. *)
Definition rename_with (sheetName : string) (sheetNames : list string)
    (translatedSheetName : value) : option (attempt renaming) :=
  match as_string E translatedSheetName "replace" with
  | inl message => Some (inl message)
  | inr name => inr <$> post_process sheetName sheetNames name
  end.

(** Lines 469-497, for the active sheet [sheetName] and the names
    [sheetNames] of the sheets of the workbook: the message of the
    error thrown, or what is done to the name of the sheet. *)
Definition runTranslateSheetName (sheetName : string) (sheetNames : list string)
    (w : world) : option (attempt renaming * world) :=
  match translationCache w !! sheetName with
  | Some translatedSheetName =>
      result ← rename_with sheetName sheetNames translatedSheetName;
      Some (result, w)
  | None =>
      '(translatedNameArray, w1) ← callGeminiBatch E net [sheetName] w;
      let firstResult := default VUndefined (head translatedNameArray) in
      let proceed :=
        result ← rename_with sheetName sheetNames firstResult;
        Some (result,
              World (requests w1) (trace w1)
                    (<[sheetName := firstResult]> (translationCache w1))) in
      match firstResult with
      | VStr message =>
          if startsWith message "API Error" then Some (inl message, w1)
          else proceed
      | _ => proceed
      end
  end.

End Commands.
(** ** Further definitions for the statements about the commands *)

(** The invariant of the tally of the workbook loop. *)
Definition tally_ok (t : tally) : Prop :=
  (totalWorkbookErrors t = 0 /\ firstOverallErrorMessage t = VNull)
  \/ (0 < totalWorkbookErrors t /\ truthy (firstOverallErrorMessage t) = true).

(** What a run of the workbook loop reports apart from the commands:
    the error that left it, the tally and the session. *)
Definition report {A B C D : Type} (r : A * B * C * D) : A * B * D :=
  (r.1.1.1, r.1.1.2, r.2).

(** ** The batcher: proofs *)

Section Batcher.

Lemma char_sum_snoc batch text :
  char_sum (batch ++ [text]) = char_sum batch + String.length text.
Proof.
  unfold char_sum. rewrite sum_list_with_app. simpl. lia.
Qed.

Lemma batch_ok_current st : batcher_inv st -> batch_ok (currentBatch st).
Proof.
  intros [_ Hn Hc Hb]. left. split; [exact Hn | now rewrite <- Hc].
Qed.

Lemma push_current_ok st :
  batcher_inv st -> Forall batch_ok (push_current st).
Proof.
  intros Hinv. unfold push_current.
  destruct (0 <? length (currentBatch st)); [| apply Hinv].
  apply Forall_app. split; [apply Hinv |].
  constructor; [now apply batch_ok_current | constructor].
Qed.

Lemma push_current_concat st : concat (push_current st) = poured st.
Proof.
  unfold push_current, poured.
  destruct (0 <? length (currentBatch st)) eqn:E.
  - rewrite concat_app. simpl. now rewrite app_nil_r.
  - apply Nat.ltb_ge in E.
    destruct (currentBatch st); [now rewrite app_nil_r | simpl in E; lia].
Qed.

Lemma closed_snoc_ok st :
  batcher_inv st -> Forall batch_ok (allBatches st ++ [currentBatch st]).
Proof.
  intros Hinv. apply Forall_app. split; [apply Hinv |].
  constructor; [now apply batch_ok_current | constructor].
Qed.

Lemma singleton_inv closed text :
  Forall batch_ok closed ->
  String.length text <= BATCH_CHAR_LIMIT ->
  batcher_inv (BatcherState closed ([] ++ [text]) (0 + String.length text)).
Proof.
  intros Hcl Hlen. split; simpl.
  - exact Hcl.
  - unfold BATCH_CELL_LIMIT. lia.
  - unfold char_sum. simpl. lia.
  - exact Hlen.
Qed.

Lemma batcher_step_inv st text :
  batcher_inv st -> batcher_inv (batcher_step st text).
Proof.
  intros Hinv. unfold batcher_step.
  destruct (BATCH_CHAR_LIMIT <? String.length text) eqn:Ebig.
  - split; simpl; [| lia | reflexivity | lia].
    apply Forall_app. split; [now apply push_current_ok |].
    constructor; [| constructor].
    right. exists text. split; [reflexivity | now apply Nat.ltb_lt].
  - apply Nat.ltb_ge in Ebig.
    destruct (0 <? length (currentBatch st)) eqn:Enon; cbn [andb].
    + destruct (BATCH_CHAR_LIMIT <? currentCharCount st + String.length text) eqn:Echars;
        cbn [orb].
      { apply singleton_inv; [now apply closed_snoc_ok | exact Ebig]. }
      apply Nat.ltb_ge in Echars.
      destruct (BATCH_CELL_LIMIT <=? length (currentBatch st)) eqn:Ecells.
      { apply singleton_inv; [now apply closed_snoc_ok | exact Ebig]. }
      apply Nat.leb_gt in Ecells.
      destruct Hinv as [Hcl Hn Hc Hb].
      split; cbn [allBatches currentBatch currentCharCount].
      * exact Hcl.
      * rewrite length_app. cbn [length]. lia.
      * rewrite char_sum_snoc. lia.
      * exact Echars.
    + apply Nat.ltb_ge in Enon.
      destruct Hinv as [Hcl Hn Hc Hb].
      destruct (currentBatch st) as [| t0 rest] eqn:Ecur; [| simpl in Enon; lia].
      replace (currentCharCount st) with 0
        by (rewrite Hc; reflexivity).
      now apply singleton_inv.
Qed.

Lemma batcher_step_poured st text :
  poured (batcher_step st text) = poured st ++ [text].
Proof.
  unfold batcher_step, poured.
  destruct (BATCH_CHAR_LIMIT <? String.length text).
  - simpl. rewrite concat_app, push_current_concat. simpl.
    now rewrite !app_nil_r.
  - destruct ((0 <? length (currentBatch st))
              && ((BATCH_CHAR_LIMIT <? currentCharCount st + String.length text)
                  || (BATCH_CELL_LIMIT <=? length (currentBatch st)))); simpl.
    + rewrite concat_app. simpl. now rewrite app_nil_r.
    + now rewrite app_assoc.
Qed.

Lemma batcher_fold texts st :
  batcher_inv st ->
  batcher_inv (fold_left batcher_step texts st)
  /\ poured (fold_left batcher_step texts st) = poured st ++ texts.
Proof.
  revert st. induction texts as [| text texts IH]; intros st Hinv; simpl.
  - split; [exact Hinv | now rewrite app_nil_r].
  - destruct (IH (batcher_step st text) (batcher_step_inv st text Hinv)) as [H1 H2].
    split; [exact H1 |].
    rewrite H2, batcher_step_poured, <- app_assoc. reflexivity.
Qed.

Lemma batcher_inv_init : batcher_inv (BatcherState [] [] 0).
Proof.
  split; cbn [allBatches currentBatch currentCharCount length].
  - constructor.
  - lia.
  - reflexivity.
  - lia.
Qed.

End Batcher.

Lemma smart_batching_concat (texts : list string) :
  concat (smart_batching texts) = texts.
Proof.
  destruct (batcher_fold texts _ batcher_inv_init) as [_ Hpoured].
  unfold smart_batching. now rewrite push_current_concat, Hpoured.
Qed.

Lemma smart_batching_ok (texts : list string) :
  Forall batch_ok (smart_batching texts).
Proof.
  destruct (batcher_fold texts _ batcher_inv_init) as [Hinv _].
  unfold smart_batching. now apply push_current_ok.
Qed.

(** Scenario 3 of the specification: two texts of 20000 characters each
    make two batches of one text. *)
Example batching_scenario_3 :
  smart_batching [long_text 20000; long_text 20000] =
  [[long_text 20000]; [long_text 20000]].
Proof. vm_cast_no_check (eq_refl [[long_text 20000]; [long_text 20000]]). Qed.

(** C3. For every ordered list of input texts, the batches concatenated in
    order give back the input list, and every batch holds at most 100
    texts of at most 15000 characters in total, unless it is the single
    text that alone is longer than 15000 characters. *)
Theorem C3_batching_invariant (texts : list string) :
  concat (smart_batching texts) = texts
  /\ Forall batch_ok (smart_batching texts).
Proof.
  split; [apply smart_batching_concat | apply smart_batching_ok].
Qed.
(** ** The ordered map *)

Section OrderedMap.

Implicit Types (m : ordered_map) (k : string) (v : value).

Lemma map_get_set_eq m k v : map_get (map_set m k v) k = Some v.
Proof.
  induction m as [| [k' old] m IH]; simpl.
  - now rewrite String.eqb_refl.
  - destruct (String.eqb k' k) eqn:Ek; simpl; now rewrite Ek.
Qed.

Lemma map_get_set_ne m k k' v :
  k <> k' -> map_get (map_set m k v) k' = map_get m k'.
Proof.
  intros Hne. induction m as [| [k0 old] m IH]; simpl.
  - apply String.eqb_neq in Hne. now rewrite Hne.
  - destruct (String.eqb k0 k) eqn:Ek; simpl.
    + apply String.eqb_eq in Ek. subst k0.
      apply String.eqb_neq in Hne. now rewrite Hne.
    + now rewrite IH.
Qed.

Lemma map_has_elem m k : map_has m k = true <-> k ∈ map_keys m.
Proof.
  unfold map_has. induction m as [| [k0 old] m IH]; simpl.
  - split; [discriminate | intros H; inversion H].
  - destruct (String.eqb k0 k) eqn:Ek.
    + apply String.eqb_eq in Ek. subst. split; [intros _; left | reflexivity].
    + apply String.eqb_neq in Ek. rewrite IH. split.
      * intros H. now right.
      * intros H. inversion H; subst; [contradiction | assumption].
Qed.

Lemma map_keys_set_present m k v :
  k ∈ map_keys m -> map_keys (map_set m k v) = map_keys m.
Proof.
  induction m as [| [k0 old] m IH]; simpl; intros H.
  - inversion H.
  - destruct (String.eqb k0 k) eqn:Ek; simpl; [reflexivity |].
    apply String.eqb_neq in Ek. f_equal. apply IH.
    inversion H; subst; [contradiction | assumption].
Qed.

Lemma map_keys_set_absent m k v :
  k ∉ map_keys m -> map_keys (map_set m k v) = map_keys m ++ [k].
Proof.
  induction m as [| [k0 old] m IH]; simpl; intros H.
  - reflexivity.
  - destruct (String.eqb k0 k) eqn:Ek; simpl.
    + apply String.eqb_eq in Ek. subst. exfalso. apply H. left.
    + f_equal. apply IH. intros Hin. apply H. now right.
Qed.

Lemma map_get_None m k : map_get m k = None <-> k ∉ map_keys m.
Proof.
  rewrite <- map_has_elem. unfold map_has.
  destruct (map_get m k); split; intros H; congruence.
Qed.

End OrderedMap.

(** ** The extraction *)

Section Extraction.

Lemma visit_spec i j c acc :
  visit i j c acc =
  Extraction (cellsToTranslate acc ++ row_cells i j [c])
             (fold_left note (text <$> row_cells i j [c]) (uniqueTexts acc)).
Proof.
  destruct acc as [cells texts]. unfold visit.
  destruct c as [s | n | b |]; cbn [row_cells cellsToTranslate uniqueTexts];
    rewrite ?app_nil_r; try reflexivity.
  destruct (qualifies (CStr s)); simpl; rewrite ?app_nil_r; reflexivity.
Qed.

Lemma row_cells_cons i j c rest :
  row_cells i j (c :: rest) = row_cells i j [c] ++ row_cells i (S j) rest.
Proof. simpl. now rewrite app_nil_r. Qed.

Lemma scan_row_spec i j cells acc :
  scan_row i j cells acc =
  Extraction (cellsToTranslate acc ++ row_cells i j cells)
             (fold_left note (text <$> row_cells i j cells) (uniqueTexts acc)).
Proof.
  revert j acc. induction cells as [| c rest IH]; intros j acc.
  - simpl. rewrite app_nil_r. now destruct acc.
  - cbn [scan_row]. rewrite IH, visit_spec. cbn [cellsToTranslate uniqueTexts].
    rewrite (row_cells_cons i j c rest), fmap_app, fold_left_app, app_assoc.
    reflexivity.
Qed.

Lemma scan_rows_spec i rows acc :
  scan_rows i rows acc =
  Extraction (cellsToTranslate acc ++ grid_cells i rows)
             (fold_left note (text <$> grid_cells i rows) (uniqueTexts acc)).
Proof.
  revert i acc. induction rows as [| cells rest IH]; intros i acc.
  - simpl. rewrite app_nil_r. now destruct acc.
  - cbn [scan_rows grid_cells]. rewrite IH, scan_row_spec.
    cbn [cellsToTranslate uniqueTexts].
    rewrite fmap_app, fold_left_app, app_assoc. reflexivity.
Qed.

Lemma extract_spec grid :
  extract grid =
  Extraction (grid_cells 0 grid) (fold_left note (text <$> grid_cells 0 grid) []).
Proof. unfold extract. now rewrite scan_rows_spec. Qed.

Lemma elem_of_row_cells i j cells c :
  c ∈ row_cells i j cells <->
  row c = i /\ j <= col c
  /\ cells !! (col c - j) = Some (CStr (text c)) /\ qualifies (CStr (text c)) = true.
Proof.
  revert j. induction cells as [| c0 rest IH]; intros j.
  - simpl. split; [intros H; inversion H | intros (_ & _ & H & _); discriminate].
  - rewrite row_cells_cons, elem_of_app, IH. split.
    + intros [H | (Hr & Hj & Hc & Hq)].
      * simpl in H. destruct c0; try (now inversion H).
        destruct (qualifies (CStr s)) eqn:Hq; [| now inversion H].
        apply list_elem_of_singleton in H. subst c. simpl.
        rewrite Nat.sub_diag. simpl. auto.
      * repeat split; try assumption; try lia.
        replace (col c - j) with (S (col c - S j)) by lia. exact Hc.
    + intros (Hr & Hj & Hc & Hq).
      destruct (decide (col c = j)) as [Heq | Hne].
      * left. rewrite Heq, Nat.sub_diag in Hc. simpl in Hc. injection Hc as ->.
        cbn [row_cells]. rewrite Hq, app_nil_r. apply list_elem_of_singleton.
        destruct c; simpl in *. now subst.
      * right. repeat split; try assumption; try lia.
        replace (col c - j) with (S (col c - S j)) in Hc by lia. exact Hc.
Qed.

Lemma elem_of_grid_cells i rows c :
  c ∈ grid_cells i rows <->
  i <= row c
  /\ exists cells, rows !! (row c - i) = Some cells
       /\ cells !! col c = Some (CStr (text c))
       /\ qualifies (CStr (text c)) = true.
Proof.
  revert i. induction rows as [| cells rest IH]; intros i.
  - simpl. split; [intros H; inversion H | intros (_ & ? & H & _); discriminate].
  - cbn [grid_cells]. rewrite elem_of_app, IH, elem_of_row_cells. split.
    + intros [(Hr & _ & Hc & Hq) | (Hi & cells' & Hrow & Hc & Hq)].
      * subst i. split; [lia |]. exists cells. rewrite Nat.sub_diag, Nat.sub_0_r in *.
        auto.
      * split; [lia |]. exists cells'.
        replace (row c - i) with (S (row c - S i)) by lia. auto.
    + intros (Hi & cells' & Hrow & Hc & Hq).
      destruct (decide (row c = i)) as [Heq | Hne].
      * left. rewrite Heq, Nat.sub_diag in Hrow. simpl in Hrow. injection Hrow as ->.
        rewrite Nat.sub_0_r. repeat split; auto. lia.
      * right. split; [lia |]. exists cells'.
        replace (row c - i) with (S (row c - S i)) in Hrow by lia. auto.
Qed.

Lemma row_cells_sorted i j cells : StronglySorted before (row_cells i j cells).
Proof.
  revert j. induction cells as [| c0 rest IH]; intros j.
  - constructor.
  - rewrite row_cells_cons. apply StronglySorted_app_2.
    + intros a b Ha Hb. apply elem_of_row_cells in Hb as (Hrb & Hjb & _).
      simpl in Ha. destruct c0; try (now inversion Ha).
      destruct (qualifies (CStr s)); [| now inversion Ha].
      apply list_elem_of_singleton in Ha. subst a. right. simpl. split; [auto | lia].
    + simpl. destruct c0; try constructor.
      destruct (qualifies (CStr s)); repeat constructor.
    + apply IH.
Qed.

Lemma grid_cells_sorted i rows : StronglySorted before (grid_cells i rows).
Proof.
  revert i. induction rows as [| cells rest IH]; intros i.
  - constructor.
  - cbn [grid_cells]. apply StronglySorted_app_2.
    + intros a b Ha Hb. apply elem_of_row_cells in Ha as (Hra & _).
      apply elem_of_grid_cells in Hb as (Hrb & _). left. lia.
    + apply row_cells_sorted.
    + apply IH.
Qed.

Lemma filter_all_in {A : Type} (P : A -> Prop) `{!forall x, Decision (P x)}
    (l : list A) :
  (forall x, x ∈ l -> P x) -> filter P l = l.
Proof.
  induction l as [| a l IH]; intros Hall; [reflexivity |].
  rewrite filter_cons_True by (apply Hall; left).
  f_equal. apply IH. intros x Hx. apply Hall. now right.
Qed.

Lemma map_keys_note m s :
  map_keys (note m s) =
  if decide (s ∈ map_keys m) then map_keys m else map_keys m ++ [s].
Proof.
  unfold note. destruct (map_has m s) eqn:Hhas.
  - apply map_has_elem in Hhas. now rewrite decide_True.
  - assert (s ∉ map_keys m) as Hnot.
    { intros Hin. apply map_has_elem in Hin. congruence. }
    rewrite decide_False by assumption. now apply map_keys_set_absent.
Qed.

Lemma map_keys_fold_note l m :
  map_keys (fold_left note l m) =
  map_keys m ++ filter (fun u => u ∉ map_keys m) (first_seen l).
Proof.
  revert m. induction l as [| t l IH]; intros m.
  - simpl. now rewrite app_nil_r.
  - cbn [fold_left first_seen]. rewrite IH, map_keys_note.
    destruct (decide (t ∈ map_keys m)) as [Hin | Hnot].
    + rewrite filter_cons_False by tauto.
      rewrite list_filter_filter. f_equal. apply list_filter_iff.
      intros x. split; [| tauto]. intros Hx. split; [assumption |].
      intros ->. contradiction.
    + rewrite filter_cons_True by assumption.
      rewrite list_filter_filter, <- app_assoc. simpl. do 2 f_equal.
      apply list_filter_iff. intros x.
      rewrite not_elem_of_app, list_elem_of_singleton. tauto.
Qed.

Lemma fold_note_unresolved l m :
  Forall (fun kv => kv.2 = VNull) m ->
  Forall (fun kv => kv.2 = VNull) (fold_left note l m).
Proof.
  revert m. induction l as [| t l IH]; intros m Hm; [exact Hm |].
  simpl. apply IH. unfold note. destruct (map_has m t); [exact Hm |].
  clear IH. induction m as [| [k old] m IHm]; simpl.
  - repeat constructor.
  - inversion Hm; subst. destruct (String.eqb k t); constructor; auto.
Qed.

End Extraction.

Lemma extracted_cells (grid : list (list cell)) (c : translatable) :
  c ∈ cellsToTranslate (extract grid) <->
  cell_at grid (row c) (col c) = Some (CStr (text c))
  /\ trim (text c) <> EmptyString.
Proof.
  rewrite extract_spec. cbn [cellsToTranslate].
  rewrite elem_of_grid_cells, Nat.sub_0_r. unfold cell_at, qualifies.
  split.
  - intros (_ & cells & Hrow & Hcol & Hq). rewrite Hrow. simpl.
    apply negb_true_iff, String.eqb_neq in Hq. auto.
  - intros (Hcell & Hq). split; [lia |].
    destruct (grid !! row c) as [cells |]; [| discriminate].
    exists cells. apply String.eqb_neq in Hq. rewrite Hq. auto.
Qed.

Lemma extracted_sorted (grid : list (list cell)) :
  StronglySorted before (cellsToTranslate (extract grid)).
Proof. rewrite extract_spec. apply grid_cells_sorted. Qed.

(** Scenario 1 of the specification. *)
Example extract_scenario_1 :
  extract [[CStr "Hello"; CNum 5]; [CStr EmptyString; CStr "World"]] =
  Extraction [Translatable 0 0 "Hello"; Translatable 1 1 "World"]
             [("Hello", VNull); ("World", VNull)].
Proof. reflexivity. Qed.

(** C7. The extraction queues exactly the cells that hold a string whose
    trimmed form is not empty, in row-major order, and never a number, a
    boolean or a blank cell; the unique texts are keyed by the exact
    string, in first-seen order, and start unresolved. *)
Theorem C7_extraction (grid : list (list cell)) :
  cellsToTranslate (extract grid) = grid_cells 0 grid
  /\ (forall c : translatable,
     c ∈ cellsToTranslate (extract grid) <->
     cell_at grid (row c) (col c) = Some (CStr (text c))
     /\ trim (text c) <> EmptyString)
  /\ StronglySorted before (cellsToTranslate (extract grid))
  /\ map_keys (uniqueTexts (extract grid)) =
     first_seen (text <$> cellsToTranslate (extract grid))
  /\ Forall (fun kv => kv.2 = VNull) (uniqueTexts (extract grid)).
Proof.
  split; [now rewrite extract_spec |].
  split; [apply extracted_cells |]. split; [apply extracted_sorted |].
  rewrite extract_spec. cbn [cellsToTranslate uniqueTexts]. split.
  - rewrite map_keys_fold_note. simpl. apply filter_all_in.
    intros x _ Hx. inversion Hx.
  - apply fold_note_unresolved. constructor.
Qed.
(** ** The client *)

Section ClientProofs.

Variable E : engine.
Variable net : network.

Lemma retry_loop_429 fuel texts attempt w r :
  attempt < MAX_RETRIES ->
  net (requests w) = Resolved r ->
  status r = 429 ->
  retry_loop E net (S fuel) texts attempt w =
  if MAX_RETRIES <=? S attempt
  then Some (all_items texts rate_limit_message, requested texts w)
  else retry_loop E net fuel texts (S attempt)
         (emit (Sleep (2 ^ Z.of_nat (S attempt) * 1000)) (requested texts w)).
Proof.
  intros Hlt Hnet Hstatus. cbn [retry_loop].
  apply Nat.ltb_lt in Hlt. rewrite Hlt, Hnet, Hstatus. reflexivity.
Qed.

(** The loop returns when given a turn for every attempt that is left. *)
Lemma retry_loop_total fuel texts attempt w :
  MAX_RETRIES <= fuel + attempt ->
  exists translated w', retry_loop E net fuel texts attempt w = Some (translated, w').
Proof.
  revert attempt w. induction fuel as [| fuel IH]; intros attempt w Hfuel.
  - cbn [retry_loop]. destruct (attempt <? MAX_RETRIES) eqn:Hlt.
    + apply Nat.ltb_lt in Hlt. simpl in Hfuel. lia.
    + eauto.
  - cbn [retry_loop]. destruct (attempt <? MAX_RETRIES) eqn:Hlt; [| eauto].
    destruct (net (requests w)) as [message | r]; [eauto |].
    destruct (status r =? 429); [| eauto].
    destruct (MAX_RETRIES <=? S attempt); [eauto |].
    apply IH. lia.
Qed.

Lemma callGeminiBatch_total texts w :
  exists translated w', callGeminiBatch E net texts w = Some (translated, w').
Proof. apply retry_loop_total. lia. Qed.

(** A call leaves the cache alone and adds requests and waits to the
    trace. *)
Lemma retry_loop_world fuel texts attempt w translated w' :
  retry_loop E net fuel texts attempt w = Some (translated, w') ->
  translationCache w' = translationCache w
  /\ exists events, trace w' = trace w ++ events
       /\ Forall (fun e => e = Fetch texts \/ exists ms, e = Sleep ms) events.
Proof.
  revert attempt w. induction fuel as [| fuel IH]; intros attempt w; cbn [retry_loop].
  - destruct (attempt <? MAX_RETRIES); [discriminate |].
    intros [= <- <-]. split; [reflexivity |]. exists []. now rewrite app_nil_r.
  - assert (forall result,
      Some (result, requested texts w) = Some (translated, w') ->
      translationCache w' = translationCache w
      /\ exists events, trace w' = trace w ++ events
           /\ Forall (fun e => e = Fetch texts \/ exists ms, e = Sleep ms) events)
      as Hdone.
    { intros result [= _ <-]. split; [reflexivity |]. exists [Fetch texts].
      split; [reflexivity | repeat constructor]. }
    destruct (attempt <? MAX_RETRIES).
    + destruct (net (requests w)) as [message | r]; [apply Hdone |].
      destruct (status r =? 429); [| apply Hdone].
      destruct (MAX_RETRIES <=? S attempt); [apply Hdone |].
      intros Hrec. apply IH in Hrec as (Hcache & events & Htrace & Hevents).
      split; [exact Hcache |].
      exists (Fetch texts :: Sleep (2 ^ Z.of_nat (S attempt) * 1000) :: events).
      split.
      * rewrite Htrace. simpl. now rewrite <- !app_assoc.
      * constructor; [now left |]. constructor; [right; eauto | exact Hevents].
    + intros [= <- <-]. split; [reflexivity |]. exists []. now rewrite app_nil_r.
Qed.

End ClientProofs.

(** C4. When every request of a batch is answered with status 429, the
    client issues three requests, waits 2 seconds after the first and 4
    seconds after the second, and then gives up: every item of the batch
    becomes the rate-limit failure. *)
Theorem C4_rate_limit_retries (E : engine) (net : network)
    (texts : list string) (w : world) :
  (forall n, requests w <= n -> exists r, net n = Resolved r /\ status r = 429) ->
  callGeminiBatch E net texts w =
  Some (all_items texts "API Error: Rate limit exceeded after 3 retries.",
        World (requests w + 3)
              (trace w ++ [Fetch texts; Sleep 2000; Fetch texts; Sleep 4000;
                           Fetch texts])
              (translationCache w)).
Proof.
  intros Hnet. unfold callGeminiBatch. unfold MAX_RETRIES at 1.
  destruct (Hnet (requests w)) as (r0 & Hr0 & Hs0); [lia |].
  rewrite (retry_loop_429 E net _ _ _ _ r0) by (assumption || (unfold MAX_RETRIES; lia)).
  cbn [Nat.leb MAX_RETRIES].
  destruct (Hnet (S (requests w))) as (r1 & Hr1 & Hs1); [lia |].
  rewrite (retry_loop_429 E net _ _ _ _ r1)
    by (assumption || (unfold MAX_RETRIES; lia)).
  cbn [Nat.leb MAX_RETRIES].
  destruct (Hnet (S (S (requests w)))) as (r2 & Hr2 & Hs2); [lia |].
  rewrite (retry_loop_429 E net _ _ _ _ r2)
    by (assumption || (unfold MAX_RETRIES; lia)).
  cbn [Nat.leb MAX_RETRIES].
  unfold requested, emit. cbn [requests trace translationCache].
  rewrite <- !app_assoc. cbn [app].
  replace (requests w + 3) with (S (S (S (requests w)))) by lia.
  reflexivity.
Qed.

(** Scenario 2 of the specification: three answers 429 for a batch of
    two texts. *)
Lemma C4_rate_limit_witness :
  callGeminiBatch reference_engine
    (fun _ => Resolved (Response 429 (inl EmptyString)))
    ["Hello"; "World"] (World 0 [] ∅) =
  Some ([VStr "API Error: Rate limit exceeded after 3 retries.";
         VStr "API Error: Rate limit exceeded after 3 retries."],
        World 3 [Fetch ["Hello"; "World"]; Sleep 2000; Fetch ["Hello"; "World"];
                 Sleep 4000; Fetch ["Hello"; "World"]] ∅).
Proof.
  apply (C4_rate_limit_retries reference_engine
           (fun _ => Resolved (Response 429 (inl EmptyString)))
           ["Hello"; "World"] (World 0 [] ∅)).
  intros n _. eexists. split; reflexivity.
Defined.
(** ** Strings *)

Section Strings.

Lemma length_append (a b : string) :
  String.length (a +:+ b) = String.length a + String.length b.
Proof. induction a as [| c a IH]; simpl; [reflexivity | now rewrite IH]. Qed.

Lemma length_substring0 (n : nat) (s : string) :
  String.length (String.substring 0 n s) = Nat.min n (String.length s).
Proof.
  revert s. induction n as [| n IH]; intros [| c s]; simpl; try reflexivity.
  now rewrite IH.
Qed.



Lemma toLowerCase_append (a b : string) :
  toLowerCase (a +:+ b) = toLowerCase a +:+ toLowerCase b.
Proof. induction a as [| c a IH]; simpl; [reflexivity | now rewrite IH]. Qed.

Lemma toLowerCase_uint (d : Decimal.uint) :
  toLowerCase (NilEmpty.string_of_uint d) = NilEmpty.string_of_uint d.
Proof. induction d; simpl; try reflexivity; now rewrite IHd. Qed.

(** A decimal rendering holds no underscore. *)
Lemma uint_no_underscore (d : Decimal.uint) :
  "_"%char ∉ chars (NilEmpty.string_of_uint d).
Proof.
  unfold chars. induction d; simpl; try (intros H; now inversion H);
    intros H; inversion H; subst; contradiction.
Qed.

Lemma decimal_inj (n m : nat) : decimal n = decimal m -> n = m.
Proof.
  unfold decimal. intros H. apply Unsigned.to_uint_inj.
  assert (Some (Nat.to_uint n) = Some (Nat.to_uint m)) as Hsome
    by (rewrite <- !NilEmpty.usu; now rewrite H).
  now injection Hsome.
Qed.

(** What follows the last underscore of a string is determined by the
    string. *)
Lemma after_last_underscore (p1 p2 d1 d2 : string) :
  "_"%char ∉ chars d1 -> "_"%char ∉ chars d2 ->
  p1 +:+ String "_" d1 = p2 +:+ String "_" d2 -> d1 = d2.
Proof.
  intros H1 H2. revert p2. induction p1 as [| c p1 IH]; intros [| c' p2] Heq;
    simpl in Heq.
  - now injection Heq.
  - injection Heq as <- ->. exfalso. apply H1. unfold chars.
    clear. induction p2 as [| c p2 IH]; simpl; [left | now right].
  - injection Heq as -> <-. exfalso. apply H2. unfold chars.
    clear. induction p1 as [| c p1 IH]; simpl; [left | now right].
  - injection Heq as _ Heq. now apply (IH p2).
Qed.

End Strings.

(** ** Sheet names *)

Section SheetNames.

Variable baseName : string.
Variable existingNames : list string.

Lemma suffixed_shape (counter : nat) :
  exists kept, suffixed baseName counter = kept +:+ String "_" (decimal counter).
Proof.
  unfold suffixed, sheet_suffix.
  destruct (_ <? _)%Z; eexists; reflexivity.
Qed.

Lemma lower_suffixed_inj (j k : nat) :
  toLowerCase (suffixed baseName j) = toLowerCase (suffixed baseName k) -> j = k.
Proof.
  destruct (suffixed_shape j) as [pj ->]. destruct (suffixed_shape k) as [pk ->].
  rewrite !toLowerCase_append. cbn [toLowerCase]. unfold decimal.
  rewrite !toLowerCase_uint.
  change (lower_unit "_") with "_"%char.
  intros H. apply after_last_underscore in H; try apply uint_no_underscore.
  now apply decimal_inj.
Qed.


Lemma taken_elem (name : string) :
  taken existingNames name <-> toLowerCase name ∈ existingNames.
Proof.
  unfold taken, array_includes. rewrite existsb_exists. split.
  - intros (x & Hin & Heq). apply String.eqb_eq in Heq. subst.
    now apply list_elem_of_In.
  - intros Hin. exists (toLowerCase name). split.
    + now apply list_elem_of_In.
    + apply String.eqb_refl.
Qed.

(** Pigeonhole: the suffixed names of one more counter than there are
    existing names are not all taken. *)
Lemma some_suffix_free (first : nat) :
  exists k, first <= k < first + S (length existingNames)
            /\ ~ taken existingNames (suffixed baseName k).
Proof.
  set (candidates := seq first (S (length existingNames))).
  destruct (decide (Forall (fun k => toLowerCase (suffixed baseName k) ∈ existingNames)
                           candidates)) as [Hall | Hsome].
  - exfalso.
    assert (NoDup ((fun k => toLowerCase (suffixed baseName k)) <$> candidates)) as Hnodup.
    { apply NoDup_fmap_2_strong; [| apply NoDup_seq].
      intros j k _ _. apply lower_suffixed_inj. }
    apply NoDup_submseteq with (k := existingNames) in Hnodup.
    + apply submseteq_length in Hnodup.
      rewrite length_fmap in Hnodup. unfold candidates in Hnodup.
      rewrite length_seq in Hnodup. lia.
    + intros name Hin.
      apply list_elem_of_fmap in Hin as (k & -> & Hk).
      rewrite Forall_forall in Hall. now apply Hall.
  - apply not_Forall_Exists in Hsome; [| intros k; apply _].
    apply Exists_exists in Hsome as (k & Hk & Hfree).
    exists k. split.
    + apply elem_of_seq in Hk. lia.
    + now rewrite taken_elem.
Qed.

(** The loop returns as soon as a free counter is within its fuel, and
    what it returns is free. *)
Lemma unique_loop_returns (fuel : nat) (finalName : string) (counter : nat) :
  (exists k, counter <= k < counter + fuel
             /\ ~ taken existingNames (suffixed baseName k)) ->
  exists uniqueName,
    unique_loop fuel baseName existingNames finalName counter = Some uniqueName.
Proof.
  revert finalName counter. induction fuel as [| fuel IH];
    intros finalName counter (k & Hk & Hfree).
  - lia.
  - cbn [unique_loop].
    destruct (array_includes existingNames (toLowerCase finalName)); [| eauto].
    destruct (decide (k = counter)) as [-> | Hne].
    + unfold taken in Hfree. apply not_true_is_false in Hfree.
      destruct fuel; cbn [unique_loop]; rewrite Hfree; eauto.
    + apply IH. exists k. split; [lia | assumption].
Qed.

Lemma unique_loop_result (fuel : nat) (finalName : string) (counter : nat)
    (uniqueName : string) :
  unique_loop fuel baseName existingNames finalName counter = Some uniqueName ->
  ~ taken existingNames uniqueName
  /\ ((~ taken existingNames finalName /\ uniqueName = finalName)
      \/ (taken existingNames finalName
          /\ exists k, counter <= k
               /\ uniqueName = suffixed baseName k
               /\ forall j, counter <= j < k ->
                    taken existingNames (suffixed baseName j))).
Proof.
  assert (forall name, array_includes existingNames (toLowerCase name) = false ->
                       ~ taken existingNames name) as Hfalse.
  { intros name H. unfold taken. congruence. }
  revert finalName counter. induction fuel as [| fuel IH];
    intros finalName counter; cbn [unique_loop];
    destruct (array_includes existingNames (toLowerCase finalName)) eqn:Htaken;
    try discriminate.
  - intros [= <-]. auto.
  - intros Hrec. apply IH in Hrec as (Hfree & Hcase). split; [exact Hfree |].
    right. split; [exact Htaken |].
    destruct Hcase as [(Hnow & ->) | (Hthen & k & Hk & -> & Hbefore)].
    + exists counter. split; [lia |]. split; [reflexivity |]. intros j Hj. lia.
    + exists k. split; [lia |]. split; [reflexivity |]. intros j Hj.
      destruct (decide (j = counter)) as [-> | Hne]; [exact Hthen |].
      apply Hbefore. lia.
  - intros [= <-]. auto.
Qed.

End SheetNames.



(** [getUniqueSheetName] returns, and what it returns is the base name
    if that is free, and otherwise the base name with the first suffix
    that makes it free. *)
Lemma getUniqueSheetName_spec (baseName : string) (existingNames : list string) :
  exists uniqueName,
    getUniqueSheetName baseName existingNames = Some uniqueName
    /\ ~ taken existingNames uniqueName
    /\ ((~ taken existingNames baseName /\ uniqueName = baseName)
        \/ (taken existingNames baseName
            /\ exists k, 1 <= k <= S (length existingNames)
                 /\ uniqueName = suffixed baseName k
                 /\ forall j, 1 <= j < k ->
                      taken existingNames (suffixed baseName j))).
Proof.
  unfold getUniqueSheetName.
  destruct (some_suffix_free baseName existingNames 1) as (k0 & Hk0 & Hfree0).
  destruct (unique_loop_returns baseName existingNames
              (S (length existingNames)) baseName 1) as [uniqueName Hloop].
  { exists k0. split; [lia | exact Hfree0]. }
  exists uniqueName. split; [exact Hloop |].
  apply unique_loop_result in Hloop as (Hfree & Hcase).
  split; [exact Hfree |].
  destruct Hcase as [Hbase | (Htaken & k & Hk & -> & Hbefore)]; [now left |].
  right. split; [exact Htaken |]. exists k. split; [| split; [reflexivity | exact Hbefore]].
  split; [exact Hk |].
  destruct (decide (k <= k0)) as [Hle | Hgt]; [lia |].
  exfalso. apply Hfree0, Hbefore. lia.
Qed.

(** ** The reconciliation *)

Section Reconcile.

Implicit Types (g : list (list value)) (c : translatable) (v : value).

Lemma same_shape_lookup {A B : Type} (g : list (list A)) (g' : list (list B)) i cells :
  same_shape g g' -> g !! i = Some cells ->
  exists cells', g' !! i = Some cells' /\ length cells = length cells'.
Proof.
  intros Hshape Hrow. unfold same_shape in Hshape.
  destruct (Forall2_lookup_l _ _ _ _ _ Hshape Hrow) as (cells' & Hrow' & Hlen).
  eauto.
Qed.

Lemma same_shape_refl {A : Type} (g : list (list A)) : same_shape g g.
Proof. apply Forall2_same_length_lookup. split; [reflexivity |]. intros; congruence. Qed.

Lemma same_shape_trans {A B C : Type} (g1 : list (list A)) (g2 : list (list B))
    (g3 : list (list C)) :
  same_shape g1 g2 -> same_shape g2 g3 -> same_shape g1 g3.
Proof.
  unfold same_shape. intros H12 H23.
  eapply Forall2_trans; [| exact H12 | exact H23].
  simpl. intros; congruence.
Qed.

Lemma in_range_shape {A B : Type} (g : list (list A)) (g' : list (list B)) c :
  same_shape g g' -> in_range g c -> in_range g' c.
Proof.
  intros Hshape (cells & Hrow & Hcol).
  destruct (same_shape_lookup g g' _ _ Hshape Hrow) as (cells' & Hrow' & Hlen).
  exists cells'. split; [exact Hrow' | lia].
Qed.

(** A write inside the grid replaces one value and nothing else. *)
Lemma write_cell_in_range g c v :
  in_range g c ->
  exists g', write_cell g (row c) (col c) v = Some g'
    /\ same_shape g g'
    /\ cell_at g' (row c) (col c) = Some v
    /\ forall i j, (i, j) <> position c -> cell_at g' i j = cell_at g i j.
Proof.
  intros (cells & Hrow & Hcol). unfold write_cell. rewrite Hrow. simpl.
  unfold array_set. apply Nat.ltb_lt in Hcol as Hltb. rewrite Hltb.
  eexists. split; [reflexivity |].
  assert (row c < length g) as Hr by (eapply lookup_lt_Some; eauto).
  split; [| split].
  - apply Forall2_same_length_lookup. split; [now rewrite length_insert |].
    intros i a b Ha Hb. destruct (decide (i = row c)) as [-> | Hne].
    + rewrite list_lookup_insert_eq in Hb by assumption.
      rewrite Hrow in Ha. injection Ha as <-. injection Hb as <-.
      now rewrite length_insert.
    + rewrite list_lookup_insert_ne in Hb by congruence. congruence.
  - unfold cell_at. rewrite list_lookup_insert_eq by assumption. simpl.
    now apply list_lookup_insert_eq.
  - intros i j Hpos. unfold cell_at, position in *.
    destruct (decide (i = row c)) as [-> | Hne].
    + rewrite list_lookup_insert_eq by assumption. rewrite Hrow. simpl.
      apply list_lookup_insert_ne. congruence.
    + now rewrite list_lookup_insert_ne by congruence.
Qed.

(** The loop over the cells to translate, when they all lie inside the
    grid and no two of them share a position. *)
Lemma reconcile_cells_spec texts cells g :
  Forall (in_range g) cells ->
  NoDup (position <$> cells) ->
  exists g', reconcile_cells texts cells g = Some g'
    /\ same_shape g g'
    /\ (forall c, c ∈ cells ->
          cell_at g' (row c) (col c) =
          if truthy (default VUndefined (map_get texts (text c)))
          then Some (text_to_write (default VUndefined (map_get texts (text c))))
          else cell_at g (row c) (col c))
    /\ (forall i j, (i, j) ∉ position <$> cells -> cell_at g' i j = cell_at g i j).
Proof.
  revert g. induction cells as [| c rest IH]; intros g Hrange Hnodup.
  - exists g. split; [reflexivity |]. split; [apply same_shape_refl |].
    split; [intros c Hc; inversion Hc | reflexivity].
  - apply Forall_cons in Hrange as [Hc Hrest].
    rewrite fmap_cons in Hnodup. apply NoDup_cons in Hnodup as [Hfresh Hnodup].
    assert (exists g1, reconcile_cell texts g c = Some g1
              /\ same_shape g g1
              /\ cell_at g1 (row c) (col c) =
                 (if truthy (default VUndefined (map_get texts (text c)))
                  then Some (text_to_write (default VUndefined (map_get texts (text c))))
                  else cell_at g (row c) (col c))
              /\ forall i j, (i, j) <> position c -> cell_at g1 i j = cell_at g i j)
      as (g1 & Hstep & Hshape1 & Hhere & Hothers).
    { unfold reconcile_cell.
      destruct (truthy (default VUndefined (map_get texts (text c)))).
      - now apply write_cell_in_range.
      - exists g. split; [reflexivity |]. split; [apply same_shape_refl |]. auto. }
    destruct (IH g1) as (g' & Hloop & Hshape & Hin & Hout).
    { eapply Forall_impl; [exact Hrest |]. intros c'. now apply in_range_shape. }
    { exact Hnodup. }
    exists g'. cbn [reconcile_cells]. rewrite Hstep. simpl.
    split; [exact Hloop |].
    split; [eapply same_shape_trans; eassumption |].
    split.
    + intros c' Hc'. apply elem_of_cons in Hc' as [-> | Hc'].
      * rewrite Hout by exact Hfresh. exact Hhere.
      * rewrite (Hin c' Hc'). rewrite Hothers; [reflexivity |].
        intros Heq. apply Hfresh. change (row c', col c') with (position c') in Heq.
        rewrite <- Heq. now apply list_elem_of_fmap_2.
    + intros i j Hpos. rewrite not_elem_of_cons in Hpos. destruct Hpos as [Hne Hpos].
      rewrite (Hout i j Hpos). now apply Hothers.
Qed.

Lemma sorted_positions cells :
  StronglySorted before cells -> NoDup (position <$> cells).
Proof.
  induction 1 as [| c rest Hsorted IH Hall]; [constructor |].
  rewrite fmap_cons. apply NoDup_cons. split; [| exact IH].
  intros Hin. apply list_elem_of_fmap in Hin as (c' & Heq & Hc').
  rewrite Forall_forall in Hall. specialize (Hall c' Hc').
  unfold position in Heq. injection Heq as Hr Hcol.
  unfold before in Hall. lia.
Qed.

Lemma clone_shape (grid : list (list cell)) : same_shape grid (clone grid).
Proof.
  unfold same_shape, clone. apply Forall2_fmap_r, Forall_Forall2_diag.
  apply Forall_forall. intros cells _. simpl. now rewrite length_map.
Qed.

Lemma cell_at_clone (grid : list (list cell)) i j :
  cell_at (clone grid) i j = value_of_cell <$> cell_at grid i j.
Proof.
  unfold cell_at, clone. rewrite list_lookup_fmap.
  destruct (grid !! i) as [cells |]; simpl; [| reflexivity].
  apply list_lookup_fmap.
Qed.

Lemma extracted_in_range (grid : list (list cell)) :
  Forall (in_range grid) (cellsToTranslate (extract grid)).
Proof.
  apply Forall_forall. intros c Hc.
  rewrite extract_spec in Hc. cbn [cellsToTranslate] in Hc.
  apply elem_of_grid_cells in Hc as (_ & cells & Hrow & Hcol & _).
  rewrite Nat.sub_0_r in Hrow. exists cells. split; [exact Hrow |].
  eapply lookup_lt_Some; eauto.
Qed.

(** The reconciliation of the cells extracted from a grid. *)
Lemma reconcile_extracted (grid : list (list cell)) texts :
  exists written,
    reconcile grid (cellsToTranslate (extract grid)) texts = Some written
    /\ same_shape grid written
    /\ (forall c, c ∈ cellsToTranslate (extract grid) ->
          cell_at written (row c) (col c) =
          if truthy (default VUndefined (map_get texts (text c)))
          then Some (text_to_write (default VUndefined (map_get texts (text c))))
          else Some (VStr (text c)))
    /\ (forall i j cellValue, cell_at grid i j = Some cellValue ->
          qualifies cellValue = false ->
          cell_at written i j = Some (value_of_cell cellValue)).
Proof.
  destruct (reconcile_cells_spec texts (cellsToTranslate (extract grid)) (clone grid))
    as (written & Hrun & Hshape & Hin & Hout).
  { eapply Forall_impl; [apply extracted_in_range |].
    intros c. apply in_range_shape, clone_shape. }
  { apply sorted_positions. apply extracted_sorted. }
  exists written. split; [exact Hrun |].
  split; [eapply same_shape_trans; [apply clone_shape | exact Hshape] |].
  split.
  - intros c Hc. rewrite (Hin c Hc), cell_at_clone.
    apply (proj1 (extracted_cells grid c)) in Hc as [Hcell _].
    now rewrite Hcell.
  - intros i j cellValue Hcell Hq. rewrite Hout, cell_at_clone, Hcell; [reflexivity |].
    intros Hpos. apply list_elem_of_fmap in Hpos as (c & Heq & Hc).
    unfold position in Heq. injection Heq as -> ->.
    apply (proj1 (extracted_cells grid c)) in Hc as [Hcell' Htrim].
    rewrite Hcell in Hcell'. injection Hcell' as ->.
    unfold qualifies in Hq. apply negb_false_iff, String.eqb_eq in Hq. contradiction.
Qed.

End Reconcile.
(** ** The items of a run *)

Section Settle.

Implicit Types (p : progress) (cache : gmap string value)
  (items : list (string * value)).

Lemma is_error_truthy (r : value) : is_error r = true -> truthy r = true.
Proof.
  destruct r as [| | b | n | s | l | f]; simpl; try discriminate.
  destruct s; [discriminate | reflexivity].
Qed.

Lemma settle_batch_fold j batch translatedBatch st :
  settle_batch j batch translatedBatch st =
  fold_left settle (aligned j batch translatedBatch) st.
Proof.
  revert j st. induction batch as [| t rest IH]; intros j st; [reflexivity |].
  cbn [settle_batch aligned fold_left]. now rewrite IH.
Qed.

Lemma aligned_texts j batch translatedBatch :
  (aligned j batch translatedBatch).*1 = batch.
Proof.
  revert j. induction batch as [| t rest IH]; intros j; [reflexivity |].
  cbn [aligned]. rewrite fmap_cons. simpl. now rewrite IH.
Qed.

Lemma aligned_lookup k batch translatedBatch j t :
  batch !! j = Some t ->
  aligned k batch translatedBatch !! j = Some (t, nth (k + j) translatedBatch VUndefined).
Proof.
  revert k j. induction batch as [| t0 rest IH]; intros k j Hj; [discriminate |].
  destruct j as [| j]; cbn [aligned].
  - injection Hj as ->. simpl. now rewrite Nat.add_0_r.
  - simpl in Hj. simpl. rewrite (IH (S k) j Hj). do 3 f_equal. lia.
Qed.

(** One item: a result taken for an error leaves the texts and the
    cache alone and counts; any other result is recorded under its text
    in both. *)
Lemma settle_item_spec t r p cache :
  settle_item t r (p, cache) =
  if is_error r
  then (Progress (texts_map p) (S (totalErrors p))
          (if truthy (firstErrorMessage p) then firstErrorMessage p else r),
        cache)
  else (Progress (map_set (texts_map p) t (js_or r (VStr t)))
          (totalErrors p) (firstErrorMessage p),
        <[t := js_or r (VStr t)]> cache).
Proof.
  unfold settle_item. destruct (is_error r); [| reflexivity].
  now destruct (truthy (firstErrorMessage p)).
Qed.

Lemma settle_other t r p cache t' :
  t' <> t ->
  map_get (texts_map (settle_item t r (p, cache)).1) t' = map_get (texts_map p) t'
  /\ (settle_item t r (p, cache)).2 !! t' = cache !! t'.
Proof.
  intros Hne. rewrite settle_item_spec. destruct (is_error r); simpl; [auto |].
  split; [apply map_get_set_ne; congruence | apply lookup_insert_ne; congruence].
Qed.

(** The items of a run, when no text occurs twice among them. *)
Lemma settle_fold_spec items p cache :
  NoDup items.*1 ->
  let st' := fold_left settle items (p, cache) in
  (forall t r, (t, r) ∈ items ->
     if is_error r
     then map_get (texts_map st'.1) t = map_get (texts_map p) t
          /\ st'.2 !! t = cache !! t
     else map_get (texts_map st'.1) t = Some (js_or r (VStr t))
          /\ st'.2 !! t = Some (js_or r (VStr t)))
  /\ (forall t, t ∉ items.*1 ->
        map_get (texts_map st'.1) t = map_get (texts_map p) t
        /\ st'.2 !! t = cache !! t)
  /\ totalErrors st'.1 = totalErrors p + count_errors items.
Proof.
  revert p cache. induction items as [| [t0 r0] rest IH]; intros p cache Hnodup.
  - simpl. split; [intros t r H; inversion H |]. split; [auto |].
    unfold count_errors. simpl. lia.
  - rewrite fmap_cons in Hnodup. apply NoDup_cons in Hnodup as [Hfresh Hnodup].
    simpl in Hfresh. cbn [fold_left].
    change (settle (p, cache) (t0, r0)) with (settle_item t0 r0 (p, cache)).
    destruct (settle_item t0 r0 (p, cache)) as [p1 cache1] eqn:Hstep.
    specialize (IH p1 cache1 Hnodup). cbn zeta in IH.
    destruct IH as (Hin & Hout & Hcount).
    assert (forall t', t' <> t0 ->
              map_get (texts_map p1) t' = map_get (texts_map p) t'
              /\ cache1 !! t' = cache !! t') as Hother.
    { intros t' Hne. pose proof (settle_other t0 r0 p cache t' Hne) as H.
      now rewrite Hstep in H. }
    cbn zeta. split; [| split].
    + intros t r Hitem. apply elem_of_cons in Hitem as [[= -> ->] | Hitem].
      * destruct (Hout t0 Hfresh) as [-> ->].
        rewrite settle_item_spec in Hstep.
        destruct (is_error r0); injection Hstep as <- <-; simpl.
        -- auto.
        -- split; [apply map_get_set_eq | apply lookup_insert_eq].
      * assert (t <> t0) as Hne.
        { intros ->. apply Hfresh. apply list_elem_of_fmap. now exists (t0, r). }
        specialize (Hin t r Hitem). destruct (Hother t Hne) as [Hm Hc].
        destruct (is_error r); [| exact Hin]. now rewrite <- Hm, <- Hc.
    + intros t Ht. rewrite fmap_cons, not_elem_of_cons in Ht. destruct Ht as [Hne Ht].
      destruct (Hout t Ht) as [-> ->]. now apply Hother.
    + rewrite Hcount. rewrite settle_item_spec in Hstep. unfold count_errors.
      destruct (is_error r0) eqn:Herr; injection Hstep as <- <-.
      * rewrite filter_cons_True by exact Herr. simpl. lia.
      * rewrite filter_cons_False by (simpl; congruence). simpl. lia.
Qed.

End Settle.

(** ** The batch loop *)

Section BatchLoop.

Variable E : engine.
Variable net : network.
Variable model : string.

Lemma loop_event_mono batches batches' e :
  (forall batch, batch ∈ batches -> batch ∈ batches') ->
  loop_event batches e -> loop_event batches' e.
Proof. intros Hsub. destruct e; simpl; auto. Qed.

(** One turn: the client answers, the cache is as the items of the
    answer leave it, and the trace grows by requests for this batch and
    by waits. *)
Lemma batch_turn_spec totalBatches i batch st :
  exists reply st',
    batch_turn E net model totalBatches i batch st = Some (reply, st')
    /\ (st'.1, translationCache st'.2) =
       fold_left settle (aligned 0 batch reply) (st.1, translationCache st.2)
    /\ exists events, trace st'.2 = trace st.2 ++ events
         /\ Forall (loop_event [batch]) events.
Proof.
  destruct st as [p w]. unfold batch_turn. cbn [fst snd].
  destruct (callGeminiBatch_total E net batch w) as (reply & w1 & Hcall).
  rewrite Hcall. cbn [mbind option_bind].
  apply retry_loop_world in Hcall as (Hcache & events & Htrace & Hevents).
  rewrite settle_batch_fold, Hcache.
  destruct (fold_left settle (aligned 0 batch reply) (p, translationCache w))
    as [p2 cache2] eqn:Hfold.
  assert (Forall (loop_event [batch]) events) as Hloop.
  { eapply Forall_impl; [exact Hevents |].
    intros e [-> | [ms ->]]; simpl; [left | exact I]. }
  destruct (String.eqb model STANDARD_MODEL && (1 <? totalBatches)
            && (i <? totalBatches - 1)).
  - eexists _, _. split; [reflexivity |]. split; [now rewrite Hfold |].
    exists (events ++ [Countdown SAFE_MODE_DELAY]). cbn [snd emit trace].
    split; [now rewrite Htrace, app_assoc |].
    apply Forall_app. split; [exact Hloop | repeat constructor].
  - eexists _, _. split; [reflexivity |]. split; [now rewrite Hfold |].
    exists events. cbn [snd trace]. auto.
Qed.

Lemma settled_cons batch rest reply later :
  settled (batch :: rest) (reply :: later) =
  aligned 0 batch reply ++ settled rest later.
Proof. reflexivity. Qed.

(** The loop: it returns, with one reply per batch, and its state is
    what the items of all the replies, settled in order, leave. *)
Lemma batch_loop_spec totalBatches batches i st :
  exists st' rs,
    process_batches E net model totalBatches i batches st = Some st'
    /\ replies E net model totalBatches i batches st = Some rs
    /\ length rs = length batches
    /\ (st'.1, translationCache st'.2) =
       fold_left settle (settled batches rs) (st.1, translationCache st.2)
    /\ exists events, trace st'.2 = trace st.2 ++ events
         /\ Forall (loop_event batches) events.
Proof.
  revert i st. induction batches as [| batch rest IH]; intros i st.
  - exists st, []. split; [reflexivity |]. split; [reflexivity |].
    split; [reflexivity |]. split; [reflexivity |].
    exists []. split; [now rewrite app_nil_r | constructor].
  - destruct (batch_turn_spec totalBatches i batch st)
      as (reply & st1 & Hturn & Hstate1 & events1 & Htrace1 & Hevents1).
    destruct (IH (S i) st1)
      as (st' & later & Hloop & Hreplies & Hlen & Hstate & events & Htrace & Hevents).
    exists st', (reply :: later). cbn [process_batches replies].
    rewrite Hturn. cbn [mbind option_bind]. rewrite Hloop, Hreplies.
    split; [reflexivity |]. split; [reflexivity |].
    split; [simpl; now rewrite Hlen |].
    split.
    + rewrite settled_cons, fold_left_app, <- Hstate1. exact Hstate.
    + exists (events1 ++ events). split; [now rewrite Htrace, Htrace1, app_assoc |].
      apply Forall_app. split.
      * eapply Forall_impl; [exact Hevents1 |]. intros e.
        apply loop_event_mono. intros b Hb.
        apply list_elem_of_singleton in Hb as ->. left.
      * eapply Forall_impl; [exact Hevents |]. intros e.
        apply loop_event_mono. intros b Hb. now right.
Qed.

End BatchLoop.

Lemma settled_texts batches rs :
  length rs = length batches -> (settled batches rs).*1 = concat batches.
Proof.
  revert rs. induction batches as [| batch rest IH]; intros [| reply later] Hlen;
    try discriminate; [reflexivity |].
  rewrite settled_cons, fmap_app, aligned_texts. cbn [concat].
  f_equal. apply IH. simpl in Hlen. lia.
Qed.

Lemma settled_item batches rs i j batch reply t :
  batches !! i = Some batch -> rs !! i = Some reply -> batch !! j = Some t ->
  (t, nth j reply VUndefined) ∈ settled batches rs.
Proof.
  revert rs i. induction batches as [| batch0 rest IH]; intros rs i Hb Hr Ht;
    [discriminate |].
  destruct rs as [| reply0 later]; [discriminate |].
  rewrite settled_cons, elem_of_app. destruct i as [| i].
  - injection Hb as ->. injection Hr as ->. left.
    apply list_elem_of_lookup. exists j. now apply (aligned_lookup 0).
  - right. eapply IH; eauto.
Qed.

(** ** The cache lookup *)

Section CacheLookup.

Variable cache : gmap string value.

Lemma lookup_fold l acc :
  textsToFetchFromApi (fold_left (lookup_step cache) l acc) =
  textsToFetchFromApi acc ++ filter (fun t => cache !! t = None) l
  /\ forall t,
       map_get (resolved (fold_left (lookup_step cache) l acc)) t =
       match cache !! t with
       | Some cached => if decide (t ∈ l) then Some cached
                        else map_get (resolved acc) t
       | None => map_get (resolved acc) t
       end.
Proof.
  revert acc. induction l as [| t0 l IH]; intros acc.
  - simpl. split; [now rewrite app_nil_r |]. intros t.
    now destruct (cache !! t).
  - cbn [fold_left]. destruct (IH (lookup_step cache acc t0)) as [Hfetch Hget].
    unfold lookup_step in *. split.
    + rewrite Hfetch. destruct (cache !! t0) as [cached |] eqn:Hc0;
        cbn [textsToFetchFromApi].
      * rewrite filter_cons_False; [reflexivity | congruence].
      * rewrite filter_cons_True by assumption. now rewrite <- app_assoc.
    + intros t. rewrite Hget. destruct (cache !! t) as [cached |] eqn:Hc.
      * destruct (decide (t ∈ l)) as [Hin | Hnot].
        -- rewrite decide_True; [reflexivity | now right].
        -- destruct (decide (t = t0)) as [-> | Hne].
           ++ rewrite decide_True by left. rewrite Hc. cbn [resolved].
              apply map_get_set_eq.
           ++ rewrite decide_False
                by (intros H; apply elem_of_cons in H as [? | ?]; contradiction).
              destruct (cache !! t0); cbn [resolved]; [| reflexivity].
              apply map_get_set_ne. congruence.
      * destruct (cache !! t0) as [cached0 |] eqn:Hc0; cbn [resolved]; [| reflexivity].
        apply map_get_set_ne. congruence.
Qed.

(** The texts to fetch are the keys that the cache does not hold, in
    order; a key that the cache holds is resolved to the cached value,
    and any other keeps the value it had. *)
Lemma cache_lookup_spec (texts : ordered_map) :
  textsToFetchFromApi (cache_lookup cache texts) =
  filter (fun t => cache !! t = None) (map_keys texts)
  /\ forall t,
       map_get (resolved (cache_lookup cache texts)) t =
       match cache !! t with
       | Some cached => if decide (t ∈ map_keys texts) then Some cached
                        else map_get texts t
       | None => map_get texts t
       end.
Proof. unfold cache_lookup. apply lookup_fold. Qed.

End CacheLookup.

(** ** The keys of the unique texts *)

Lemma fold_note_keys l m :
  (NoDup (map_keys m) -> NoDup (map_keys (fold_left note l m)))
  /\ forall t, t ∈ map_keys (fold_left note l m) <-> t ∈ map_keys m \/ t ∈ l.
Proof.
  revert m. induction l as [| t0 l IH]; intros m.
  - simpl. split; [auto |]. intros t. split; [auto | intros [H | H]; [auto | inversion H]].
  - cbn [fold_left]. destruct (IH (note m t0)) as [Hnodup Hkeys].
    rewrite map_keys_note in Hnodup, Hkeys. split.
    + intros Hm. apply Hnodup. destruct (decide (t0 ∈ map_keys m)); [exact Hm |].
      apply NoDup_app. split; [exact Hm |]. split; [| apply NoDup_singleton].
      intros x Hx Hx0. apply list_elem_of_singleton in Hx0 as ->. contradiction.
    + intros t. rewrite Hkeys, elem_of_cons.
      destruct (decide (t0 ∈ map_keys m)) as [Hin | Hnot].
      * split; [tauto |]. intros [H | [-> | H]]; auto.
      * rewrite elem_of_app, list_elem_of_singleton. tauto.
Qed.

Lemma unique_keys (grid : list (list cell)) :
  NoDup (map_keys (uniqueTexts (extract grid)))
  /\ forall t, t ∈ map_keys (uniqueTexts (extract grid)) <->
               exists c, c ∈ cellsToTranslate (extract grid) /\ text c = t.
Proof.
  rewrite extract_spec. cbn [cellsToTranslate uniqueTexts].
  destruct (fold_note_keys (text <$> grid_cells 0 grid) []) as [Hnodup Hkeys].
  split; [apply Hnodup; constructor |].
  intros t. rewrite Hkeys, list_elem_of_fmap. split.
  - intros [H | (c & -> & Hc)]; [inversion H | eauto].
  - intros (c & Hc & <-). right. eauto.
Qed.

Lemma unique_unresolved (grid : list (list cell)) t :
  t ∈ map_keys (uniqueTexts (extract grid)) ->
  map_get (uniqueTexts (extract grid)) t = Some VNull.
Proof.
  pose proof (fold_note_unresolved (text <$> grid_cells 0 grid) []) as Hnull.
  rewrite extract_spec. cbn [uniqueTexts].
  specialize (Hnull ltac:(constructor)).
  induction (fold_left note (text <$> grid_cells 0 grid) []) as [| [k v] m IH];
    intros Hin; [inversion Hin |].
  apply Forall_cons in Hnull as [Hv Hnull]. simpl in Hv. subst v. simpl.
  destruct (String.eqb k t) eqn:Hk; [reflexivity |].
  apply IH; [exact Hnull |]. simpl in Hin.
  apply elem_of_cons in Hin as [-> | Hin]; [| exact Hin].
  now rewrite String.eqb_refl in Hk.
Qed.

(** ** A run of [translateRange] *)

Section Run.

Variable E : engine.
Variable net : network.
Variable model : string.

Lemma translateRange_nothing (grid : list (list cell)) (w : world) :
  cellsToTranslate (extract grid) = [] ->
  translateRange E net model grid w = Some (Outcome 0 VNull None, w).
Proof. intros Hnone. unfold translateRange. now rewrite Hnone. Qed.

(** A run that finds something to translate goes through the batch
    loop and the reconciliation, and returns what they leave. *)
Lemma translateRange_spec (grid : list (list cell)) (w : world) :
  cellsToTranslate (extract grid) <> [] ->
  exists p w' rs written,
    run_replies E net model grid w = Some rs
    /\ length rs = length (run_batches grid w)
    /\ (p, translationCache w') =
       fold_left settle (settled (run_batches grid w) rs)
         (Progress (resolved (run_lookup grid w)) 0 VNull, translationCache w)
    /\ (exists events, trace w' = trace w ++ events
          /\ Forall (loop_event (run_batches grid w)) events)
    /\ reconcile grid (cellsToTranslate (extract grid)) (texts_map p) = Some written
    /\ translateRange E net model grid w =
       Some (Outcome (totalErrors p) (firstErrorMessage p) (Some written), w').
Proof.
  intros Hsome.
  destruct (batch_loop_spec E net model (length (run_batches grid w))
              (run_batches grid w) 0 (run_start grid w))
    as ([p w'] & rs & Hloop & Hreplies & Hlen & Hstate & events & Htrace & Hevents).
  destruct (reconcile_extracted grid (texts_map p)) as (written & Hrec & _).
  exists p, w', rs, written.
  split; [exact Hreplies |]. split; [exact Hlen |].
  assert (translationCache (run_start grid w).2 = translationCache w
          /\ exists before, trace (run_start grid w).2 = trace w ++ before
               /\ Forall (loop_event (run_batches grid w)) before)
    as (Hcache0 & before & Htrace0 & Hbefore).
  { unfold run_start. cbn [snd]. destruct (0 <? _).
    - split; [reflexivity |]. exists [Sleep 500]. split; [reflexivity |].
      repeat constructor.
    - split; [reflexivity |]. exists []. split; [now rewrite app_nil_r | constructor]. }
  split; [| split; [| split]].
  - cbn [fst snd] in Hstate. rewrite Hstate, Hcache0. reflexivity.
  - exists (before ++ events). cbn [snd] in Htrace.
    split; [now rewrite Htrace, Htrace0, app_assoc |].
    apply Forall_app. auto.
  - exact Hrec.
  - unfold translateRange.
    destruct (length (cellsToTranslate (extract grid)) =? 0) eqn:Hlen0.
    { apply Nat.eqb_eq, length_zero_iff_nil in Hlen0. contradiction. }
    fold (run_lookup grid w). fold (run_start grid w).
    assert ((if 0 <? length (textsToFetchFromApi (run_lookup grid w))
             then process_batches E net model
                    (length (smart_batching (textsToFetchFromApi (run_lookup grid w))))
                    0 (smart_batching (textsToFetchFromApi (run_lookup grid w)))
                    (run_start grid w)
             else Some (run_start grid w)) = Some (p, w')) as ->.
    { fold (run_batches grid w). destruct (0 <? _) eqn:Hfetch; [exact Hloop |].
      apply Nat.ltb_ge in Hfetch.
      assert (textsToFetchFromApi (run_lookup grid w) = []) as Hnil
        by (apply length_zero_iff_nil; lia).
      unfold run_batches in Hloop. rewrite Hnil in Hloop.
      change (smart_batching []) with (@nil (list string)) in Hloop.
      exact Hloop. }
    cbn [mbind option_bind]. rewrite Hrec. reflexivity.
Qed.

(** A run returns. *)
Lemma translateRange_total (grid : list (list cell)) (w : world) :
  exists out w', translateRange E net model grid w = Some (out, w').
Proof.
  destruct (cellsToTranslate (extract grid)) as [| c0 cells] eqn:Hcells.
  - eexists _, _. now apply translateRange_nothing.
  - destruct (translateRange_spec grid w) as (p & w' & rs & written & H).
    { rewrite Hcells. discriminate. }
    eexists _, _. apply H.
Qed.

End Run.

(** C5. For every input grid the grid that a run reconciles has as many
    rows as the input, each row has as many columns as the row of the
    input, and a cell that is not translatable (a number, a boolean, a
    blank) holds the value it had. A run that finds nothing to translate
    writes no grid at all. *)
Theorem C5_grid_shape (E : engine) (net : network) (model : string)
    (grid : list (list cell)) (w : world) :
  exists out w',
    translateRange E net model grid w = Some (out, w')
    /\ match newValues out with
       | Some written =>
           length written = length grid
           /\ (forall i cells, grid !! i = Some cells ->
                 exists cells', written !! i = Some cells'
                                /\ length cells' = length cells)
           /\ (forall i j cellValue, cell_at grid i j = Some cellValue ->
                 qualifies cellValue = false ->
                 cell_at written i j = Some (value_of_cell cellValue))
       | None => cellsToTranslate (extract grid) = []
       end.
Proof.
  destruct (cellsToTranslate (extract grid)) as [| c0 cells] eqn:Hcells.
  - eexists _, _. split; [now apply translateRange_nothing |]. reflexivity.
  - destruct (translateRange_spec E net model grid w)
      as (p & w' & rs & written & _ & _ & _ & _ & Hrec & Hrun).
    { rewrite Hcells. discriminate. }
    eexists _, _. split; [exact Hrun |]. cbn [newValues].
    destruct (reconcile_extracted grid (texts_map p))
      as (written' & Hrec' & Hshape & _ & Hkept).
    rewrite Hrec in Hrec'. injection Hrec' as <-.
    split; [symmetry; eapply Forall2_length; exact Hshape |].
    split; [| exact Hkept].
    intros i row Hrow.
    destruct (same_shape_lookup grid written i row Hshape Hrow) as (row' & Hrow' & Hlen).
    eauto.
Qed.

(** ** The texts a run sends, and what it leaves *)

Lemma run_texts (grid : list (list cell)) (w : world) :
  concat (run_batches grid w) =
  filter (fun t => translationCache w !! t = None)
         (map_keys (uniqueTexts (extract grid)))
  /\ NoDup (concat (run_batches grid w))
  /\ forall t, t ∈ concat (run_batches grid w) <->
       (exists c, c ∈ cellsToTranslate (extract grid) /\ text c = t)
       /\ translationCache w !! t = None.
Proof.
  unfold run_batches, run_lookup. rewrite smart_batching_concat.
  destruct (cache_lookup_spec (translationCache w) (uniqueTexts (extract grid)))
    as [-> _].
  destruct (unique_keys grid) as [Hnodup Hkeys].
  split; [reflexivity |]. split; [now apply NoDup_filter |].
  intros t. rewrite list_elem_of_filter, Hkeys. tauto.
Qed.

Section RunFacts.

Variable E : engine.
Variable net : network.
Variable model : string.

(** Every run returns; its replies are one per batch, its error count
    and its cache are what the items of the replies leave, its trace
    grows by requests for its batches and by waits, and the grid it
    hands over is the reconciliation under the texts it has resolved. *)
Lemma run_facts (grid : list (list cell)) (w : world) :
  exists p out w' rs,
    translateRange E net model grid w = Some (out, w')
    /\ run_replies E net model grid w = Some rs
    /\ length rs = length (run_batches grid w)
    /\ (p, translationCache w') =
       fold_left settle (settled (run_batches grid w) rs)
         (Progress (resolved (run_lookup grid w)) 0 VNull, translationCache w)
    /\ (exists events, trace w' = trace w ++ events
          /\ Forall (loop_event (run_batches grid w)) events)
    /\ errors out = totalErrors p
    /\ newValues out =
       match cellsToTranslate (extract grid) with
       | [] => None
       | _ => reconcile grid (cellsToTranslate (extract grid)) (texts_map p)
       end.
Proof.
  destruct (cellsToTranslate (extract grid)) as [| c0 cells] eqn:Hcells.
  - assert (run_batches grid w = []) as Hbatches.
    { unfold run_batches, run_lookup.
      destruct (cache_lookup_spec (translationCache w) (uniqueTexts (extract grid)))
        as [-> _].
      destruct (map_keys (uniqueTexts (extract grid))) as [| t keys] eqn:Hkeys;
        [reflexivity |].
      exfalso. destruct (unique_keys grid) as [_ Hin].
      destruct (proj1 (Hin t)) as (c & Hc & _); [rewrite Hkeys; left |].
      rewrite Hcells in Hc. inversion Hc. }
    exists (Progress (resolved (run_lookup grid w)) 0 VNull), (Outcome 0 VNull None),
      w, [].
    split; [now apply translateRange_nothing |].
    unfold run_replies. rewrite Hbatches. cbn [replies settled zip_with concat fold_left length].
    repeat (split; [reflexivity |]).
    split; [| split; reflexivity].
    exists []. split; [now rewrite app_nil_r | constructor].
  - destruct (translateRange_spec E net model grid w)
      as (p & w' & rs & written & Hreplies & Hlen & Hstate & Hevents & Hrec & Hrun).
    { rewrite Hcells. discriminate. }
    exists p, (Outcome (totalErrors p) (firstErrorMessage p) (Some written)), w', rs.
    rewrite Hcells in Hrec. cbn [errors newValues]. rewrite Hrec. auto 10.
Qed.

End RunFacts.

(** What the items of a run leave for a text of one of its batches, and
    for a text that is in none. *)
Lemma sent_item_facts (grid : list (list cell)) (w : world)
    (rs : list (list value)) (p : progress) (cache' : gmap string value)
    i j batch reply t :
  length rs = length (run_batches grid w) ->
  (p, cache') =
  fold_left settle (settled (run_batches grid w) rs)
    (Progress (resolved (run_lookup grid w)) 0 VNull, translationCache w) ->
  run_batches grid w !! i = Some batch -> rs !! i = Some reply ->
  batch !! j = Some t ->
  translationCache w !! t = None
  /\ (exists c, c ∈ cellsToTranslate (extract grid) /\ text c = t)
  /\ (if is_error (nth j reply VUndefined)
      then map_get (texts_map p) t = Some VNull /\ cache' !! t = None
      else map_get (texts_map p) t = Some (js_or (nth j reply VUndefined) (VStr t))
           /\ cache' !! t = Some (js_or (nth j reply VUndefined) (VStr t))).
Proof.
  intros Hlen Hstate Hbatch Hreply Ht.
  destruct (run_texts grid w) as (_ & Hnodup & Hsent).
  assert (t ∈ concat (run_batches grid w)) as Hin.
  { apply list_elem_of_In, in_concat. exists batch.
    split; apply list_elem_of_In; eapply list_elem_of_lookup_2; eauto. }
  apply Hsent in Hin as [Hcell Hmiss].
  split; [exact Hmiss |]. split; [exact Hcell |].
  pose proof (settle_fold_spec (settled (run_batches grid w) rs)
                (Progress (resolved (run_lookup grid w)) 0 VNull)
                (translationCache w)) as Hfold.
  rewrite settled_texts in Hfold by exact Hlen.
  specialize (Hfold Hnodup). cbn zeta in Hfold. rewrite <- Hstate in Hfold.
  destruct Hfold as (Hitems & _ & _).
  specialize (Hitems t _ (settled_item _ _ _ _ _ _ _ Hbatch Hreply Ht)).
  cbn [fst snd texts_map] in Hitems.
  destruct (is_error (nth j reply VUndefined)); [| exact Hitems].
  destruct Hitems as [-> ->]. split; [| exact Hmiss].
  unfold run_lookup.
  destruct (cache_lookup_spec (translationCache w) (uniqueTexts (extract grid)))
    as [_ ->].
  rewrite Hmiss. apply unique_unresolved.
  destruct Hcell as (c & Hc & <-). apply (proj2 (unique_keys grid)). eauto.
Qed.

Lemma run_totals (grid : list (list cell)) (w : world)
    (rs : list (list value)) (p : progress) (cache' : gmap string value) :
  length rs = length (run_batches grid w) ->
  (p, cache') =
  fold_left settle (settled (run_batches grid w) rs)
    (Progress (resolved (run_lookup grid w)) 0 VNull, translationCache w) ->
  totalErrors p = count_errors (settled (run_batches grid w) rs)
  /\ forall t, t ∉ concat (run_batches grid w) ->
       map_get (texts_map p) t = map_get (resolved (run_lookup grid w)) t
       /\ cache' !! t = translationCache w !! t.
Proof.
  intros Hlen Hstate.
  destruct (run_texts grid w) as (_ & Hnodup & _).
  pose proof (settle_fold_spec (settled (run_batches grid w) rs)
                (Progress (resolved (run_lookup grid w)) 0 VNull)
                (translationCache w)) as Hfold.
  rewrite settled_texts in Hfold by exact Hlen.
  specialize (Hfold Hnodup). cbn zeta in Hfold. rewrite <- Hstate in Hfold.
  destruct Hfold as (_ & Hout & Hcount). cbn [fst snd texts_map totalErrors] in *.
  split; [exact Hcount | exact Hout].
Qed.
(** ** The requests of a run *)

(** The shape of a call: [k] answers 429, then one more request. *)
Lemma call_shape (E : engine) (net : network)
    (texts : list string) (w : world) :
  exists k translated events,
    callGeminiBatch E net texts w =
    Some (translated,
          World (requests w + S k) (trace w ++ events) (translationCache w))
    /\ call_events texts !! k = Some events
    /\ (forall i, i < k -> rate_limited (net (requests w + i)) = true)
    /\ (rate_limited (net (requests w + k)) = true ->
        k = 2 /\ translated = all_items texts rate_limit_message)
    /\ (forall message, net (requests w + k) = Rejected message ->
        translated = all_items texts ("Network Error: " +:+ message)).
Proof.
  unfold callGeminiBatch. cbn [retry_loop MAX_RETRIES Nat.ltb Nat.leb].
  unfold emit. cbn [requests trace translationCache].
  destruct (net (requests w)) as [m0 | r0] eqn:H0;
    [| destruct (status r0 =? 429) eqn:S0];
    [exists 0 | | exists 0].
  1, 3: eexists _, [Fetch texts]; rewrite !Nat.add_0_r, H0;
        replace (requests w + 1) with (S (requests w)) by lia;
        cbn [rate_limited]; try rewrite S0;
        (split; [reflexivity |]); (split; [reflexivity |]);
        (split; [intros i Hi; lia |]); (split; [discriminate |]);
        intros message [= <-]; reflexivity || discriminate.
  cbn [Z.of_nat Pos.of_succ_nat Pos.succ Z.pow Z.pow_pos Pos.iter Z.mul Pos.mul].
  assert (forall i, i < 1 -> rate_limited (net (requests w + i)) = true) as Hone.
  { intros i Hi. replace i with 0 by lia. rewrite Nat.add_0_r, H0. exact S0. }
  destruct (net (S (requests w))) as [m1 | r1] eqn:H1;
    [| destruct (status r1 =? 429) eqn:S1].
  1, 3: exists 1; eexists _, [Fetch texts; Sleep 2000; Fetch texts];
        replace (requests w + 1) with (S (requests w)) by lia;
        replace (requests w + 2) with (S (S (requests w))) by lia;
        rewrite H1; cbn [rate_limited]; try rewrite S1;
        rewrite <- !app_assoc; cbn [app];
        (split; [reflexivity |]); (split; [reflexivity |]);
        (split; [exact Hone |]); (split; [discriminate |]);
        intros message [= <-]; reflexivity || discriminate.
  assert (forall i, i < 2 -> rate_limited (net (requests w + i)) = true) as Htwo.
  { intros i Hi. destruct i as [| [| i]]; [apply Hone; lia | | lia].
    replace (requests w + 1) with (S (requests w)) by lia.
    rewrite H1. exact S1. }
  replace (requests w + 2) with (S (S (requests w))) by lia.
  replace (requests w + 3) with (S (S (S (requests w)))) by lia.
  destruct (net (S (S (requests w)))) as [m2 | r2] eqn:H2;
    [| destruct (status r2 =? 429) eqn:S2];
    exists 2;
    eexists _, [Fetch texts; Sleep 2000; Fetch texts; Sleep 4000; Fetch texts];
    replace (requests w + 2) with (S (S (requests w))) by lia;
    replace (requests w + 3) with (S (S (S (requests w)))) by lia;
    rewrite H2; cbn [rate_limited]; try rewrite S2;
    rewrite <- !app_assoc; cbn [app];
    (split; [reflexivity |]); (split; [reflexivity |]);
    (split; [exact Htwo |]).
  - split; [discriminate |]. intros message [= <-]. reflexivity.
  - split; [intros _; split; reflexivity |]. intros message [=].
  - split; [discriminate |]. intros message [=].
Qed.

Lemma fetches_app (a b : list event) : fetches (a ++ b) = fetches a + fetches b.
Proof. unfold fetches. now rewrite List.filter_app, length_app. Qed.

Lemma countdowns_app (a b : list event) :
  countdowns (a ++ b) = countdowns a + countdowns b.
Proof. unfold countdowns. now rewrite List.filter_app, length_app. Qed.

(** A call leaves the events of one call, and the counter of the
    session grows by its requests. *)
Lemma call_events_of (E : engine) (net : network) (texts : list string)
    (w : world) :
  exists reply w1 call,
    callGeminiBatch E net texts w = Some (reply, w1)
    /\ one_call texts call
    /\ trace w1 = trace w ++ call
    /\ requests w1 = requests w + fetches call
    /\ translationCache w1 = translationCache w.
Proof.
  destruct (call_shape E net texts w)
    as (k & reply & call & Hcall & Hevents & _).
  eexists reply, _, call. split; [exact Hcall |].
  split; [eapply list_elem_of_lookup_2; exact Hevents |].
  cbn [trace requests translationCache].
  split; [reflexivity |]. split; [| reflexivity].
  destruct k as [| [| [| k]]]; cbn in Hevents; try discriminate;
    injection Hevents as <-; cbn; lia.
Qed.

Lemma one_call_fetch (texts : list string) (call : list event) :
  one_call texts call ->
  Fetch texts ∈ call /\ forall other, Fetch other ∈ call -> other = texts.
Proof.
  unfold one_call, call_events. intros Hin.
  apply list_elem_of_In in Hin.
  destruct Hin as [<- | [<- | [<- | []]]];
    (split; [left |]); intros other Hother; apply list_elem_of_In in Hother;
    cbn in Hother; intuition congruence.
Qed.

Section Trace.

Variable E : engine.
Variable net : network.
Variable model : string.

(** The loop calls the client once for each batch, in order. *)
Lemma loop_calls (totalBatches : nat) (batches : list (list string)) (i : nat)
    (st : progress * world) :
  exists st' calls,
    process_batches E net model totalBatches i batches st = Some st'
    /\ Forall2 one_call batches calls
    /\ trace st'.2 = trace st.2 ++ loop_events model totalBatches i calls
    /\ requests st'.2 =
       requests st.2 + fetches (loop_events model totalBatches i calls).
Proof.
  revert i st. induction batches as [| batch rest IH]; intros i st.
  { exists st, []. split; [reflexivity |]. split; [constructor |].
    cbn [loop_events]. rewrite app_nil_r. split; [reflexivity |].
    change (fetches []) with 0. lia. }
  cbn [process_batches]. unfold batch_turn.
  destruct (call_events_of E net batch st.2)
    as (reply & w1 & call & Hcall & Hone & Htrace1 & Hrequests1 & _).
  rewrite Hcall. cbn [mbind option_bind].
  destruct (settle_batch 0 batch reply (st.1, translationCache w1))
    as [p2 cache2].
  set (pause := String.eqb model STANDARD_MODEL && (1 <? totalBatches)
                && (i <? totalBatches - 1)).
  destruct (IH (S i)
              (p2, if pause
                   then emit (Countdown SAFE_MODE_DELAY)
                          (World (requests w1) (trace w1) cache2)
                   else World (requests w1) (trace w1) cache2))
    as (st' & calls & Hloop & Hcalls & Htrace & Hrequests).
  exists st', (call :: calls). cbn [mbind option_bind]. rewrite Hloop.
  split; [reflexivity |]. split; [now constructor |].
  cbn [loop_events snd] in *. fold pause.
  split.
  - rewrite Htrace. destruct pause; cbn [emit trace requests translationCache];
      rewrite Htrace1, <- ?app_assoc; reflexivity.
  - rewrite Hrequests, !fetches_app.
    destruct pause; cbn [emit requests]; rewrite Hrequests1;
      change (fetches [Countdown SAFE_MODE_DELAY]) with 0;
      change (fetches []) with 0; lia.
Qed.

(** The trace of a run: the notice of the cache hits, and then the
    loop with one call of the client for each batch. *)
Lemma run_calls (grid : list (list cell)) (w : world) :
  exists out w' calls,
    translateRange E net model grid w = Some (out, w')
    /\ Forall2 one_call (run_batches grid w) calls
    /\ trace w' =
       trace w ++ run_notice grid w
       ++ loop_events model (length (run_batches grid w)) 0 calls
    /\ requests w' =
       requests w
       + fetches (run_notice grid w
                  ++ loop_events model (length (run_batches grid w)) 0 calls).
Proof.
  destruct (cellsToTranslate (extract grid)) as [| c0 cells] eqn:Hcells.
  { assert (map_keys (uniqueTexts (extract grid)) = []) as Hkeys.
    { destruct (map_keys (uniqueTexts (extract grid))) as [| t keys] eqn:Hkeys;
        [reflexivity |].
      exfalso. destruct (unique_keys grid) as [_ Hin].
      destruct (proj1 (Hin t)) as (c & Hc & _); [rewrite Hkeys; left |].
      rewrite Hcells in Hc. inversion Hc. }
    assert (run_batches grid w = []) as Hbatches.
    { unfold run_batches, run_lookup.
      destruct (cache_lookup_spec (translationCache w) (uniqueTexts (extract grid)))
        as [-> _].
      now rewrite Hkeys. }
    exists (Outcome 0 VNull None), w, [].
    split; [now apply translateRange_nothing |].
    rewrite Hbatches. split; [constructor |].
    assert (run_notice grid w = []) as ->
      by (unfold run_notice; now rewrite Hkeys).
    cbn [loop_events app]. rewrite app_nil_r.
    split; [reflexivity | change (fetches []) with 0; lia]. }
  destruct (loop_calls (length (run_batches grid w)) (run_batches grid w) 0
              (run_start grid w))
    as ([p w'] & calls & Hloop & Hcalls & Htrace & Hrequests).
  destruct (reconcile_extracted grid (texts_map p)) as (written & Hrec & _).
  exists (Outcome (totalErrors p) (firstErrorMessage p) (Some written)), w', calls.
  cbn [snd] in Htrace, Hrequests.
  assert (trace (run_start grid w).2 = trace w ++ run_notice grid w
          /\ requests (run_start grid w).2 = requests w) as [Htrace0 Hrequests0].
  { unfold run_start, run_notice, run_lookup. cbn [snd].
    destruct (0 <? _); cbn [emit trace requests];
      [| rewrite app_nil_r]; split; reflexivity. }
  split; [| split; [exact Hcalls | split]].
  - unfold translateRange. rewrite Hcells. cbn [length Nat.eqb].
    rewrite <- Hcells.
    fold (run_lookup grid w). fold (run_start grid w).
    assert ((if 0 <? length (textsToFetchFromApi (run_lookup grid w))
             then process_batches E net model
                    (length (smart_batching (textsToFetchFromApi (run_lookup grid w))))
                    0 (smart_batching (textsToFetchFromApi (run_lookup grid w)))
                    (run_start grid w)
             else Some (run_start grid w)) = Some (p, w')) as ->.
    { fold (run_batches grid w).
      destruct (0 <? length (textsToFetchFromApi (run_lookup grid w))) eqn:Hsome;
        [exact Hloop |].
      apply Nat.ltb_ge in Hsome.
      assert (textsToFetchFromApi (run_lookup grid w) = []) as Hnil
        by (apply length_zero_iff_nil; lia).
      unfold run_batches in Hloop. rewrite Hnil in Hloop.
      change (smart_batching []) with (@nil (list string)) in Hloop.
      exact Hloop. }
    cbn [mbind option_bind]. rewrite Hrec. reflexivity.
  - now rewrite Htrace, Htrace0, app_assoc.
  - rewrite Hrequests, Hrequests0, fetches_app.
    unfold run_notice. destruct (0 <? _);
      [change (fetches [Sleep 500]) with 0 | change (fetches []) with 0]; lia.
Qed.

End Trace.

(** Every batch of the loop is requested. *)
Lemma loop_events_fetch (model : string) (totalBatches : nat)
    (batches : list (list string)) (calls : list (list event)) (i : nat)
    (batch : list string) :
  Forall2 one_call batches calls ->
  batch ∈ batches ->
  Fetch batch ∈ loop_events model totalBatches i calls.
Proof.
  intros Hcalls. revert i.
  induction Hcalls as [| first call rest calls Hone _ IH]; intros i Hin;
    [inversion Hin |].
  cbn [loop_events]. apply elem_of_cons in Hin as [-> | Hin].
  - apply elem_of_app. left. now apply one_call_fetch.
  - apply elem_of_app. right. apply elem_of_app. right. now apply IH.
Qed.


(** The loop requests nothing but its batches. *)
Lemma loop_events_only (model : string) (totalBatches : nat)
    (batches : list (list string)) (calls : list (list event)) (i : nat)
    (texts : list string) :
  Forall2 one_call batches calls ->
  Fetch texts ∈ loop_events model totalBatches i calls ->
  texts ∈ batches.
Proof.
  intros Hcalls. revert i.
  induction Hcalls as [| first call rest calls Hone _ IH]; intros i Hin;
    [inversion Hin |].
  cbn [loop_events] in Hin. apply elem_of_app in Hin as [Hin | Hin].
  - apply one_call_fetch in Hone as [_ Honly]. rewrite (Honly texts Hin). left.
  - apply elem_of_app in Hin as [Hin | Hin].
    + destruct (_ && _); [| inversion Hin].
      apply list_elem_of_singleton in Hin. discriminate.
    + right. now apply (IH (S i)).
Qed.

(** It makes one request per batch at least. *)
Lemma loop_events_count (model : string) (totalBatches : nat)
    (batches : list (list string)) (calls : list (list event)) (i : nat) :
  Forall2 one_call batches calls ->
  length batches <= fetches (loop_events model totalBatches i calls).
Proof.
  intros Hcalls. revert i.
  induction Hcalls as [| first call rest calls Hone _ IH]; intros i;
    [cbn; lia |].
  cbn [loop_events length]. rewrite !fetches_app.
  specialize (IH (S i)).
  assert (1 <= fetches call).
  { unfold one_call, call_events in Hone. apply list_elem_of_In in Hone.
    destruct Hone as [<- | [<- | [<- | []]]]; cbn; lia. }
  lia.
Qed.
(** ** Truncation *)

Lemma long_text_nonempty (n : N) : (0 < n)%N -> long_text n <> EmptyString.
Proof.
  intros Hpos. unfold long_text.
  destruct (N.to_nat n) as [| m] eqn:Hn; [lia | discriminate].
Qed.

(** A text of 32768 characters is cut to its first 32767. *)
Example text_to_write_long :
  text_to_write (VStr (long_text 32768)) = VStr (long_text 32767).
Proof. vm_cast_no_check (eq_refl (VStr (long_text 32767))). Qed.

Example text_to_write_short :
  text_to_write (VStr "Bonjour") = VStr "Bonjour".
Proof. vm_cast_no_check (eq_refl (VStr "Bonjour")). Qed.

(** C6. A translated string written into the grid is cut to its first
    32767 characters when it is longer than that, and written as it is
    otherwise. *)
Theorem C6_truncation (grid : list (list cell)) (texts : ordered_map)
    (c : translatable) (s : string) :
  c ∈ cellsToTranslate (extract grid) ->
  map_get texts (text c) = Some (VStr s) ->
  s <> EmptyString ->
  exists written,
    reconcile grid (cellsToTranslate (extract grid)) texts = Some written
    /\ cell_at written (row c) (col c) =
       Some (VStr (if EXCEL_CELL_CHAR_LIMIT <? String.length s
                   then String.substring 0 EXCEL_CELL_CHAR_LIMIT s
                   else s))
    /\ (EXCEL_CELL_CHAR_LIMIT < String.length s ->
        String.length (String.substring 0 EXCEL_CELL_CHAR_LIMIT s)
        = EXCEL_CELL_CHAR_LIMIT).
Proof.
  intros Hc Hget Hs.
  destruct (reconcile_extracted grid texts) as (written & Hrec & _ & Hin & _).
  exists written. split; [exact Hrec |]. split.
  - rewrite (Hin c Hc), Hget. cbn [default id truthy text_to_write].
    apply String.eqb_neq in Hs. rewrite Hs. cbn [negb].
    now destruct (EXCEL_CELL_CHAR_LIMIT <? String.length s).
  - intros Hlong. rewrite length_substring0. lia.
Qed.

Lemma C6_truncation_witness :
  exists written,
    reconcile [[CStr "Hello"]] (cellsToTranslate (extract [[CStr "Hello"]]))
              [("Hello", VStr (long_text 32768))] = Some written
    /\ cell_at written 0 0 =
       Some (VStr (if EXCEL_CELL_CHAR_LIMIT <? String.length (long_text 32768)
                   then String.substring 0 EXCEL_CELL_CHAR_LIMIT (long_text 32768)
                   else long_text 32768))
    /\ (EXCEL_CELL_CHAR_LIMIT < String.length (long_text 32768) ->
        String.length (String.substring 0 EXCEL_CELL_CHAR_LIMIT (long_text 32768))
        = EXCEL_CELL_CHAR_LIMIT).
Proof.
  apply (C6_truncation [[CStr "Hello"]] [("Hello", VStr (long_text 32768))]
           (Translatable 0 0 "Hello") (long_text 32768)).
  - left.
  - reflexivity.
  - apply long_text_nonempty. reflexivity.
Defined.

(** ** Falsy items of a reply *)

(** C10. When the reply to a batch holds a falsy value ([null], the
    empty string, or nothing at all) for an item, the item is not taken
    for an error: its source text is recorded as its own translation in
    the unique texts and in the cache, the error count does not move,
    and the cells that hold the text are written with it. *)
Theorem C10_falsy_item_keeps_source (E : engine) (net : network) (model : string)
    (grid : list (list cell)) (w : world) (rs : list (list value))
    (i j : nat) (batch : list string) (reply : list value) (t : string) :
  run_replies E net model grid w = Some rs ->
  run_batches grid w !! i = Some batch ->
  rs !! i = Some reply ->
  batch !! j = Some t ->
  truthy (nth j reply VUndefined) = false ->
  is_error (nth j reply VUndefined) = false
  /\ (forall p cache,
        settle_item t (nth j reply VUndefined) (p, cache) =
        (Progress (map_set (texts_map p) t (VStr t))
                  (totalErrors p) (firstErrorMessage p),
         <[t := VStr t]> cache))
  /\ exists out w' written,
       translateRange E net model grid w = Some (out, w')
       /\ newValues out = Some written
       /\ errors out = count_errors (settled (run_batches grid w) rs)
       /\ translationCache w' !! t = Some (VStr t)
       /\ forall c, c ∈ cellsToTranslate (extract grid) -> text c = t ->
            cell_at written (row c) (col c) = Some (text_to_write (VStr t))
            /\ (String.length t <= EXCEL_CELL_CHAR_LIMIT ->
                cell_at written (row c) (col c) = Some (VStr t)).
Proof.
  intros Hreplies Hbatch Hreply Ht Hfalsy.
  assert (is_error (nth j reply VUndefined) = false) as Hok.
  { destruct (is_error (nth j reply VUndefined)) eqn:Herr; [| reflexivity].
    apply is_error_truthy in Herr. congruence. }
  assert (js_or (nth j reply VUndefined) (VStr t) = VStr t) as Hor
    by (unfold js_or; now rewrite Hfalsy).
  split; [exact Hok |]. split.
  { intros p cache. rewrite settle_item_spec, Hok, Hor. reflexivity. }
  destruct (run_facts E net model grid w)
    as (p & out & w' & rs' & Hrun & Hreplies' & Hlen & Hstate & _ & Herrors & Hwritten).
  rewrite Hreplies in Hreplies'. injection Hreplies' as <-.
  destruct (sent_item_facts grid w rs p _ i j batch reply t Hlen Hstate Hbatch Hreply Ht)
    as (_ & (c0 & Hc0 & Htext0) & Hitem).
  rewrite Hok, Hor in Hitem. destruct Hitem as [Hmap Hcache].
  destruct (reconcile_extracted grid (texts_map p)) as (written & Hrec & _ & Hcells & _).
  destruct (cellsToTranslate (extract grid)) as [| c1 cells] eqn:Hextract;
    [inversion Hc0 |].
  rewrite Hrec in Hwritten.
  exists out, w', written. split; [exact Hrun |]. split; [exact Hwritten |].
  split; [rewrite Herrors; eapply run_totals; eassumption |].
  split; [exact Hcache |].
  intros c Hc Htext. rewrite (Hcells c Hc), Htext, Hmap. cbn [default id truthy].
  assert (t <> EmptyString) as Hne.
  { intros ->. rewrite <- Hextract in Hc.
    apply extracted_cells in Hc as [_ Htrim]. rewrite Htext in Htrim.
    now apply Htrim. }
  apply String.eqb_neq in Hne. rewrite Hne. cbn [negb].
  split; [reflexivity |]. intros Hshort. cbn [text_to_write].
  apply Nat.ltb_ge in Hshort. now rewrite Hshort.
Qed.

(** A reply [[null]] to the only text of a grid. *)
Lemma C10_falsy_item_witness :
  is_error (nth 0 [VNull] VUndefined) = false
  /\ (forall p cache,
        settle_item "Hello" (nth 0 [VNull] VUndefined) (p, cache) =
        (Progress (map_set (texts_map p) "Hello" (VStr "Hello"))
                  (totalErrors p) (firstErrorMessage p),
         <["Hello" := VStr "Hello"]> cache))
  /\ exists out w' written,
       translateRange reference_engine (fun _ => reply_with "[null]") STANDARD_MODEL
         [[CStr "Hello"; CNum 5]] (World 0 [] ∅) = Some (out, w')
       /\ newValues out = Some written
       /\ errors out =
          count_errors (settled (run_batches [[CStr "Hello"; CNum 5]] (World 0 [] ∅))
                                [[VNull]])
       /\ translationCache w' !! "Hello" = Some (VStr "Hello")
       /\ forall c,
            c ∈ cellsToTranslate (extract [[CStr "Hello"; CNum 5]]) ->
            text c = "Hello" ->
            cell_at written (row c) (col c) = Some (text_to_write (VStr "Hello"))
            /\ (String.length "Hello" <= EXCEL_CELL_CHAR_LIMIT ->
                cell_at written (row c) (col c) = Some (VStr "Hello")).
Proof.
  apply (C10_falsy_item_keeps_source reference_engine
           (fun _ => reply_with "[null]") STANDARD_MODEL
           [[CStr "Hello"; CNum 5]] (World 0 [] ∅) [[VNull]] 0 0 ["Hello"] [VNull]
           "Hello"); reflexivity.
Defined.

(** ** The session cache *)



(** ** Failures that the test of line 311 misses *)

(** C1, on an input where the code departs from it. On a transport
    failure the client gives back [Network Error: ...] for the item; the
    run writes that string into the cell and into the cache, and counts
    no error, where C1 has the cell keep its value and the failure
    counted. *)
Lemma C1_network_error_reaches_the_cell :
  translateRange reference_engine (fun _ => Rejected "Failed to fetch")
    STANDARD_MODEL [[CStr "Hello"; CNum 5]] (World 0 [] ∅) =
  Some (Outcome 0 VNull
          (Some [[VStr "Network Error: Failed to fetch"; VNum 5]]),
        World 1 [Fetch ["Hello"]]
              {["Hello" := VStr "Network Error: Failed to fetch"]}).
Proof. vm_compute. reflexivity. Qed.

(** C2, on an input where the code departs from it. A reply of one
    element to a batch of two texts: the strict parse refuses it for its
    length, and the [catch] branch then extracts and returns the same
    array, where C2 has every parsed reply hold one entry per text. *)
Lemma C2_fallback_returns_a_short_array :
  callGeminiBatch reference_engine
    (fun _ => reply_with ("[" +:+ quoted "x" +:+ "]"))
    ["a"; "b"] (World 0 [] ∅) =
  Some ([VStr "x"], World 1 [Fetch ["a"; "b"]] ∅)
  /\ length [VStr "x"] <> length ["a"; "b"].
Proof. split; [vm_compute; reflexivity | discriminate]. Qed.

(** ** Further properties *)

(** X3. The test of line 311 on the six kinds of failure strings that
    the client produces: it recognises all but the transport failure. *)
Theorem line_311_on_the_failure_strings :
  is_error (VStr rate_limit_message) = true
  /\ is_error (VStr "API Error: Request size is too large.") = true
  /\ (forall status message,
        is_error (VStr ("API Error: " +:+ decimal status +:+ " - " +:+ message)) = true)
  /\ (forall reason, is_error (VStr ("Blocked: " +:+ reason)) = true)
  /\ is_error (VStr invalid_format_message) = true
  /\ (forall message, is_error (VStr ("Network Error: " +:+ message)) = false).
Proof. repeat split; reflexivity. Qed.

Lemma count_errors_positive (items : list (string * value)) t r :
  (t, r) ∈ items -> is_error r = true -> 0 < count_errors items.
Proof.
  intros Hin Herr. unfold count_errors.
  assert ((t, r) ∈ filter (fun item => is_error item.2 = true) items) as Hfiltered
    by (apply list_elem_of_filter; auto).
  destruct (filter _ items); [inversion Hfiltered | simpl; lia].
Qed.

(** X1. An item whose result line 311 takes for an error: the error is
    counted, nothing is cached for the text, and the cells that hold the
    text keep it. *)
Theorem recognised_error_keeps_cell (E : engine) (net : network) (model : string)
    (grid : list (list cell)) (w : world) (rs : list (list value))
    (i j : nat) (batch : list string) (reply : list value) (t : string) :
  run_replies E net model grid w = Some rs ->
  run_batches grid w !! i = Some batch ->
  rs !! i = Some reply ->
  batch !! j = Some t ->
  is_error (nth j reply VUndefined) = true ->
  exists out w' written,
    translateRange E net model grid w = Some (out, w')
    /\ newValues out = Some written
    /\ errors out = count_errors (settled (run_batches grid w) rs)
    /\ 0 < errors out
    /\ translationCache w' !! t = None
    /\ forall c, c ∈ cellsToTranslate (extract grid) -> text c = t ->
         cell_at written (row c) (col c) = Some (VStr t).
Proof.
  intros Hreplies Hbatch Hreply Ht Herr.
  destruct (run_facts E net model grid w)
    as (p & out & w' & rs' & Hrun & Hreplies' & Hlen & Hstate & _ & Herrors & Hwritten).
  rewrite Hreplies in Hreplies'. injection Hreplies' as <-.
  destruct (sent_item_facts grid w rs p _ i j batch reply t Hlen Hstate Hbatch Hreply Ht)
    as (_ & (c0 & Hc0 & Htext0) & Hitem).
  rewrite Herr in Hitem. destruct Hitem as [Hmap Hcache].
  destruct (reconcile_extracted grid (texts_map p)) as (written & Hrec & _ & Hcells & _).
  destruct (cellsToTranslate (extract grid)) as [| c1 cells] eqn:Hextract;
    [inversion Hc0 |].
  rewrite Hrec in Hwritten.
  destruct (run_totals grid w rs p _ Hlen Hstate) as [Hcount _].
  exists out, w', written. split; [exact Hrun |]. split; [exact Hwritten |].
  split; [now rewrite Herrors |].
  split.
  { rewrite Herrors, Hcount. eapply count_errors_positive; [| exact Herr].
    eapply settled_item; eauto. }
  split; [exact Hcache |].
  intros c Hc Htext. rewrite (Hcells c Hc), Htext, Hmap. reflexivity.
Qed.

(** Scenario 4 of the specification: a response without candidates. *)
Lemma recognised_error_witness :
  exists out w' written,
    translateRange reference_engine (fun _ => empty_body 200) PRO_MODEL
      [[CStr "Hello"; CNum 5]] (World 0 [] ∅) = Some (out, w')
    /\ newValues out = Some written
    /\ errors out =
       count_errors (settled (run_batches [[CStr "Hello"; CNum 5]] (World 0 [] ∅))
                             [[VStr "Blocked: Safety Filter"]])
    /\ 0 < errors out
    /\ translationCache w' !! "Hello" = None
    /\ forall c, c ∈ cellsToTranslate (extract [[CStr "Hello"; CNum 5]]) ->
         text c = "Hello" ->
         cell_at written (row c) (col c) = Some (VStr "Hello").
Proof.
  apply (recognised_error_keeps_cell reference_engine (fun _ => empty_body 200)
           PRO_MODEL [[CStr "Hello"; CNum 5]] (World 0 [] ∅)
           [[VStr "Blocked: Safety Filter"]] 0 0 ["Hello"]
           [VStr "Blocked: Safety Filter"] "Hello"); reflexivity.
Defined.

(** X2. A reply that passes the tests of lines 575-576 has one entry
    per text of the batch, and the client returns it as it is. *)
Theorem strict_parse_keeps_length (E : engine) (texts : list string)
    (responseText : string) (result : list value) :
  JSON_parse E responseText ≫= accept_parsed texts = Some result ->
  parse_reply E texts responseText = result
  /\ length result = length texts.
Proof.
  intros Hstrict. unfold parse_reply. rewrite Hstrict. split; [reflexivity |].
  destruct (JSON_parse E responseText) as [parsed |]; [| discriminate].
  simpl in Hstrict. unfold accept_parsed in Hstrict.
  destruct parsed as [| | b | n | s | items | fields]; try discriminate.
  - destruct (length texts =? 1) eqn:Hone; [| discriminate].
    injection Hstrict as <-. apply Nat.eqb_eq in Hone. now rewrite Hone.
  - destruct (length items =? length texts) eqn:Hlen; [| discriminate].
    injection Hstrict as <-. now apply Nat.eqb_eq.
Qed.

Lemma strict_parse_witness :
  parse_reply reference_engine ["a"; "b"]
    ("[" +:+ quoted "x" +:+ "," +:+ quoted "y" +:+ "]") = [VStr "x"; VStr "y"]
  /\ length [VStr "x"; VStr "y"] = length ["a"; "b"].
Proof.
  apply (strict_parse_keeps_length reference_engine ["a"; "b"]
           ("[" +:+ quoted "x" +:+ "," +:+ quoted "y" +:+ "]")
           [VStr "x"; VStr "y"]).
  reflexivity.
Defined.

(** X4. The client returns on every network, touches nothing but the
    request counter and the trace, and every failure comes back as data
    in its result. *)
Theorem client_always_returns (E : engine) (net : network)
    (texts : list string) (w : world) :
  exists translated w',
    callGeminiBatch E net texts w = Some (translated, w')
    /\ translationCache w' = translationCache w
    /\ exists events, trace w' = trace w ++ events
         /\ Forall (fun e => e = Fetch texts \/ exists ms, e = Sleep ms) events.
Proof.
  destruct (callGeminiBatch_total E net texts w) as (translated & w' & Hcall).
  exists translated, w'. split; [exact Hcall |].
  now apply retry_loop_world in Hcall.
Qed.

(** X5. After [clearCache], which the change of the target language
    triggers, the cache is empty and the next run sends every unique
    text of the grid again: the run returns, each of these texts is in
    a batch that the trace of the run shows requested, and every
    request of the run is for a batch of these texts. *)
Theorem cleared_cache_sends_every_text (E : engine) (net : network)
    (model : string) (grid : list (list cell)) (w : world) :
  translationCache (clearCache w) = ∅
  /\ concat (run_batches grid (clearCache w)) =
     map_keys (uniqueTexts (extract grid))
  /\ exists out w' events,
       translateRange E net model grid (clearCache w) = Some (out, w')
       /\ trace w' = trace w ++ events
       /\ (forall t, t ∈ map_keys (uniqueTexts (extract grid)) ->
             exists batch, t ∈ batch /\ Fetch batch ∈ events)
       /\ (forall batch, Fetch batch ∈ events ->
             batch ∈ run_batches grid (clearCache w)
             /\ forall t, t ∈ batch ->
                  t ∈ map_keys (uniqueTexts (extract grid)))
       /\ length (run_batches grid (clearCache w)) <= fetches events.
Proof.
  split; [reflexivity |].
  assert (concat (run_batches grid (clearCache w)) =
          map_keys (uniqueTexts (extract grid))) as Hall.
  { destruct (run_texts grid (clearCache w)) as (-> & _ & _).
    apply filter_all_in. intros t _. apply lookup_empty. }
  split; [exact Hall |].
  destruct (run_calls E net model grid (clearCache w))
    as (out & w' & calls & Hrun & Hcalls & Htrace & _).
  eexists out, w', _. split; [exact Hrun |]. split; [exact Htrace |].
  split; [| split].
  - intros t Hkey. rewrite <- Hall in Hkey.
    apply list_elem_of_In, in_concat in Hkey as (batch & Hbatch & Ht).
    exists batch. split; [now apply list_elem_of_In |].
    apply elem_of_app. right.
    apply (loop_events_fetch _ _ (run_batches grid (clearCache w)));
      [exact Hcalls | now apply list_elem_of_In].
  - intros batch Hfetch.
    assert (batch ∈ run_batches grid (clearCache w)) as Hbatch.
    { apply elem_of_app in Hfetch as [Hnotice | Hloop].
      - unfold run_notice in Hnotice. destruct (0 <? _).
        + apply list_elem_of_singleton in Hnotice. discriminate.
        + inversion Hnotice.
      - eapply loop_events_only; eassumption. }
    split; [exact Hbatch |]. intros t Ht. rewrite <- Hall.
    apply list_elem_of_In, in_concat. exists batch.
    split; now apply list_elem_of_In.
  - rewrite fetches_app.
    pose proof (loop_events_count model (length (run_batches grid (clearCache w)))
                  (run_batches grid (clearCache w)) calls 0 Hcalls).
    lia.
Qed.

(** ** More on a run of [translateRange] *)

Section RunMore.

Variable E : engine.
Variable net : network.
Variable model : string.

Lemma count_errors_bound (items : list (string * value)) :
  count_errors items <= length items.
Proof. unfold count_errors. apply length_filter. Qed.

Lemma count_errors_zero (items : list (string * value)) :
  count_errors items = 0 <->
  forall t r, (t, r) ∈ items -> is_error r = false.
Proof.
  unfold count_errors. split.
  - intros Hzero t r Hin. destruct (is_error r) eqn:Herr; [| reflexivity].
    assert ((t, r) ∈ filter (fun item => is_error item.2 = true) items) as Hf
      by (apply list_elem_of_filter; auto).
    apply length_zero_iff_nil in Hzero. rewrite Hzero in Hf. inversion Hf.
  - intros Hall. apply length_zero_iff_nil.
    induction items as [| [t r] items IH]; [reflexivity |].
    rewrite filter_cons_False.
    + apply IH. intros t' r' Hin. apply (Hall t' r'). now right.
    + simpl. rewrite (Hall t r) by left. discriminate.
Qed.

(** The first error message is the one of the first item taken for an
    error, once one is recorded it stays. *)
Lemma settle_fold_first items (p : progress) (cache : gmap string value) :
  firstErrorMessage (fold_left settle items (p, cache)).1 =
  if truthy (firstErrorMessage p) then firstErrorMessage p
  else match filter (fun item => is_error item.2 = true) items with
       | item :: _ => item.2
       | [] => firstErrorMessage p
       end.
Proof.
  revert p cache. induction items as [| [t r] items IH]; intros p cache.
  - simpl. now destruct (truthy (firstErrorMessage p)).
  - cbn [fold_left].
    change (settle (p, cache) (t, r)) with (settle_item t r (p, cache)).
    rewrite settle_item_spec. destruct (is_error r) eqn:Herr.
    + rewrite IH. cbn [firstErrorMessage].
      rewrite filter_cons_True by exact Herr.
      destruct (truthy (firstErrorMessage p)) eqn:Hfirst.
      * now rewrite Hfirst.
      * now rewrite (is_error_truthy r Herr).
    + rewrite IH. cbn [firstErrorMessage].
      rewrite filter_cons_False by (simpl; congruence). reflexivity.
Qed.

(** A run, with the object it returns spelled out. *)
Lemma run_outcome (grid : list (list cell)) (w : world) :
  exists p w' rs,
    translateRange E net model grid w =
    Some (Outcome (totalErrors p) (firstErrorMessage p)
            (match cellsToTranslate (extract grid) with
             | [] => None
             | _ => reconcile grid (cellsToTranslate (extract grid)) (texts_map p)
             end), w')
    /\ run_replies E net model grid w = Some rs
    /\ length rs = length (run_batches grid w)
    /\ (p, translationCache w') =
       fold_left settle (settled (run_batches grid w) rs)
         (Progress (resolved (run_lookup grid w)) 0 VNull, translationCache w)
    /\ exists events, trace w' = trace w ++ events
         /\ Forall (loop_event (run_batches grid w)) events.
Proof.
  destruct (cellsToTranslate (extract grid)) as [| c0 cells] eqn:Hcells.
  - destruct (run_facts E net model grid w)
      as (p & out & w' & rs & Hrun & Hreplies & Hlen & Hstate & Hevents & _).
    rewrite (translateRange_nothing E net model grid w Hcells) in Hrun.
    injection Hrun as <- <-.
    assert (run_batches grid w = []) as Hbatches.
    { destruct (run_texts grid w) as (_ & _ & Hsent).
      destruct (run_batches grid w) as [| batch rest] eqn:Hb; [reflexivity |].
      destruct rs as [| reply later]; [discriminate |].
      destruct batch as [| t batch].
      - pose proof (smart_batching_concat
                      (textsToFetchFromApi (run_lookup grid w))) as Hconcat.
        fold (run_batches grid w) in Hconcat. rewrite Hb in Hconcat.
        destruct (textsToFetchFromApi (run_lookup grid w)) eqn:Hfetch.
        + unfold run_batches in Hb. rewrite Hfetch in Hb. discriminate.
        + exfalso. destruct (proj1 (Hsent s)) as [(c & Hc & _) _].
          { rewrite Hconcat. left. }
          rewrite Hcells in Hc. inversion Hc.
      - exfalso. destruct (proj1 (Hsent t)) as [(c & Hc & _) _]; [left |].
        rewrite Hcells in Hc. inversion Hc. }
    rewrite Hbatches in *. destruct rs; [| discriminate].
    cbn [settled zip_with concat fold_left] in Hstate. injection Hstate as ->.
    exists (Progress (resolved (run_lookup grid w)) 0 VNull), w, [].
    cbn [totalErrors firstErrorMessage settled zip_with concat fold_left].
    split; [now apply translateRange_nothing |]. auto 10.
  - destruct (translateRange_spec E net model grid w)
      as (p & w' & rs & written & Hreplies & Hlen & Hstate & Hevents & Hrec & Hrun).
    { rewrite Hcells. discriminate. }
    exists p, w', rs. rewrite Hcells in Hrec. rewrite Hrec. auto 10.
Qed.

End RunMore.

Lemma reconcile_cells_ext texts1 texts2 (cells : list translatable)
    (g : list (list value)) :
  (forall c, c ∈ cells -> map_get texts1 (text c) = map_get texts2 (text c)) ->
  reconcile_cells texts1 cells g = reconcile_cells texts2 cells g.
Proof.
  revert g. induction cells as [| c rest IH]; intros g Hsame; [reflexivity |].
  cbn [reconcile_cells].
  assert (reconcile_cell texts1 g c = reconcile_cell texts2 g c) as ->
    by (unfold reconcile_cell; now rewrite (Hsame c) by left).
  destruct (reconcile_cell texts2 g c); simpl; [| reflexivity].
  apply IH. intros c' Hc'. apply Hsame. now right.
Qed.

Lemma elem_of_concat_lookup {A : Type} (ls : list (list A)) (x : A) :
  x ∈ concat ls -> exists i j l, ls !! i = Some l /\ l !! j = Some x.
Proof.
  intros Hin. apply list_elem_of_In, in_concat in Hin as (l & Hl & Hx).
  apply list_elem_of_In, list_elem_of_lookup in Hl as [i Hi].
  apply list_elem_of_In, list_elem_of_lookup in Hx as [j Hj].
  eauto.
Qed.

(** After a run without errors the cache holds every unique text of the
    grid, under the value the run has resolved it to. *)
Lemma clean_run_caches_all (E : engine) (net : network) (model : string)
    (grid : list (list cell)) (w w' : world) (p : progress)
    (rs : list (list value)) :
  length rs = length (run_batches grid w) ->
  (p, translationCache w') =
  fold_left settle (settled (run_batches grid w) rs)
    (Progress (resolved (run_lookup grid w)) 0 VNull, translationCache w) ->
  totalErrors p = 0 ->
  forall t, t ∈ map_keys (uniqueTexts (extract grid)) ->
    exists v, translationCache w' !! t = Some v
              /\ map_get (texts_map p) t = Some v.
Proof.
  intros Hlen Hstate Hclean t Hkey.
  destruct (run_totals grid w rs p _ Hlen Hstate) as [Hcount Hunsent].
  rewrite Hclean in Hcount. symmetry in Hcount.
  destruct (translationCache w !! t) as [cached |] eqn:Hhit.
  - exists cached. destruct (Hunsent t) as [-> ->].
    { intros Hin. apply (run_texts grid w) in Hin as [_ Hmiss]. congruence. }
    split; [exact Hhit |]. unfold run_lookup.
    destruct (cache_lookup_spec (translationCache w) (uniqueTexts (extract grid)))
      as [_ ->].
    now rewrite Hhit, decide_True.
  - assert (t ∈ concat (run_batches grid w)) as Hsent.
    { apply (run_texts grid w). split; [| exact Hhit].
      now apply (unique_keys grid). }
    apply elem_of_concat_lookup in Hsent as (i & j & batch & Hbatch & Ht).
    destruct (rs !! i) as [reply |] eqn:Hreply.
    2: { apply lookup_ge_None in Hreply. apply lookup_lt_Some in Hbatch. lia. }
    destruct (sent_item_facts grid w rs p _ i j batch reply t Hlen Hstate
                Hbatch Hreply Ht) as (_ & _ & Hitem).
    rewrite (proj1 (count_errors_zero _) Hcount t (nth j reply VUndefined)) in Hitem
      by (eapply settled_item; eauto).
    destruct Hitem as [Hmap Hcache]. eauto.
Qed.

(** X6. The object a run returns: [totalErrors] is the number of items
    whose result is taken for an error, which is at most the number of
    unique texts sent, however many cells hold them; [firstErrorMessage]
    is the result of the first such item in batch order, and it is [null]
    exactly when there is no error. *)
Theorem error_report (E : engine) (net : network) (model : string)
    (grid : list (list cell)) (w : world) :
  exists out w' rs,
    translateRange E net model grid w = Some (out, w')
    /\ run_replies E net model grid w = Some rs
    /\ errors out = count_errors (settled (run_batches grid w) rs)
    /\ first_error out = first_error_of (settled (run_batches grid w) rs)
    /\ (errors out = 0 <-> first_error out = VNull)
    /\ errors out <= length (concat (run_batches grid w))
    /\ length (concat (run_batches grid w))
       <= length (map_keys (uniqueTexts (extract grid))).
Proof.
  destruct (run_outcome E net model grid w)
    as (p & w' & rs & Hrun & Hreplies & Hlen & Hstate & _).
  destruct (run_totals grid w rs p _ Hlen Hstate) as [Hcount _].
  pose proof (settle_fold_first (settled (run_batches grid w) rs)
                (Progress (resolved (run_lookup grid w)) 0 VNull)
                (translationCache w)) as Hfirst.
  rewrite <- Hstate in Hfirst. cbn [fst firstErrorMessage truthy] in Hfirst.
  eexists _, w', rs. split; [exact Hrun |]. split; [exact Hreplies |].
  cbn [errors first_error]. rewrite Hcount.
  split; [reflexivity |]. split; [exact Hfirst |].
  split; [| split].
  - rewrite Hfirst. unfold count_errors.
    destruct (filter _ (settled (run_batches grid w) rs)) as [| [t r] rest] eqn:Hf.
    + split; reflexivity.
    + split; [discriminate |]. simpl. intros Hnull. exfalso.
      assert ((t, r) ∈ filter (fun item => is_error item.2 = true)
                         (settled (run_batches grid w) rs)) as Hin
        by (rewrite Hf; left).
      apply list_elem_of_filter in Hin as [Herr _]. simpl in Herr.
      rewrite Hnull in Herr. discriminate.
  - rewrite <- (settled_texts (run_batches grid w) rs Hlen), length_fmap.
    apply count_errors_bound.
  - destruct (run_texts grid w) as (-> & _ & _). apply length_filter.
Qed.

(** X7. Cells that hold the same text are written alike: the value of a
    translatable cell after a run depends on its text alone. *)
Theorem equal_texts_equal_cells (E : engine) (net : network) (model : string)
    (grid : list (list cell)) (w : world) :
  exists out w',
    translateRange E net model grid w = Some (out, w')
    /\ forall written c1 c2,
         newValues out = Some written ->
         c1 ∈ cellsToTranslate (extract grid) ->
         c2 ∈ cellsToTranslate (extract grid) ->
         text c1 = text c2 ->
         cell_at written (row c1) (col c1) = cell_at written (row c2) (col c2).
Proof.
  destruct (run_outcome E net model grid w) as (p & w' & rs & Hrun & _).
  eexists _, w'. split; [exact Hrun |]. cbn [newValues].
  intros written c1 c2 Hwritten Hc1 Hc2 Htext.
  destruct (reconcile_extracted grid (texts_map p)) as (written' & Hrec & _ & Hin & _).
  destruct (cellsToTranslate (extract grid)) as [| c0 cells] eqn:Hcells;
    [discriminate |].
  rewrite Hrec in Hwritten. injection Hwritten as ->.
  rewrite (Hin c1 Hc1), (Hin c2 Hc2), Htext. reflexivity.
Qed.

(** X8. A run without errors leaves the cache able to answer for the
    whole grid: the same grid run again, on any network and model,
    issues no request, waits only for the notice of the cache hits,
    reports no error and hands over the same grid. *)
Theorem clean_run_rerun_is_offline (E : engine) (net net' : network)
    (model model' : string) (grid : list (list cell)) (w w' : world)
    (out : outcome) :
  translateRange E net model grid w = Some (out, w') ->
  errors out = 0 ->
  translateRange E net' model' grid w' =
  Some (Outcome 0 VNull (newValues out),
        match cellsToTranslate (extract grid) with
        | [] => w'
        | _ => emit (Sleep 500) w'
        end).
Proof.
  intros Hrun Hclean.
  destruct (run_outcome E net model grid w)
    as (p & w1 & rs & Hrun' & _ & Hlen & Hstate & _).
  rewrite Hrun in Hrun'. injection Hrun' as -> <-. cbn [errors] in Hclean.
  cbn [newValues].
  destruct (cellsToTranslate (extract grid)) as [| c0 cells] eqn:Hcells.
  { apply translateRange_nothing. exact Hcells. }
  pose proof (clean_run_caches_all E net model grid w w' p rs Hlen Hstate Hclean)
    as Hall.
  destruct (cache_lookup_spec (translationCache w') (uniqueTexts (extract grid)))
    as [Hfetch Hresolved].
  assert (textsToFetchFromApi
            (cache_lookup (translationCache w') (uniqueTexts (extract grid))) = [])
    as Hnone.
  { rewrite Hfetch.
    destruct (filter _ (map_keys (uniqueTexts (extract grid)))) as [| t rest] eqn:Hf;
      [reflexivity |].
    assert (t ∈ filter (fun t => translationCache w' !! t = None)
                  (map_keys (uniqueTexts (extract grid)))) as Hin
      by (rewrite Hf; left).
    apply list_elem_of_filter in Hin as [Hmiss Hkey].
    destruct (Hall t Hkey) as (v & Hhit & _). congruence. }
  assert (map_keys (uniqueTexts (extract grid)) <> []) as Hkeys.
  { intros Hnil. destruct (unique_keys grid) as [_ Hin].
    assert (text c0 ∈ map_keys (uniqueTexts (extract grid))) as Hk
      by (apply Hin; exists c0; rewrite Hcells; split; [left | reflexivity]).
    rewrite Hnil in Hk. inversion Hk. }
  unfold translateRange. rewrite Hcells. cbn [length Nat.eqb].
  rewrite Hnone. cbn [length Nat.ltb Nat.leb].
  rewrite Nat.sub_0_r.
  destruct (map_keys (uniqueTexts (extract grid))) as [| k keys] eqn:Hk;
    [contradiction |].
  cbn [length Nat.ltb Nat.leb mbind option_bind texts_map].
  rewrite <- Hk in *. rewrite <- Hcells in *.
  assert (reconcile grid (cellsToTranslate (extract grid))
            (resolved (cache_lookup (translationCache w')
                         (uniqueTexts (extract grid)))) =
          reconcile grid (cellsToTranslate (extract grid)) (texts_map p)) as ->.
  { unfold reconcile. apply reconcile_cells_ext. intros c Hc.
    assert (text c ∈ map_keys (uniqueTexts (extract grid))) as Hkey
      by (apply (unique_keys grid); eauto).
    destruct (Hall (text c) Hkey) as (v & Hhit & Hmap).
    rewrite Hresolved, Hhit, Hmap. now rewrite decide_True. }
  destruct (reconcile_extracted grid (texts_map p)) as (written & -> & _).
  reflexivity.
Qed.

(** A grid of one translated text, run twice. *)
Lemma clean_run_rerun_witness :
  translateRange reference_engine (fun _ => Rejected "offline") PRO_MODEL
    [[CStr "Hello"; CNum 5]]
    (World 1 [Fetch ["Hello"]] {["Hello" := VStr "Bonjour"]}) =
  Some (Outcome 0 VNull (Some [[VStr "Bonjour"; VNum 5]]),
        emit (Sleep 500)
          (World 1 [Fetch ["Hello"]] {["Hello" := VStr "Bonjour"]})).
Proof.
  apply (clean_run_rerun_is_offline reference_engine
           (fun _ => reply_with ("[" +:+ quoted "Bonjour" +:+ "]"))
           (fun _ => Rejected "offline") STANDARD_MODEL PRO_MODEL
           [[CStr "Hello"; CNum 5]] (World 0 [] ∅)
           (World 1 [Fetch ["Hello"]] {["Hello" := VStr "Bonjour"]})
           (Outcome 0 VNull (Some [[VStr "Bonjour"; VNum 5]]))).
  - vm_compute. reflexivity.
  - reflexivity.
Defined.

(** X9. A grid without a translatable cell (numbers, booleans, blanks,
    strings of white space) is left alone: the run returns at once with
    no error, issues no request, writes no grid and leaves the cache as
    it is. *)
Theorem nothing_translatable_is_untouched (E : engine) (net : network)
    (model : string) (grid : list (list cell)) (w : world) :
  (forall i j cellValue, cell_at grid i j = Some cellValue ->
                         qualifies cellValue = false) ->
  translateRange E net model grid w = Some (Outcome 0 VNull None, w).
Proof.
  intros Hnone. apply translateRange_nothing.
  destruct (cellsToTranslate (extract grid)) as [| c cells] eqn:Hcells;
    [reflexivity |].
  exfalso.
  assert (c ∈ cellsToTranslate (extract grid)) as Hc by (rewrite Hcells; left).
  apply extracted_cells in Hc as [Hcell Htrim].
  specialize (Hnone _ _ _ Hcell). unfold qualifies in Hnone.
  apply negb_false_iff, String.eqb_eq in Hnone. contradiction.
Qed.

Lemma nothing_translatable_witness :
  translateRange reference_engine (fun _ => Rejected "offline") STANDARD_MODEL
    [[CNum 1; CStr "  "]; [CBool true; CEmpty]] (World 0 [] ∅) =
  Some (Outcome 0 VNull None, World 0 [] ∅).
Proof.
  apply (nothing_translatable_is_untouched reference_engine
           (fun _ => Rejected "offline") STANDARD_MODEL
           [[CNum 1; CStr "  "]; [CBool true; CEmpty]] (World 0 [] ∅)).
  intros [| [| i]] [| [| j]] cellValue; cbn; intros [= <-]; reflexivity.
Defined.
(** ** More on the client *)

Lemma startsWith_append (p s : string) : startsWith (p +:+ s) p = true.
Proof.
  unfold startsWith. induction p as [| c p IH]; simpl.
  - now destruct s.
  - destruct (ascii_dec c c); [exact IH | contradiction].
Qed.

Lemma caught_failure (texts : list string) (message : thrown) :
  caught texts (inl message) = all_items texts ("Network Error: " +:+ message).
Proof. reflexivity. Qed.

(** X10. A call asks again only after a status 429: it issues one
    request more than the number of 429 answers at its start, three at
    most, waiting 2 s and 4 s in between, and nothing else. A third 429
    gives the rate-limit failure; a request that is rejected is not
    repeated and gives the transport failure for every item. *)
Theorem call_stops_at_first_answer (E : engine) (net : network)
    (texts : list string) (w : world) :
  exists k translated events,
    callGeminiBatch E net texts w =
    Some (translated,
          World (requests w + S k) (trace w ++ events) (translationCache w))
    /\ call_events texts !! k = Some events
    /\ (forall i, i < k -> rate_limited (net (requests w + i)) = true)
    /\ (rate_limited (net (requests w + k)) = true ->
        k = 2 /\ translated = all_items texts rate_limit_message)
    /\ (forall message, net (requests w + k) = Rejected message ->
        translated = all_items texts ("Network Error: " +:+ message)).
Proof. apply call_shape. Qed.

Lemma failure_string_api (detail : string) :
  failure_string ("API Error: " +:+ detail) = true.
Proof.
  unfold failure_string. now rewrite (startsWith_append "API Error: ").
Qed.

Lemma failure_string_network (message : string) :
  failure_string ("Network Error: " +:+ message) = true.
Proof.
  unfold failure_string. rewrite (startsWith_append "Network Error: ").
  now rewrite !orb_true_r.
Qed.

Lemma ok_not_429 (r : response) : ok r = true -> (status r =? 429) = false.
Proof.
  unfold ok. intros [_ Hle%Nat.leb_le]%andb_true_iff.
  apply Nat.eqb_neq. lia.
Qed.

(** One request settles the call when its answer is not a 429. *)
Lemma call_answered (E : engine) (net : network) (texts : list string)
    (w : world) (r : response) :
  net (requests w) = Resolved r ->
  (status r =? 429) = false ->
  callGeminiBatch E net texts w =
  Some (caught texts (read_response E texts r), requested texts w).
Proof.
  intros Hnet Hstatus. unfold callGeminiBatch.
  cbn [retry_loop MAX_RETRIES Nat.ltb Nat.leb]. now rewrite Hnet, Hstatus.
Qed.

(** X11. An answer with a status outside 200-299, other than 429, never
    yields a translation: after this one request every item of the
    batch is the same failure string, and it is the transport failure
    when the body of the answer cannot be read as JSON. *)
Theorem http_failure_is_reported (E : engine) (net : network)
    (texts : list string) (w : world) (r : response) :
  net (requests w) = Resolved r ->
  ok r = false ->
  status r <> 429 ->
  exists message,
    callGeminiBatch E net texts w =
    Some (all_items texts message, requested texts w)
    /\ failure_string message = true
    /\ (forall reason, json r = inl reason ->
        message = "Network Error: " +:+ reason).
Proof.
  intros Hnet Hok Hstatus. apply Nat.eqb_neq in Hstatus.
  rewrite (call_answered E net texts w r Hnet Hstatus).
  unfold read_response. rewrite Hok. cbn [negb].
  destruct (json r) as [reason | data]; cbn [attempt_bind].
  { eexists. split; [reflexivity |].
    split; [apply failure_string_network |]. now intros ? [= <-]. }
  destruct (get_opt E data "error") as [reason | error]; cbn [attempt_bind].
  { eexists. split; [reflexivity |].
    split; [apply failure_string_network | discriminate]. }
  destruct (get_opt E error "message") as [reason | message]; cbn [attempt_bind].
  { eexists. split; [reflexivity |].
    split; [apply failure_string_network | discriminate]. }
  destruct (as_string E _ "toLowerCase") as [reason | errorText];
    cbn [attempt_bind].
  { eexists. split; [reflexivity |].
    split; [apply failure_string_network | discriminate]. }
  destruct (includes _ _); cbn [caught]; eexists;
    (split; [reflexivity |]); (split; [| discriminate]).
  - reflexivity.
  - apply (failure_string_api (decimal (status r) +:+ " - " +:+ errorText)).
Qed.

(** A 500 whose body is an HTML page. *)
Lemma http_failure_witness :
  exists message,
    callGeminiBatch reference_engine
      (fun _ => Resolved (Response 500 (inl "Unexpected token <")))
      ["Hello"] (World 0 [] ∅) =
    Some (all_items ["Hello"] message, requested ["Hello"] (World 0 [] ∅))
    /\ failure_string message = true
    /\ (forall reason,
          @inl thrown value "Unexpected token <" = inl reason ->
          message = "Network Error: " +:+ reason).
Proof.
  apply (http_failure_is_reported reference_engine
           (fun _ => Resolved (Response 500 (inl "Unexpected token <")))
           ["Hello"] (World 0 [] ∅) (Response 500 (inl "Unexpected token <"))).
  - reflexivity.
  - reflexivity.
  - simpl. lia.
Defined.

(** X12. An answer 200 without candidates ([candidates] missing, or an
    empty array) is a blocked prompt: every item of the batch becomes
    [Blocked: ] followed by the [blockReason] of [promptFeedback], or by
    [Safety Filter] when there is none. *)
Theorem missing_candidates_is_blocked (E : engine) (net : network)
    (texts : list string) (w : world) (r : response)
    (fields : list (string * value)) (reason : string) :
  net (requests w) = Resolved r ->
  ok r = true ->
  json r = inr (VObj fields) ->
  field fields "candidates" = None \/ field fields "candidates" = Some (VArr []) ->
  (field fields "promptFeedback" = None /\ reason = "Safety Filter")
  \/ (exists feedback,
        field fields "promptFeedback" = Some (VObj feedback)
        /\ (field feedback "blockReason" = None /\ reason = "Safety Filter"
            \/ field feedback "blockReason" = Some (VStr reason)
               /\ reason <> EmptyString)) ->
  callGeminiBatch E net texts w =
  Some (all_items texts ("Blocked: " +:+ reason), requested texts w).
Proof.
  intros Hnet Hok Hjson Hcandidates Hfeedback.
  rewrite (call_answered E net texts w r Hnet (ok_not_429 r Hok)).
  unfold read_response. rewrite Hok, Hjson. cbn [negb attempt_bind].
  assert (no_candidates E (VObj fields) = inr true) as ->.
  { unfold no_candidates. cbn [get attempt_bind].
    destruct Hcandidates as [-> | ->]; reflexivity. }
  cbn [attempt_bind get].
  destruct Hfeedback as [[-> ->] | (feedback & -> & [[Hnone ->] | [Hsome Hreason]])].
  - reflexivity.
  - cbn [from_option id get_opt get attempt_bind]. rewrite Hnone. reflexivity.
  - cbn [from_option id get_opt get attempt_bind]. rewrite Hsome.
    cbn [from_option id attempt_bind]. unfold js_or. cbn [truthy].
    apply String.eqb_neq in Hreason. rewrite Hreason. reflexivity.
Qed.

Lemma missing_candidates_witness :
  callGeminiBatch reference_engine
    (fun _ => Resolved (Response 200 (inr (VObj
       [("promptFeedback", VObj [("blockReason", VStr "SAFETY")])]))))
    ["Hello"; "World"] (World 0 [] ∅) =
  Some (all_items ["Hello"; "World"] "Blocked: SAFETY",
        requested ["Hello"; "World"] (World 0 [] ∅)).
Proof.
  apply (missing_candidates_is_blocked reference_engine
           (fun _ => Resolved (Response 200 (inr (VObj
              [("promptFeedback", VObj [("blockReason", VStr "SAFETY")])]))))
           ["Hello"; "World"] (World 0 [] ∅)
           (Response 200 (inr (VObj
              [("promptFeedback", VObj [("blockReason", VStr "SAFETY")])])))
           [("promptFeedback", VObj [("blockReason", VStr "SAFETY")])]
           "SAFETY").
  - reflexivity.
  - reflexivity.
  - reflexivity.
  - left. reflexivity.
  - right. eexists. split; [reflexivity |]. right. split; [reflexivity | discriminate].
Defined.

(** *** The clean-up of the reply text (lines 570-571) *)

Lemma append_assoc (a b c : string) : (a +:+ b) +:+ c = a +:+ b +:+ c.
Proof.
  induction a as [| x a IH]; [reflexivity | exact (f_equal (String x) IH)].
Qed.

Lemma append_empty (a : string) : a +:+ EmptyString = a.
Proof.
  induction a as [| x a IH]; [reflexivity | exact (f_equal (String x) IH)].
Qed.

Lemma rev_app_append (a b acc : string) :
  String.rev_app (a +:+ b) acc = String.rev_app b (String.rev_app a acc).
Proof. revert acc. induction a as [| x a IH]; intros acc; simpl; auto. Qed.

Lemma substring_all (s : string) : String.substring 0 (String.length s) s = s.
Proof. induction s as [| x s IH]; simpl; [reflexivity | now rewrite IH]. Qed.

Lemma substring_front (a b : string) :
  String.substring 0 (String.length a) (a +:+ b) = a.
Proof.
  induction a as [| x a IH]; simpl; [now destruct b | now rewrite IH].
Qed.

Lemma substring_back (a b : string) :
  String.substring (String.length a) (String.length b) (a +:+ b) = b.
Proof. induction a as [| x a IH]; simpl; [apply substring_all | exact IH]. Qed.

Lemma trimStart_white (ws s : string) :
  white ws = true -> trimStart (ws +:+ s) = trimStart s.
Proof.
  induction ws as [| c ws IH]; simpl; [reflexivity |].
  intros [-> Hrest]%andb_true_iff. auto.
Qed.

Lemma trimEnd_blank (ws : string) : white ws = true -> trimEnd ws = EmptyString.
Proof.
  induction ws as [| c ws IH]; simpl; [reflexivity |].
  intros [-> Hrest]%andb_true_iff. now rewrite IH.
Qed.

Lemma trimEnd_white (s ws : string) :
  white ws = true -> trimEnd (s +:+ ws) = trimEnd s.
Proof.
  intros Hws. induction s as [| c s IH].
  - exact (trimEnd_blank ws Hws).
  - change (trimEnd (String c s +:+ ws))
      with (match trimEnd (s +:+ ws) with
            | EmptyString =>
                if is_white_space c then EmptyString else String c EmptyString
            | kept => String c kept
            end).
    now rewrite IH.
Qed.

Lemma trimEnd_last (s : string) (c : ascii) :
  is_white_space c = false ->
  trimEnd (s +:+ String c EmptyString) = s +:+ String c EmptyString.
Proof.
  intros Hc. induction s as [| x s IH]; simpl.
  - now rewrite Hc.
  - rewrite IH. now destruct s.
Qed.

Lemma length_trimStart (s : string) :
  String.length (trimStart s) <= String.length s.
Proof.
  induction s as [| c s IH]; simpl; [lia |].
  destruct (is_white_space c); simpl; lia.
Qed.

Lemma trimStart_fixed (body rest : string) :
  trimStart body = body -> trimStart rest = rest ->
  trimStart (body +:+ rest) = body +:+ rest.
Proof.
  destruct body as [| c body]; simpl; [auto |].
  destruct (is_white_space c); [| reflexivity].
  intros Hfixed _. pose proof (length_trimStart body) as Hlen.
  rewrite Hfixed in Hlen. simpl in Hlen. lia.
Qed.

(** A text in a [json] code fence is unwrapped: white space around the
    fence and after its opening goes, the body stays as it is. *)
Lemma unwrap_fenced (lead gap body trail : string) :
  white lead = true -> white gap = true -> white trail = true ->
  trimStart body = body ->
  strip_closing_fence
    (strip_opening_fence
       (trim (lead +:+ "```json" +:+ gap +:+ body +:+ "```" +:+ trail))) = body.
Proof.
  intros Hlead Hgap Htrail Hbody.
  assert (trim (lead +:+ "```json" +:+ gap +:+ body +:+ "```" +:+ trail) =
          "```json" +:+ gap +:+ body +:+ "```") as ->.
  { unfold trim. rewrite (trimStart_white lead) by exact Hlead.
    change (trimStart ("```json" +:+ gap +:+ body +:+ "```" +:+ trail))
      with ("```json" +:+ gap +:+ body +:+ "```" +:+ trail).
    replace ("```json" +:+ gap +:+ body +:+ "```" +:+ trail)
      with (("```json" +:+ gap +:+ body +:+ "``") +:+ "`" +:+ trail)
      by (now rewrite !append_assoc).
    change ("`" +:+ trail) with ("`" +:+ EmptyString +:+ trail).
    rewrite <- (append_assoc _ "`" trail), (trimEnd_white _ trail) by exact Htrail.
    rewrite trimEnd_last by reflexivity.
    now rewrite !append_assoc. }
  unfold strip_opening_fence.
  rewrite (startsWith_append "```json").
  replace (String.substring 7
             (String.length ("```json" +:+ gap +:+ body +:+ "```") - 7)
             ("```json" +:+ gap +:+ body +:+ "```"))
    with (gap +:+ body +:+ "```").
  2: { change 7 with (String.length "```json") at 1.
       replace (String.length ("```json" +:+ gap +:+ body +:+ "```") - 7)
         with (String.length (gap +:+ body +:+ "```"))
         by (rewrite (length_append "```json"); simpl; lia).
       now rewrite substring_back. }
  rewrite (trimStart_white gap) by exact Hgap.
  rewrite trimStart_fixed by (exact Hbody || reflexivity).
  unfold strip_closing_fence, endsWith, String.rev.
  rewrite rev_app_append. cbn [String.rev_app String.prefix].
  destruct (ascii_dec "`" "`"); [| contradiction].
  replace (String.prefix EmptyString (String.rev_app body EmptyString))
    with true by (now destruct (String.rev_app body EmptyString)).
  replace (String.length (body +:+ "```") - 3) with (String.length body)
    by (rewrite length_append; simpl; lia).
  apply substring_front.
Qed.

(** The reply text of an answer with a candidate. *)
Lemma read_candidate (E : engine) (texts : list string) (r : response)
    (fields candidate content part : list (string * value))
    (candidates parts : list value) (responseText : string) :
  ok r = true ->
  json r = inr (VObj fields) ->
  field fields "candidates" = Some (VArr (VObj candidate :: candidates)) ->
  field candidate "content" = Some (VObj content) ->
  field content "parts" = Some (VArr (VObj part :: parts)) ->
  field part "text" = Some (VStr responseText) ->
  read_response E texts r =
  inr (parse_reply E texts
         (strip_closing_fence (strip_opening_fence (trim responseText)))).
Proof.
  intros Hok Hjson Hcandidates Hcontent Hparts Htext.
  unfold read_response, no_candidates.
  rewrite Hok, Hjson. cbn [negb attempt_bind get].
  rewrite Hcandidates.
  cbn [from_option id truthy negb attempt_bind get String.eqb Ascii.eqb
       Bool.eqb length Z.of_nat get_first head].
  rewrite Hcontent. cbn [from_option id attempt_bind get].
  rewrite Hparts. cbn [from_option id attempt_bind get get_first head].
  rewrite Htext. reflexivity.
Qed.

(** X13. A reply wrapped in a [json] code fence is read like the bare
    array: when the body of the fence parses to an array with one item
    per text, the call returns these items after its one request. *)
Theorem fenced_reply_is_read (E : engine) (net : network)
    (texts : list string) (w : world) (r : response)
    (fields candidate content part : list (string * value))
    (candidates parts items : list value) (lead gap body trail : string) :
  net (requests w) = Resolved r ->
  ok r = true ->
  json r = inr (VObj fields) ->
  field fields "candidates" = Some (VArr (VObj candidate :: candidates)) ->
  field candidate "content" = Some (VObj content) ->
  field content "parts" = Some (VArr (VObj part :: parts)) ->
  field part "text" =
    Some (VStr (lead +:+ "```json" +:+ gap +:+ body +:+ "```" +:+ trail)) ->
  white lead = true -> white gap = true -> white trail = true ->
  trimStart body = body ->
  JSON_parse E body = Some (VArr items) ->
  length items = length texts ->
  callGeminiBatch E net texts w = Some (items, requested texts w).
Proof.
  intros Hnet Hok Hjson Hcandidates Hcontent Hparts Htext Hlead Hgap Htrail
    Hbody Hparse Hlength.
  rewrite (call_answered E net texts w r Hnet (ok_not_429 r Hok)).
  rewrite (read_candidate E texts r fields candidate content part candidates
             parts _ Hok Hjson Hcandidates Hcontent Hparts Htext).
  rewrite unwrap_fenced by assumption.
  unfold parse_reply. rewrite Hparse. cbn [mbind option_bind accept_parsed].
  apply Nat.eqb_eq in Hlength. rewrite Hlength. reflexivity.
Qed.

(** A reply in a fence, with a line break after the opening and before
    the closing. *)
Lemma fenced_reply_witness :
  callGeminiBatch reference_engine
    (fun _ => reply_with
       ("```json" +:+ String "010" EmptyString +:+
        ("[" +:+ quoted "Bonjour" +:+ "]" +:+ String "010" EmptyString) +:+
        "```"))
    ["Hello"] (World 0 [] ∅) =
  Some ([VStr "Bonjour"], requested ["Hello"] (World 0 [] ∅)).
Proof.
  eapply (fenced_reply_is_read reference_engine) with
    (lead := EmptyString) (gap := String "010" EmptyString)
    (body := "[" +:+ quoted "Bonjour" +:+ "]" +:+ String "010" EmptyString)
    (trail := EmptyString);
    reflexivity.
Defined.

(** *** The array inside a reply (line 579) *)

Lemma no_close_after (post : string) :
  includes post "]" = false -> through_last_close post = None.
Proof.
  induction post as [| c post IH]; [reflexivity |].
  cbn [includes through_last_close String.prefix].
  destruct (ascii_dec "]" c) as [<- | Hc].
  - now destruct post.
  - cbn [orb]. intros Hrest. rewrite (IH Hrest).
    destruct (Ascii.eqb_spec c "]") as [-> | _]; [contradiction | reflexivity].
Qed.

Lemma through_last_close_spec (mid post : string) :
  includes post "]" = false ->
  through_last_close (mid +:+ "]" +:+ post) = Some (mid +:+ "]").
Proof.
  intros Hpost. induction mid as [| c mid IH].
  - change (through_last_close (EmptyString +:+ "]" +:+ post))
      with (match through_last_close post with
            | Some kept => Some (String "]" kept)
            | None => Some "]"
            end).
    now rewrite (no_close_after post Hpost).
  - change (through_last_close (String c mid +:+ "]" +:+ post))
      with (match through_last_close (mid +:+ "]" +:+ post) with
            | Some kept => Some (String c kept)
            | None => if Ascii.eqb c "]" then Some (String c EmptyString) else None
            end).
    now rewrite IH.
Qed.

(** The match of line 579 runs from the first opening bracket to the
    last closing bracket. *)
Lemma match_bracketed_spec (pre mid post : string) :
  includes pre "[" = false ->
  includes post "]" = false ->
  match_bracketed (pre +:+ "[" +:+ mid +:+ "]" +:+ post) =
  Some ("[" +:+ mid +:+ "]").
Proof.
  intros Hpre Hpost. induction pre as [| c pre IH].
  - change (match_bracketed (EmptyString +:+ "[" +:+ mid +:+ "]" +:+ post))
      with (match through_last_close (mid +:+ "]" +:+ post) with
            | Some kept => Some (String "[" kept)
            | None => None
            end).
    now rewrite through_last_close_spec.
  - cbn [includes String.prefix] in Hpre.
    destruct (ascii_dec "[" c) as [<- | Hc].
    + now destruct pre.
    + cbn [orb] in Hpre.
      change (match_bracketed (String c pre +:+ "[" +:+ mid +:+ "]" +:+ post))
        with (if Ascii.eqb c "["
              then match through_last_close (pre +:+ "[" +:+ mid +:+ "]" +:+ post) with
                   | Some kept => Some (String c kept)
                   | None => None
                   end
              else match_bracketed (pre +:+ "[" +:+ mid +:+ "]" +:+ post)).
      destruct (Ascii.eqb_spec c "[") as [-> | _]; [contradiction | auto].
Qed.

(** Without an opening bracket there is no match. *)
Lemma match_bracketed_none (s : string) :
  includes s "[" = false -> match_bracketed s = None.
Proof.
  induction s as [| c s IH]; [reflexivity |].
  cbn [includes match_bracketed String.prefix].
  destruct (ascii_dec "[" c) as [<- | Hc].
  - now destruct s.
  - cbn [orb]. intros Hrest.
    destruct (Ascii.eqb_spec c "[") as [-> | _]; [contradiction | auto].
Qed.

(** X14. A reply that is no JSON as a whole but holds an array between
    its first opening and its last closing bracket gives the items of
    that array, however many they are; a reply that is no JSON and holds
    no opening bracket gives the invalid-format failure for every
    text. *)
Theorem array_inside_prose (E : engine) (texts : list string)
    (pre mid post : string) (items : list value) :
  includes pre "[" = false ->
  includes post "]" = false ->
  JSON_parse E (pre +:+ "[" +:+ mid +:+ "]" +:+ post) = None ->
  JSON_parse E ("[" +:+ mid +:+ "]") = Some (VArr items) ->
  parse_reply E texts (pre +:+ "[" +:+ mid +:+ "]" +:+ post) = items
  /\ (JSON_parse E pre = None ->
      parse_reply E texts pre = all_items texts "API Error: Invalid format from AI.").
Proof.
  intros Hpre Hpost Hwhole Harray. unfold parse_reply. split.
  - rewrite Hwhole. cbn [mbind option_bind].
    rewrite (match_bracketed_spec pre mid post Hpre Hpost).
    change (String "[" (mid +:+ "]")) with ("[" +:+ mid +:+ "]").
    now rewrite Harray.
  - intros Hprose. rewrite Hprose. cbn [mbind option_bind].
    now rewrite (match_bracketed_none pre Hpre).
Qed.

Lemma array_inside_prose_witness :
  parse_reply reference_engine ["a"; "b"; "c"]
    ("Here you go: " +:+ "[" +:+ (quoted "x" +:+ "," +:+ quoted "y") +:+ "]"
     +:+ " Enjoy!") = [VStr "x"; VStr "y"]
  /\ (JSON_parse reference_engine "Here you go: " = None ->
      parse_reply reference_engine ["a"; "b"; "c"] "Here you go: " =
      all_items ["a"; "b"; "c"] "API Error: Invalid format from AI.").
Proof.
  apply (array_inside_prose reference_engine ["a"; "b"; "c"]
           "Here you go: " (quoted "x" +:+ "," +:+ quoted "y") " Enjoy!"
           [VStr "x"; VStr "y"]); reflexivity.
Defined.
(** ** The pane *)

Lemma substring_split (n : nat) (s : string) :
  n <= String.length s ->
  s = String.substring 0 n s +:+ substring_from n s.
Proof.
  revert s. induction n as [| n IH]; intros s Hn.
  - unfold substring_from. rewrite Nat.sub_0_r, substring_all. now destruct s.
  - destruct s as [| c s]; simpl in Hn; [lia |].
    change (String c s = String c (String.substring 0 n s +:+ substring_from n s)).
    f_equal. apply IH. lia.
Qed.

Lemma substring_from_append (a b : string) (k : nat) :
  substring_from (String.length a + k) (a +:+ b) = substring_from k b.
Proof.
  unfold substring_from. rewrite length_append.
  replace (String.length a + String.length b - (String.length a + k))
    with (String.length b - k) by lia.
  induction a as [| c a IH]; [reflexivity | exact IH].
Qed.

Lemma length_substring_from (n : nat) (s : string) :
  String.length (substring_from n s) = String.length s - n.
Proof.
  destruct (decide (n <= String.length s)) as [Hle | Hgt].
  - pose proof (f_equal String.length (substring_split n s Hle)) as Hlen.
    rewrite length_append, length_substring0 in Hlen. lia.
  - unfold substring_from.
    replace (String.length s - n) with 0 by lia.
    clear Hgt. revert n. induction s as [| c s IH]; intros [| n]; simpl; auto.
Qed.

(** X15. A key of at most 8 characters is displayed as it is, unmasked;
    of a longer key the display shows the first four and the last four
    characters around three dots, and hides all the others. *)
Theorem mask_shape (apiKey : string) :
  (String.length apiKey <= 8 -> maskApiKey apiKey = apiKey)
  /\ (8 < String.length apiKey ->
      exists first hidden last,
        apiKey = first +:+ hidden +:+ last
        /\ String.length first = 4
        /\ String.length last = 4
        /\ String.length hidden = String.length apiKey - 8
        /\ maskApiKey apiKey = first +:+ "..." +:+ last).
Proof.
  unfold maskApiKey. split.
  - intros Hshort. apply Nat.ltb_ge in Hshort. now rewrite Hshort.
  - intros Hlong. pose proof Hlong as Htest. apply Nat.ltb_lt in Htest.
    rewrite Htest.
    set (rest := substring_from 4 apiKey).
    assert (apiKey = String.substring 0 4 apiKey +:+ rest) as Hsplit
      by (apply substring_split; lia).
    assert (String.length (String.substring 0 4 apiKey) = 4) as Hfirst
      by (rewrite length_substring0; lia).
    assert (String.length rest = String.length apiKey - 4) as Hrest
      by apply length_substring_from.
    exists (String.substring 0 4 apiKey),
           (String.substring 0 (String.length apiKey - 8) rest),
           (substring_from (String.length apiKey - 8) rest).
    split; [| split; [exact Hfirst | split; [| split]]].
    + rewrite <- substring_split by lia. exact Hsplit.
    + rewrite length_substring_from. lia.
    + rewrite length_substring0. lia.
    + do 2 f_equal.
      replace (String.length apiKey - 4)
        with (String.length (String.substring 0 4 apiKey)
              + (String.length apiKey - 8)) by lia.
      rewrite <- (substring_from_append (String.substring 0 4 apiKey) rest).
      now rewrite <- Hsplit.
Qed.

(** *** Trimming *)

Lemma trimStart_blank (s : string) : white s = true <-> trimStart s = EmptyString.
Proof.
  induction s as [| c s IH]; simpl; [easy |].
  destruct (is_white_space c); simpl; [exact IH | easy].
Qed.

Lemma trimEnd_blank_inv (s : string) : trimEnd s = EmptyString -> white s = true.
Proof.
  induction s as [| c s IH]; simpl; [reflexivity |].
  destruct (trimEnd s); [| discriminate].
  destruct (is_white_space c); [auto | discriminate].
Qed.

Lemma trim_blank (s : string) : white s = true <-> trim s = EmptyString.
Proof.
  unfold trim. split.
  - intros Hs. apply trimStart_blank in Hs. now rewrite Hs.
  - intros Hs. apply trimEnd_blank_inv, trimStart_blank in Hs.
    apply trimStart_blank. clear -Hs.
    induction s as [| c s IH]; simpl in *; [reflexivity |].
    destruct (is_white_space c) eqn:Hc; [auto |].
    simpl in Hs. now rewrite Hc in Hs.
Qed.

Lemma trimStart_idem (s : string) : trimStart (trimStart s) = trimStart s.
Proof.
  induction s as [| c s IH]; simpl; [reflexivity |].
  destruct (is_white_space c) eqn:Hc; [exact IH |]. simpl. now rewrite Hc.
Qed.

Lemma trimEnd_idem (s : string) : trimEnd (trimEnd s) = trimEnd s.
Proof.
  induction s as [| c s IH]; simpl; [reflexivity |].
  destruct (trimEnd s) as [| k kept] eqn:Hkept.
  - destruct (is_white_space c) eqn:Hc; simpl; [reflexivity | now rewrite Hc].
  - change (trimEnd (String c (String k kept)))
      with (match trimEnd (String k kept) with
            | EmptyString =>
                if is_white_space c then EmptyString else String c EmptyString
            | more => String c more
            end).
    now rewrite IH.
Qed.

Lemma trimStart_trimEnd (s : string) :
  trimStart s = s -> trimStart (trimEnd s) = trimEnd s.
Proof.
  destruct s as [| c s]; [reflexivity |]. simpl.
  destruct (is_white_space c) eqn:Hc.
  - intros Hfixed. pose proof (length_trimStart s) as Hlen.
    rewrite Hfixed in Hlen. simpl in Hlen. lia.
  - intros _. destruct (trimEnd s); simpl; now rewrite Hc.
Qed.

Lemma trim_idem (s : string) : trim (trim s) = trim s.
Proof.
  unfold trim.
  rewrite (trimStart_trimEnd (trimStart s)) by apply trimStart_idem.
  apply trimEnd_idem.
Qed.

(** X16. [saveApiKey] refuses an input of white space: the setting and
    the layout stay and the status is an error. Any other input is
    stored trimmed, whatever [saveAsync] reports; a stored key is never
    blank, and [loadApiKey] answers it with the display layout and the
    same masked text that a successful save has put on the pane. *)
Theorem saved_key_round_trip (result : async_result) (stored : setting)
    (p q : pane) :
  (white (api_key_input p) = true ->
   (saveApiKey result stored p).1 = stored
   /\ shown (saveApiKey result stored p).2 = shown p
   /\ status_isError <$> last_status (saveApiKey result stored p).2 = Some true)
  /\ (white (api_key_input p) = false ->
      exists apiKey,
        (saveApiKey result stored p).1 = Some apiKey
        /\ apiKey = trim (api_key_input p)
        /\ trim apiKey = apiKey
        /\ apiKey <> EmptyString
        /\ shown (loadApiKey (Some apiKey) q) = DisplayMode
        /\ masked_key (loadApiKey (Some apiKey) q) = maskApiKey apiKey
        /\ (result = Succeeded ->
            shown (saveApiKey result stored p).2 = DisplayMode
            /\ masked_key (saveApiKey result stored p).2 = maskApiKey apiKey)
        /\ (result <> Succeeded ->
            shown (saveApiKey result stored p).2 = shown p
            /\ masked_key (saveApiKey result stored p).2 = masked_key p)).
Proof.
  unfold saveApiKey. cbn [truthy]. split.
  - intros Hblank. apply trim_blank in Hblank. rewrite Hblank. now cbn.
  - intros Hkey.
    assert (trim (api_key_input p) <> EmptyString) as Hne.
    { intros Hblank. apply trim_blank in Hblank. congruence. }
    pose proof Hne as Htest. apply String.eqb_neq in Htest. rewrite Htest.
    cbn [negb fst snd]. exists (trim (api_key_input p)).
    split; [reflexivity |]. split; [reflexivity |].
    split; [apply trim_idem |]. split; [exact Hne |].
    unfold loadApiKey. cbn [truthy]. rewrite trim_idem, Htest. cbn [negb andb].
    split; [reflexivity |]. split; [reflexivity |].
    split.
    + intros ->. now cbn.
    + intros Hfailed. destruct result; [contradiction | now cbn].
Qed.

(** *** The countdown *)

Lemma countdown_spec (fuel : nat) (timeLeft : Z) :
  (timeLeft <= 100 * Z.of_nat fuel)%Z -> 0 < fuel ->
  exists ticks,
    countdown fuel timeLeft = Some ticks
    /\ ((timeLeft <= 100)%Z -> ticks = 1)
    /\ ((100 < timeLeft)%Z ->
        (100 * (Z.of_nat ticks - 1) < timeLeft <= 100 * Z.of_nat ticks)%Z).
Proof.
  revert timeLeft. induction fuel as [| fuel IH]; intros timeLeft Hfuel Hpos;
    [lia |].
  cbn [countdown]. destruct (timeLeft - 100 <=? 0)%Z eqn:Hdone.
  - apply Z.leb_le in Hdone. exists 1. split; [reflexivity |].
    split; [reflexivity | lia].
  - apply Z.leb_gt in Hdone.
    destruct (IH (timeLeft - 100)%Z) as (ticks & -> & Hone & Hmore); [lia | lia |].
    exists (S ticks). split; [reflexivity |]. split; [lia |].
    intros _. destruct (decide (timeLeft - 100 <= 100)%Z) as [Hle | Hgt].
    + rewrite (Hone Hle). lia.
    + lia.
Qed.

(** X17. The countdown resolves, and not before its duration is over:
    it takes one tick of 100 ms per started 100 ms of the duration, and
    one tick when the duration is 100 ms or less, zero and negative
    durations included. The delay between two batches takes 12 ticks. *)
Theorem countdown_ticks (duration : Z) :
  exists ticks,
    startCountdownTimer duration = Some ticks
    /\ ((duration <= 100)%Z -> ticks = 1)
    /\ ((100 < duration)%Z ->
        (100 * (Z.of_nat ticks - 1) < duration <= 100 * Z.of_nat ticks)%Z)
    /\ startCountdownTimer SAFE_MODE_DELAY = Some 12.
Proof.
  destruct (countdown_spec (S (Z.to_nat (duration / 100))) duration)
    as (ticks & Hrun & Hone & Hmore); [| lia |].
  - destruct (decide (duration < 0)%Z) as [Hneg | Hpos]; [lia |].
    rewrite Nat2Z.inj_succ, Z2Nat.id by (apply Z.div_pos; lia).
    pose proof (Z.mod_pos_bound duration 100 ltac:(lia)) as Hmod.
    pose proof (Z.div_mod duration 100 ltac:(lia)) as Hdiv. lia.
  - exists ticks. split; [exact Hrun |]. split; [exact Hone |].
    split; [exact Hmore | reflexivity].
Qed.
(** ** Handing the grid to the host *)

Lemma includes_unfold (s p : string) :
  includes s p =
  String.prefix p s
  || match s with
     | String _ rest => includes rest p
     | EmptyString => false
     end.
Proof. now destruct s. Qed.

Lemma includes_here (s p : string) : includes (p +:+ s) p = true.
Proof.
  rewrite includes_unfold. fold (startsWith (p +:+ s) p).
  now rewrite startsWith_append.
Qed.

Lemma includes_later (a s p : string) :
  includes s p = true -> includes (a +:+ s) p = true.
Proof.
  intros Hs. induction a as [| c a IH]; [exact Hs |].
  change (includes (String c (a +:+ s)) p = true).
  rewrite includes_unfold, IH. apply orb_true_r.
Qed.

Lemma index_first (sheet rest : string) :
  includes sheet "!" = false ->
  String.index 0 "!" (sheet +:+ "!" +:+ rest) = Some (String.length sheet).
Proof.
  induction sheet as [| c sheet IH]; intros Hsheet.
  - change (String.index 0 "!" (String "!" rest) = Some 0).
    cbn [String.index String.prefix].
    destruct (ascii_dec "!" "!"); [| contradiction]. now destruct rest.
  - cbn [includes String.prefix] in Hsheet.
    change (String.index 0 "!" (String c (sheet +:+ "!" +:+ rest))
            = Some (S (String.length sheet))).
    cbn [String.index String.prefix].
    destruct (ascii_dec "!" c) as [<- | Hc].
    + now destruct sheet.
    + cbn [orb] in Hsheet. now rewrite (IH Hsheet).
Qed.

(** X18. The address handed to the new sheet is the address of the
    range without the sheet it names: what follows the first [!]. *)
Theorem local_address_spec (sheet rest : string) :
  includes sheet "!" = false ->
  local_address (sheet +:+ "!" +:+ rest) = rest.
Proof.
  intros Hsheet. unfold local_address.
  rewrite (includes_later sheet ("!" +:+ rest) "!") by apply includes_here.
  rewrite (index_first sheet rest Hsheet).
  replace (String.length sheet + 1)
    with (String.length (sheet +:+ "!") + 0)
    by (rewrite length_append; simpl; lia).
  rewrite <- (append_assoc sheet "!" rest), substring_from_append.
  unfold substring_from. rewrite Nat.sub_0_r. apply substring_all.
Qed.

Lemma local_address_witness : local_address ("Sheet1" +:+ "!" +:+ "A1:C7") = "A1:C7".
Proof. apply (local_address_spec "Sheet1" "A1:C7"). reflexivity. Defined.

Lemma find_new_sheet_spec (existing : gset string) (front back : list string)
    (new : string) :
  (forall name, name ∈ front -> name ∈ existing) ->
  new ∉ existing ->
  find_new_sheet existing (front ++ new :: back) = Some new.
Proof.
  intros Hfront Hnew. unfold find_new_sheet.
  induction front as [| name front IH]; cbn [app List.find].
  - now rewrite bool_decide_eq_false_2.
  - rewrite bool_decide_eq_true_2 by (apply Hfront; left). cbn [negb].
    apply IH. intros other Hother. apply Hfront. now right.
Qed.

Lemma find_new_sheet_none (existing : gset string) (items : list string) :
  (forall name, name ∈ items -> name ∈ existing) ->
  find_new_sheet existing items = None.
Proof.
  intros Hall. unfold find_new_sheet.
  induction items as [| name items IH]; cbn [List.find]; [reflexivity |].
  rewrite bool_decide_eq_true_2 by (apply Hall; left). cbn [negb].
  apply IH. intros other Hother. apply Hall. now right.
Qed.

(** X19. In the new-sheet mode the grid goes to the copy and to no
    sheet that was there before: wherever the host has put the copy
    among the sheets, it is found by its name and receives the values
    at the local address. When the reloaded collection shows no new
    name, nothing is written and the run ends with the fatal error,
    after the copy has been asked for. *)
Theorem copy_is_found_by_name (mode : string) (d : range_data)
    (newValues : list (list value)) :
  mode <> "replace" ->
  (forall front new back,
     names_after d = front ++ new :: back ->
     (forall name, name ∈ front -> name ∈ names_before d) ->
     new ∉ names_before d ->
     write_back mode d newValues =
     ([CopyAfter; SetSheetValues new (local_address (address d)) newValues;
       Activate new], None))
  /\ ((forall name, name ∈ names_after d -> name ∈ names_before d) ->
      write_back mode d newValues =
      ([CopyAfter],
       Some (JsError "Error" None
         "Fatal: Could not find the newly created worksheet after copy operation.")))
  /\ (forall sheet localAddress written,
        SetSheetValues sheet localAddress written ∈ (write_back mode d newValues).1 ->
        (sheet ∉ names_before d) /\ (sheet ∈ names_after d))
  /\ (forall written, SetRangeValues written ∉ (write_back mode d newValues).1).
Proof.
  intros Hmode. apply String.eqb_neq in Hmode.
  unfold write_back. rewrite Hmode. split; [| split; [| split]].
  - intros front new back Hafter Hfront Hnew.
    rewrite Hafter, (find_new_sheet_spec _ front back new); [reflexivity | |].
    + intros name Hname. apply elem_of_list_to_set. auto.
    + now rewrite elem_of_list_to_set.
  - intros Hall. rewrite find_new_sheet_none; [reflexivity |].
    intros name Hname. apply elem_of_list_to_set. auto.
  - intros sheet localAddress written.
    destruct (find_new_sheet _ (names_after d)) as [newSheet |] eqn:Hfind;
      cbn [fst].
    + intros Hin. apply list_elem_of_In in Hin.
      destruct Hin as [Hin | [Hin | [Hin | []]]]; try discriminate.
      injection Hin as <- _ _.
      apply List.find_some in Hfind as [Hitem Hfresh].
      apply negb_true_iff, bool_decide_eq_false in Hfresh.
      rewrite elem_of_list_to_set in Hfresh.
      split; [exact Hfresh | now apply list_elem_of_In].
    + intros Hin. apply list_elem_of_In in Hin.
      destruct Hin as [Hin | []]. discriminate.
  - intros written Hin. apply list_elem_of_In in Hin.
    destruct (find_new_sheet _ (names_after d)); cbn [fst] in Hin.
    + destruct Hin as [Hin | [Hin | [Hin | []]]]; discriminate.
    + destruct Hin as [Hin | []]. discriminate.
Qed.

(** A copy placed after the first of two sheets, and a copy that does
    not show. *)
Lemma copy_is_found_witness :
  write_back "newSheet"
    (RangeData [[CStr "Hello"]] "Data!A1" ["Data"; "Notes"]
               ["Data"; "Data (2)"; "Notes"])
    [[VStr "Bonjour"]] =
  ([CopyAfter; SetSheetValues "Data (2)" "A1" [[VStr "Bonjour"]];
    Activate "Data (2)"], None)
  /\ write_back "newSheet"
       (RangeData [[CStr "Hello"]] "Data!A1" ["Data"; "Notes"] ["Data"; "Notes"])
       [[VStr "Bonjour"]] =
     ([CopyAfter],
      Some (JsError "Error" None
        "Fatal: Could not find the newly created worksheet after copy operation.")).
Proof.
  split.
  - apply (proj1 (copy_is_found_by_name "newSheet"
             (RangeData [[CStr "Hello"]] "Data!A1" ["Data"; "Notes"]
                        ["Data"; "Data (2)"; "Notes"])
             [[VStr "Bonjour"]] ltac:(discriminate)) ["Data"] "Data (2)" ["Notes"]).
    + reflexivity.
    + intros name Hname. apply list_elem_of_singleton in Hname as ->.
      simpl. left.
    + simpl. intros Hin. apply list_elem_of_In in Hin.
      destruct Hin as [Hin | [Hin | []]]; discriminate.
  - apply (proj1 (proj2 (copy_is_found_by_name "newSheet"
             (RangeData [[CStr "Hello"]] "Data!A1" ["Data"; "Notes"]
                        ["Data"; "Notes"])
             [[VStr "Bonjour"]] ltac:(discriminate)))).
    intros name Hname. exact Hname.
Defined.

(** ** The name of the active sheet *)

Lemma post_process_total (sheetName : string) (sheetNames : list string)
    (translatedSheetName : string) :
  exists r, post_process sheetName sheetNames translatedSheetName = Some r.
Proof.
  unfold post_process. destruct (negb _); [| eauto].
  destruct (getUniqueSheetName_spec (sanitize translatedSheetName)
              (map toLowerCase sheetNames)) as (uniqueName & -> & _).
  simpl. eauto.
Qed.

(** X20. Of all the strings that the client may give back for the name
    of the sheet, only those that start with [API Error] stop the
    command, and then the cache stays as it was. Any other string, be it
    a translation or one of the failure strings [Blocked: ...] and
    [Network Error: ...], is cached under the name of the sheet and
    goes on to become its name. *)
Theorem only_api_errors_stop_the_renaming (E : engine) (net : network)
    (sheetName : string) (sheetNames : list string) (w w1 : world)
    (message : string) :
  translationCache w !! sheetName = None ->
  callGeminiBatch E net [sheetName] w = Some ([VStr message], w1) ->
  (startsWith message "API Error" = true ->
   runTranslateSheetName E net sheetName sheetNames w = Some (inl message, w1)
   /\ translationCache w1 = translationCache w)
  /\ (startsWith message "API Error" = false ->
      exists r,
        runTranslateSheetName E net sheetName sheetNames w =
        Some (inr r,
              World (requests w1) (trace w1)
                    (<[sheetName := VStr message]> (translationCache w)))
        /\ post_process sheetName sheetNames message = Some r).
Proof.
  intros Hmiss Hcall. unfold runTranslateSheetName. rewrite Hmiss, Hcall.
  cbn [mbind option_bind head from_option id].
  pose proof (retry_loop_world E net _ _ _ _ _ _ Hcall) as [Hcache _].
  split; intros Htest; rewrite Htest.
  - split; [reflexivity | exact Hcache].
  - destruct (post_process_total sheetName sheetNames message) as [r Hr].
    exists r. split; [| exact Hr].
    unfold rename_with. cbn [as_string]. rewrite Hr, Hcache. reflexivity.
Qed.

(** A request that is rejected: the sheet is named after the failure. *)
Lemma failure_names_the_sheet_witness :
  (startsWith "Network Error: Failed to fetch" "API Error" = true ->
   runTranslateSheetName reference_engine (fun _ => Rejected "Failed to fetch")
     "Sales" ["Sales"; "Notes"] (World 0 [] ∅) =
   Some (inl "Network Error: Failed to fetch", World 1 [Fetch ["Sales"]] ∅)
   /\ translationCache (World 1 [Fetch ["Sales"]] ∅) = ∅)
  /\ (startsWith "Network Error: Failed to fetch" "API Error" = false ->
      exists r,
        runTranslateSheetName reference_engine
          (fun _ => Rejected "Failed to fetch")
          "Sales" ["Sales"; "Notes"] (World 0 [] ∅) =
        Some (inr r,
              World 1 [Fetch ["Sales"]]
                    (<["Sales" := VStr "Network Error: Failed to fetch"]> ∅))
        /\ post_process "Sales" ["Sales"; "Notes"]
             "Network Error: Failed to fetch" = Some r).
Proof.
  apply (only_api_errors_stop_the_renaming reference_engine
           (fun _ => Rejected "Failed to fetch") "Sales" ["Sales"; "Notes"]
           (World 0 [] ∅) (World 1 [Fetch ["Sales"]] ∅)
           "Network Error: Failed to fetch").
  - reflexivity.
  - reflexivity.
Defined.

(** X21. A first result that is no string (a number, [null], an array,
    or nothing at all when the reply is an empty array) is cached before
    it is looked at: the command fails on it with a TypeError, and so
    does every later command for a sheet of this name, without a
    request, whatever the network would answer. *)
Theorem non_string_result_stays_cached (E : engine) (net net' : network)
    (sheetName : string) (sheetNames sheetNames' : list string) (w w1 : world)
    (translated : list value) (firstResult : value) :
  translationCache w !! sheetName = None ->
  callGeminiBatch E net [sheetName] w = Some (translated, w1) ->
  default VUndefined (head translated) = firstResult ->
  (forall s, firstResult <> VStr s) ->
  runTranslateSheetName E net sheetName sheetNames w =
  Some (inl (TypeError_message E firstResult "replace"),
        World (requests w1) (trace w1)
              (<[sheetName := firstResult]> (translationCache w)))
  /\ runTranslateSheetName E net' sheetName sheetNames'
       (World (requests w1) (trace w1)
              (<[sheetName := firstResult]> (translationCache w))) =
     Some (inl (TypeError_message E firstResult "replace"),
           World (requests w1) (trace w1)
                 (<[sheetName := firstResult]> (translationCache w))).
Proof.
  intros Hmiss Hcall Hfirst Hother.
  pose proof (retry_loop_world E net _ _ _ _ _ _ Hcall) as [Hcache _].
  assert (rename_with E sheetName sheetNames firstResult =
          Some (inl (TypeError_message E firstResult "replace"))) as Hrename.
  { unfold rename_with. destruct firstResult; try reflexivity.
    now destruct (Hother s). }
  assert (rename_with E sheetName sheetNames' firstResult =
          Some (inl (TypeError_message E firstResult "replace"))) as Hrename'.
  { unfold rename_with. destruct firstResult; try reflexivity.
    now destruct (Hother s). }
  split.
  - unfold runTranslateSheetName. rewrite Hmiss, Hcall.
    cbn [mbind option_bind]. rewrite Hfirst, Hrename, Hcache.
    destruct firstResult; try reflexivity. now destruct (Hother s).
  - unfold runTranslateSheetName. cbn [translationCache].
    rewrite lookup_insert_eq, Hrename'. reflexivity.
Qed.

(** The reply [[5]] to the name of the sheet. *)
Lemma non_string_result_witness :
  runTranslateSheetName reference_engine (fun _ => reply_with "[5]")
    "Sales" ["Sales"] (World 0 [] ∅) =
  Some (inl (TypeError_message reference_engine (VNum 5) "replace"),
        World 1 [Fetch ["Sales"]] (<["Sales" := VNum 5]> ∅))
  /\ runTranslateSheetName reference_engine
       (fun _ => reply_with ("[" +:+ quoted "Ventes" +:+ "]"))
       "Sales" ["Sales"; "Notes"]
       (World 1 [Fetch ["Sales"]] (<["Sales" := VNum 5]> ∅)) =
     Some (inl (TypeError_message reference_engine (VNum 5) "replace"),
           World 1 [Fetch ["Sales"]] (<["Sales" := VNum 5]> ∅)).
Proof.
  apply (non_string_result_stays_cached reference_engine
           (fun _ => reply_with "[5]")
           (fun _ => reply_with ("[" +:+ quoted "Ventes" +:+ "]"))
           "Sales" ["Sales"] ["Sales"; "Notes"] (World 0 [] ∅)
           (World 1 [Fetch ["Sales"]] ∅) [VNum 5] (VNum 5)).
  - reflexivity.
  - vm_compute. reflexivity.
  - reflexivity.
  - discriminate.
Defined.

(** X22. The cache is shared with the engine: after a run without
    errors, the command for a sheet named like one of the translated
    cells issues no request and works on the very value that the run
    has resolved the text to, the one written to the cell. *)
Theorem translated_cell_names_the_sheet (E : engine) (net net' : network)
    (model : string) (grid : list (list cell)) (w w' : world) (out : outcome)
    (c : translatable) (sheetNames : list string) :
  translateRange E net model grid w = Some (out, w') ->
  errors out = 0 ->
  c ∈ cellsToTranslate (extract grid) ->
  exists resolvedText written,
    translationCache w' !! text c = Some resolvedText
    /\ newValues out = Some written
    /\ cell_at written (row c) (col c) =
       Some (if truthy resolvedText then text_to_write resolvedText
             else VStr (text c))
    /\ runTranslateSheetName E net' (text c) sheetNames w' =
       (result ← rename_with E (text c) sheetNames resolvedText;
        Some (result, w'))
    /\ (forall translation, resolvedText = VStr translation ->
        exists r,
          post_process (text c) sheetNames translation = Some r
          /\ runTranslateSheetName E net' (text c) sheetNames w' =
             Some (inr r, w')).
Proof.
  intros Hrun Hclean Hc.
  destruct (run_outcome E net model grid w)
    as (p & w1 & rs & Hrun' & _ & Hlen & Hstate & _).
  rewrite Hrun in Hrun'. injection Hrun' as -> <-.
  cbn [errors newValues] in *.
  assert (text c ∈ map_keys (uniqueTexts (extract grid))) as Hkey
    by (apply (unique_keys grid); eauto).
  destruct (clean_run_caches_all E net model grid w w' p rs Hlen Hstate Hclean
              (text c) Hkey) as (resolvedText & Hhit & Hmap).
  destruct (reconcile_extracted grid (texts_map p))
    as (written & Hrec & _ & Hcells & _).
  exists resolvedText, written.
  split; [exact Hhit |]. split.
  { destruct (cellsToTranslate (extract grid)); [inversion Hc | exact Hrec]. }
  split.
  { rewrite (Hcells c Hc), Hmap. cbn [from_option id].
    now destruct (truthy resolvedText). }
  assert (runTranslateSheetName E net' (text c) sheetNames w' =
          (result ← rename_with E (text c) sheetNames resolvedText;
           Some (result, w'))) as Hcommand
    by (unfold runTranslateSheetName; now rewrite Hhit).
  split; [exact Hcommand |].
  intros translation ->.
  destruct (post_process_total (text c) sheetNames translation) as [r Hr].
  exists r. split; [exact Hr |]. rewrite Hcommand.
  unfold rename_with. cbn [as_string]. now rewrite Hr.
Qed.

Lemma translated_cell_witness :
  exists resolvedText written,
    translationCache (World 1 [Fetch ["Sales"]] {["Sales" := VStr "Ventes"]})
      !! "Sales" = Some resolvedText
    /\ Some [[VStr "Ventes"]] = Some written
    /\ cell_at written 0 0 =
       Some (if truthy resolvedText then text_to_write resolvedText
             else VStr "Sales")
    /\ runTranslateSheetName reference_engine (fun _ => Rejected "offline")
         "Sales" ["Sales"; "Notes"]
         (World 1 [Fetch ["Sales"]] {["Sales" := VStr "Ventes"]}) =
       (result ← rename_with reference_engine "Sales" ["Sales"; "Notes"]
                  resolvedText;
        Some (result, World 1 [Fetch ["Sales"]] {["Sales" := VStr "Ventes"]}))
    /\ (forall translation, resolvedText = VStr translation ->
        exists r,
          post_process "Sales" ["Sales"; "Notes"] translation = Some r
          /\ runTranslateSheetName reference_engine (fun _ => Rejected "offline")
               "Sales" ["Sales"; "Notes"]
               (World 1 [Fetch ["Sales"]] {["Sales" := VStr "Ventes"]}) =
             Some (inr r,
                   World 1 [Fetch ["Sales"]] {["Sales" := VStr "Ventes"]})).
Proof.
  apply (translated_cell_names_the_sheet reference_engine
           (fun _ => reply_with ("[" +:+ quoted "Ventes" +:+ "]"))
           (fun _ => Rejected "offline") STANDARD_MODEL [[CStr "Sales"]]
           (World 0 [] ∅)
           (World 1 [Fetch ["Sales"]] {["Sales" := VStr "Ventes"]})
           (Outcome 0 VNull (Some [[VStr "Ventes"]]))
           (Translatable 0 0 "Sales") ["Sales"; "Notes"]).
  - vm_compute. reflexivity.
  - reflexivity.
  - vm_compute. left.
Defined.
(** ** The commands *)

Section CommandProofs.

Variable E : engine.
Variable net : network.
Variable model : string.
Variable mode : string.

(** The report of a run is consistent: no error and no message, or
    errors and a message that line 311 takes for one. *)
Lemma run_report (grid : list (list cell)) (w w' : world) (out : outcome) :
  translateRange E net model grid w = Some (out, w') ->
  (errors out = 0 /\ first_error out = VNull)
  \/ (0 < errors out /\ is_error (first_error out) = true).
Proof.
  intros Hrun.
  destruct (run_outcome E net model grid w)
    as (p & w1 & rs & Hrun' & _ & Hlen & Hstate & _).
  rewrite Hrun in Hrun'. injection Hrun' as -> <-. cbn [errors first_error].
  destruct (run_totals grid w rs p _ Hlen Hstate) as [-> _].
  pose proof (settle_fold_first (settled (run_batches grid w) rs)
                (Progress (resolved (run_lookup grid w)) 0 VNull)
                (translationCache w)) as Hfirst.
  rewrite <- Hstate in Hfirst. cbn [fst firstErrorMessage truthy] in Hfirst.
  rewrite Hfirst. unfold count_errors.
  destruct (filter _ (settled (run_batches grid w) rs)) as [| [t r] rest] eqn:Hf.
  - left. split; reflexivity.
  - right. split; [simpl; lia |].
    assert ((t, r) ∈ filter (fun item => is_error item.2 = true)
                       (settled (run_batches grid w) rs)) as Hin
      by (rewrite Hf; left).
    now apply list_elem_of_filter in Hin as [Herr _].
Qed.

(** A run takes nothing out of the cache. *)
Lemma run_keeps_cache (grid : list (list cell)) (w w' : world) (out : outcome) :
  translateRange E net model grid w = Some (out, w') ->
  forall t cached, translationCache w !! t = Some cached ->
                   translationCache w' !! t = Some cached.
Proof.
  intros Hrun t cached Hhit.
  destruct (run_outcome E net model grid w)
    as (p & w1 & rs & Hrun' & _ & Hlen & Hstate & _).
  rewrite Hrun in Hrun'. injection Hrun' as _ <-.
  destruct (run_totals grid w rs p _ Hlen Hstate) as [_ Hunsent].
  destruct (Hunsent t) as [_ ->]; [| exact Hhit].
  intros Hin. apply (run_texts grid w) in Hin as [_ Hmiss]. congruence.
Qed.

Lemma translate_range_on_total (answer : js_error + range_data) (w : world) :
  exists result commands w',
    translate_range_on E net model mode answer w = Some (result, commands, w').
Proof.
  destruct answer as [e | d]; cbn [translate_range_on]; [eauto |].
  destruct (translateRange_total E net model (values d) w) as (out & w' & ->).
  cbn [mbind option_bind]. destruct (newValues out); [| eauto].
  destruct (write_back mode d l) as [commands [e |]]; eauto.
Qed.

Lemma translate_range_on_facts (answer : js_error + range_data) (w w' : world)
    (result : js_error + outcome) (commands : list command) :
  translate_range_on E net model mode answer w = Some (result, commands, w') ->
  (forall t cached, translationCache w !! t = Some cached ->
                    translationCache w' !! t = Some cached)
  /\ (forall out, result = inr out ->
        (errors out = 0 /\ first_error out = VNull)
        \/ (0 < errors out /\ is_error (first_error out) = true)).
Proof.
  destruct answer as [e | d]; cbn [translate_range_on].
  { intros [= <- _ <-]. split; [auto | discriminate]. }
  destruct (translateRange E net model (values d) w) as [[out w1] |] eqn:Hrun;
    [| discriminate].
  cbn [mbind option_bind]. intros Hresult.
  assert (w' = w1
          /\ forall out', result = inr out' -> out' = out) as [-> Hout].
  { destruct (newValues out).
    - destruct (write_back mode d l) as [cs [e |]];
        injection Hresult as <- _ <-; split; congruence.
    - injection Hresult as <- _ <-. split; congruence. }
  split; [exact (run_keeps_cache _ _ _ _ Hrun) |].
  intros out' Hresult'. rewrite (Hout out' Hresult').
  exact (run_report _ _ _ _ Hrun).
Qed.

Lemma add_result_ok (out : outcome) (t : tally) :
  (errors out = 0 /\ first_error out = VNull)
  \/ (0 < errors out /\ is_error (first_error out) = true) ->
  tally_ok t -> tally_ok (add_result out t).
Proof.
  unfold tally_ok, add_result. cbn [totalWorkbookErrors firstOverallErrorMessage].
  intros [[-> ->] | [Hsome Herr%is_error_truthy]]
         [[-> ->] | [Hmore Hfirst]]; cbn [truthy andb negb].
  - left. split; [lia | reflexivity].
  - right. rewrite Nat.add_0_r. auto.
  - right. rewrite Herr. cbn [andb]. split; [lia | exact Herr].
  - right. rewrite Hfirst, andb_false_r. split; [lia | exact Hfirst].
Qed.

Lemma workbook_loop_spec (sheets : list (string * (js_error + range_data)))
    (t : tally) (issued : list command) (w : world) :
  tally_ok t ->
  exists thrown_error t' issued' w',
    workbook_loop E net model mode sheets t issued w =
    Some (thrown_error, t', issued', w')
    /\ tally_ok t'
    /\ (forall text cached, translationCache w !! text = Some cached ->
                            translationCache w' !! text = Some cached)
    /\ (forall e, thrown_error = Some e -> code e <> Some "ItemNotFound").
Proof.
  revert t issued w. induction sheets as [| [name answer] rest IH];
    intros t issued w Ht; cbn [workbook_loop].
  { exists None, t, issued, w. split; [reflexivity |]. split; [exact Ht |].
    split; [auto | discriminate]. }
  destruct (translate_range_on_total answer w) as (result & commands & w1 & Hturn).
  rewrite Hturn. cbn [mbind option_bind].
  destruct (translate_range_on_facts answer w w1 result commands Hturn)
    as [Hcache Hreport].
  destruct result as [e | out].
  - destruct (bool_decide (code e = Some "ItemNotFound")) eqn:Hcode.
    + destruct (IH t ((if String.eqb mode "replace"
                       then issued ++ [Activate name] else issued) ++ commands)
                  w1 Ht) as (th & t' & issued' & w' & -> & Ht' & Hcache' & Hth).
      exists th, t', issued', w'. split; [reflexivity |]. split; [exact Ht' |].
      split; [auto | exact Hth].
    + eexists (Some e), t, _, w1. split; [reflexivity |]. split; [exact Ht |].
      split; [exact Hcache |]. intros e' [= <-].
      now apply bool_decide_eq_false in Hcode.
  - destruct (IH (add_result out t)
                ((if String.eqb mode "replace"
                  then issued ++ [Activate name] else issued) ++ commands) w1)
      as (th & t' & issued' & w' & -> & Ht' & Hcache' & Hth).
    { apply add_result_ok; [now apply Hreport | exact Ht]. }
    exists th, t', issued', w'. split; [reflexivity |]. split; [exact Ht' |].
    split; [auto | exact Hth].
Qed.

Lemma workbook_loop_app (front back : list (string * (js_error + range_data)))
    (t : tally) (issued : list command) (w : world) :
  workbook_loop E net model mode (front ++ back) t issued w =
  match workbook_loop E net model mode front t issued w with
  | Some (None, t', issued', w') =>
      workbook_loop E net model mode back t' issued' w'
  | other => other
  end.
Proof.
  revert t issued w. induction front as [| [name answer] front IH];
    intros t issued w; [reflexivity |].
  cbn [app workbook_loop].
  destruct (translate_range_on E net model mode answer w)
    as [[[result commands] w1] |]; [| reflexivity].
  cbn [mbind option_bind]. destruct result as [e | out]; [| apply IH].
  destruct (bool_decide (code e = Some "ItemNotFound")); [apply IH | reflexivity].
Qed.

Lemma workbook_loop_issued (sheets : list (string * (js_error + range_data)))
    (t : tally) (issued issued' : list command) (w : world) :
  report <$> workbook_loop E net model mode sheets t issued w =
  report <$> workbook_loop E net model mode sheets t issued' w.
Proof.
  revert t issued issued' w. induction sheets as [| [name answer] rest IH];
    intros t issued issued' w; [reflexivity |].
  cbn [workbook_loop].
  destruct (translate_range_on E net model mode answer w)
    as [[[result commands] w1] |]; [| reflexivity].
  cbn [mbind option_bind]. destruct result as [e | out]; [| apply IH].
  destruct (bool_decide (code e = Some "ItemNotFound")); [apply IH | reflexivity].
Qed.

End CommandProofs.

(** X23. The workbook command returns for every workbook and every
    network. Its tally is consistent: it counts no error exactly when
    it holds no first message, so the closing status shows a message
    whenever it reports errors. Sheets share the cache: nothing that it
    holds is lost from one sheet to the next. An error that leaves the
    loop is never the [ItemNotFound] of an empty sheet. *)
Theorem workbook_report (E : engine) (net : network) (model mode : string)
    (sheets : list (string * (js_error + range_data))) (w : world) :
  exists thrown_error t issued w',
    runWorkbookTranslation E net model mode sheets w =
    Some (thrown_error, t, issued, w')
    /\ (totalWorkbookErrors t = 0 <-> firstOverallErrorMessage t = VNull)
    /\ (0 < totalWorkbookErrors t -> truthy (firstOverallErrorMessage t) = true)
    /\ (forall text cached, translationCache w !! text = Some cached ->
                            translationCache w' !! text = Some cached)
    /\ (forall e, thrown_error = Some e -> code e <> Some "ItemNotFound")
    /\ (status_isError (workbook_status thrown_error t) = false <->
        thrown_error = None /\ totalWorkbookErrors t = 0).
Proof.
  destruct (workbook_loop_spec E net model mode sheets (Tally 0 VNull) [] w)
    as (thrown_error & t & issued & w' & Hrun & Ht & Hcache & Hthrown).
  { left. split; reflexivity. }
  exists thrown_error, t, issued, w'. split; [exact Hrun |].
  split; [| split; [| split; [exact Hcache | split; [exact Hthrown |]]]].
  - destruct Ht as [[Hzero Hnull] | [Hsome Hfirst]]; [easy |].
    split; [lia |]. intros Hnull. rewrite Hnull in Hfirst. discriminate.
  - destruct Ht as [[Hzero Hnull] | [Hsome Hfirst]]; [lia | auto].
  - unfold workbook_status. destruct thrown_error as [e |].
    + cbn [status_isError]. split; [discriminate | intros [[=] _]].
    + destruct (0 <? totalWorkbookErrors t) eqn:Hcount; cbn [status_isError].
      * apply Nat.ltb_lt in Hcount. split; [discriminate | lia].
      * apply Nat.ltb_ge in Hcount. split; [split; [reflexivity | lia] | auto].
Qed.

(** X24. A sheet without a used range, which the host answers with
    [ItemNotFound], is skipped: the error that leaves the loop, the
    tally and the session are those of the workbook without this
    sheet. *)
Theorem empty_sheet_is_skipped (E : engine) (net : network)
    (model mode : string) (front back : list (string * (js_error + range_data)))
    (name : string) (e : js_error) (w : world) :
  code e = Some "ItemNotFound" ->
  report <$> runWorkbookTranslation E net model mode
               (front ++ (name, inl e) :: back) w =
  report <$> runWorkbookTranslation E net model mode (front ++ back) w.
Proof.
  intros Hcode. unfold runWorkbookTranslation.
  rewrite !workbook_loop_app.
  destruct (workbook_loop E net model mode front (Tally 0 VNull) [] w)
    as [[[[[e' |] t] issued] w'] |]; try reflexivity.
  cbn [workbook_loop translate_range_on mbind option_bind].
  rewrite bool_decide_eq_true_2 by exact Hcode.
  apply workbook_loop_issued.
Qed.

Lemma empty_sheet_witness :
  report <$> runWorkbookTranslation reference_engine
               (fun _ => reply_with ("[" +:+ quoted "Bonjour" +:+ "]"))
               STANDARD_MODEL "replace"
               ([("Data", inr (RangeData [[CStr "Hello"]] "Data!A1" [] []))]
                ++ ("Blank", inl (JsError "RichApi.Error" (Some "ItemNotFound")
                                    "The requested resource doesn't exist."))
                :: [("More", inr (RangeData [[CStr "Hello"]] "More!A1" [] []))])
               (World 0 [] ∅) =
  report <$> runWorkbookTranslation reference_engine
               (fun _ => reply_with ("[" +:+ quoted "Bonjour" +:+ "]"))
               STANDARD_MODEL "replace"
               ([("Data", inr (RangeData [[CStr "Hello"]] "Data!A1" [] []))]
                ++ [("More", inr (RangeData [[CStr "Hello"]] "More!A1" [] []))])
               (World 0 [] ∅).
Proof.
  apply (empty_sheet_is_skipped reference_engine
           (fun _ => reply_with ("[" +:+ quoted "Bonjour" +:+ "]"))
           STANDARD_MODEL "replace"
           [("Data", inr (RangeData [[CStr "Hello"]] "Data!A1" [] []))]
           [("More", inr (RangeData [[CStr "Hello"]] "More!A1" [] []))]
           "Blank"
           (JsError "RichApi.Error" (Some "ItemNotFound")
                    "The requested resource doesn't exist.")
           (World 0 [] ∅)).
  reflexivity.
Defined.



(** ** The count of the status *)

Lemma failed_spec (items : list (string * value)) (t : string) :
  failed items t = true <-> exists r, (t, r) ∈ items /\ is_error r = true.
Proof.
  unfold failed. rewrite existsb_exists. split.
  - intros ([t' r] & Hin & [Heq%String.eqb_eq Herr]%andb_true_iff).
    simpl in *. subst t'. exists r. split; [now apply list_elem_of_In | exact Herr].
  - intros (r & Hin & Herr). exists (t, r).
    split; [now apply list_elem_of_In |]. simpl. now rewrite String.eqb_refl, Herr.
Qed.

(** X26. The number that the closing status of the selection command
    calls cells is the number of texts whose result was an error. It
    is at most the number of cells that keep their source text for that
    reason, and less when such a text stands in several cells. *)
Theorem status_counts_texts (E : engine) (net : network) (model : string)
    (grid : list (list cell)) (w : world) :
  exists out w' rs,
    translateRange E net model grid w = Some (out, w')
    /\ run_replies E net model grid w = Some rs
    /\ errors out
       <= length (filter (fun c => failed (settled (run_batches grid w) rs)
                                     (text c) = true)
                         (cellsToTranslate (extract grid)))
    /\ (0 < errors out ->
        selection_status (inr out) =
        Status (decimal (errors out) +:+ " cells could not be translated.")
               (first_error out) (Some 100%Z) true)
    /\ (errors out = 0 ->
        selection_status (inr out) =
        Status "Selection translated successfully!" VNull (Some 100%Z) false).
Proof.
  destruct (run_outcome E net model grid w)
    as (p & w' & rs & Hrun & Hreplies & Hlen & Hstate & _).
  destruct (run_totals grid w rs p _ Hlen Hstate) as [Hcount _].
  destruct (run_texts grid w) as (_ & Hnodup & Hsent).
  eexists _, w', rs. split; [exact Hrun |]. split; [exact Hreplies |].
  cbn [errors first_error selection_status].
  split; [| split].
  - rewrite Hcount. unfold count_errors.
    set (items := settled (run_batches grid w) rs).
    set (bad := filter (fun item => is_error item.2 = true) items).
    set (kept := filter (fun c => failed items (text c) = true)
                   (cellsToTranslate (extract grid))).
    rewrite <- (length_fmap fst bad), <- (length_fmap text kept).
    apply submseteq_length, NoDup_submseteq.
    + apply (sublist_NoDup _ (items.*1)).
      * unfold items. now rewrite settled_texts.
      * apply fmap_sublist, sublist_filter.
    + intros t Hin. apply list_elem_of_fmap in Hin as ([t' r] & -> & Hin).
      apply list_elem_of_filter in Hin as [Herr Hin]. simpl in *.
      assert (t' ∈ concat (run_batches grid w)) as Hbatch.
      { rewrite <- (settled_texts _ rs Hlen). apply list_elem_of_fmap.
        exists (t', r). split; [reflexivity | exact Hin]. }
      apply Hsent in Hbatch as [(c & Hc & Htext) _].
      apply list_elem_of_fmap. exists c. split; [now rewrite Htext |].
      apply list_elem_of_filter. split; [| exact Hc].
      apply failed_spec. exists r. rewrite Htext. auto.
  - intros Hsome. apply Nat.ltb_lt in Hsome. now rewrite Hsome.
  - intros ->. reflexivity.
Qed.

(** One failed text in two cells: the status counts one. *)
Example status_counts_one_for_two_cells :
  exists w',
    translateRange reference_engine (fun _ => empty_body 500) PRO_MODEL
      [[CStr "Hello"; CStr "Hello"]] (World 0 [] ∅) =
    Some (Outcome 1 (VStr ("API Error: 500 - " +:+ "{}"))
            (Some [[VStr "Hello"; VStr "Hello"]]), w').
Proof. eexists. vm_compute. reflexivity. Qed.
(** ** The pace of a run *)

Section Pacing.

Variable E : engine.
Variable net : network.
Variable model : string.

(** A call issues one to three requests and no countdown. *)
Lemma call_pace (texts : list string) (w : world) :
  exists reply w1 events,
    callGeminiBatch E net texts w = Some (reply, w1)
    /\ trace w1 = trace w ++ events
    /\ requests w1 = requests w + fetches events
    /\ 1 <= fetches events <= 3
    /\ countdowns events = 0
    /\ (forall ms, Countdown ms ∉ events).
Proof.
  destruct (call_shape E net texts w)
    as (k & reply & events & Hcall & Hevents & _).
  eexists reply, _, events. split; [exact Hcall |]. cbn [trace requests].
  split; [reflexivity |].
  destruct k as [| [| [| k]]]; cbn in Hevents; try discriminate;
    injection Hevents as <-; cbn;
    (split; [lia |]); (split; [lia |]); (split; [reflexivity |]);
    intros ms Hin; apply list_elem_of_In in Hin; cbn in Hin;
    intuition discriminate.
Qed.

Lemma loop_pace (totalBatches : nat) (batches : list (list string)) (i : nat)
    (st : progress * world) :
  i + length batches = totalBatches ->
  exists st' events,
    process_batches E net model totalBatches i batches st = Some st'
    /\ trace st'.2 = trace st.2 ++ events
    /\ requests st'.2 = requests st.2 + fetches events
    /\ length batches <= fetches events <= 3 * length batches
    /\ countdowns events =
       (if String.eqb model STANDARD_MODEL then length batches - 1 else 0)
    /\ (forall ms, Countdown ms ∈ events -> ms = SAFE_MODE_DELAY).
Proof.
  revert i st. induction batches as [| batch rest IH]; intros i st Htotal.
  { exists st, []. split; [reflexivity |]. rewrite app_nil_r.
    split; [reflexivity |]. cbn. split; [lia |]. split; [lia |].
    split; [now destruct (String.eqb _ _) |]. intros ms Hin. inversion Hin. }
  cbn [length] in Htotal. cbn [process_batches]. unfold batch_turn.
  destruct (call_pace batch st.2)
    as (reply & w1 & events1 & Hcall & Htrace1 & Hrequests1 & Hfetch1 & Hcount1
        & Hnone1).
  rewrite Hcall. cbn [mbind option_bind].
  destruct (settle_batch 0 batch reply (st.1, translationCache w1))
    as [p2 cache2].
  set (pause := String.eqb model STANDARD_MODEL && (1 <? totalBatches)
                && (i <? totalBatches - 1)).
  assert (pause = String.eqb model STANDARD_MODEL
                  && negb (length rest =? 0)) as Hpause.
  { unfold pause. destruct (String.eqb model STANDARD_MODEL); [| reflexivity].
    cbn [andb]. destruct rest as [| b rest']; cbn [length Nat.eqb negb];
      cbn [length] in Htotal.
    - replace (i <? totalBatches - 1) with false
        by (symmetry; apply Nat.ltb_ge; lia).
      apply andb_false_r.
    - replace (1 <? totalBatches) with true
        by (symmetry; apply Nat.ltb_lt; simpl in Htotal; lia).
      replace (i <? totalBatches - 1) with true
        by (symmetry; apply Nat.ltb_lt; simpl in Htotal; lia).
      reflexivity. }
  destruct (IH (S i)
              (p2, if pause
                   then emit (Countdown SAFE_MODE_DELAY)
                          (World (requests w1) (trace w1) cache2)
                   else World (requests w1) (trace w1) cache2))
    as (st' & events & Hloop & Htrace & Hrequests & Hfetch & Hcount & Hms);
    [lia |].
  exists st'. cbn [mbind option_bind]. rewrite Hloop.
  exists (events1 ++ (if pause then [Countdown SAFE_MODE_DELAY] else []) ++ events).
  split; [reflexivity |].
  cbn [snd] in Htrace, Hrequests.
  split; [| split; [| split; [| split]]].
  - rewrite Htrace. destruct pause; cbn [emit trace requests translationCache];
      rewrite Htrace1, <- ?app_assoc; reflexivity.
  - rewrite Hrequests, !fetches_app.
    destruct pause; cbn [emit requests]; rewrite Hrequests1;
      change (fetches [Countdown SAFE_MODE_DELAY]) with 0;
      change (fetches []) with 0; lia.
  - rewrite !fetches_app. cbn [length].
    destruct pause; [change (fetches [Countdown SAFE_MODE_DELAY]) with 0
                    | change (fetches []) with 0]; lia.
  - rewrite !countdowns_app, Hcount1, Hcount, Hpause. cbn [length].
    destruct (String.eqb model STANDARD_MODEL); cbn [andb].
    + destruct rest as [| b rest']; cbn [length Nat.eqb negb].
      * reflexivity.
      * change (countdowns [Countdown SAFE_MODE_DELAY]) with 1. lia.
    + reflexivity.
  - intros ms Hin. apply elem_of_app in Hin as [Hin | Hin];
      [now apply Hnone1 in Hin |].
    apply elem_of_app in Hin as [Hin | Hin]; [| now apply Hms].
    destruct pause; [| inversion Hin].
    apply list_elem_of_singleton in Hin. congruence.
Qed.

End Pacing.

(** X27. With the standard model a countdown of 1200 ms stands between
    one batch and the next and none after the last: a run has one
    countdown less than it has batches. With any other model it has
    none. Every batch costs one to three requests, and the counter of
    the session grows by the requests of the run. *)
Theorem pace_of_a_run (E : engine) (net : network) (model : string)
    (grid : list (list cell)) (w : world) :
  exists out w' events,
    translateRange E net model grid w = Some (out, w')
    /\ trace w' = trace w ++ events
    /\ requests w' = requests w + fetches events
    /\ length (run_batches grid w) <= fetches events
       <= 3 * length (run_batches grid w)
    /\ countdowns events =
       (if String.eqb model STANDARD_MODEL
        then length (run_batches grid w) - 1 else 0)
    /\ (forall ms, Countdown ms ∈ events -> ms = SAFE_MODE_DELAY).
Proof.
  destruct (cellsToTranslate (extract grid)) as [| c0 cells] eqn:Hcells.
  { exists (Outcome 0 VNull None), w, [].
    split; [now apply translateRange_nothing |].
    assert (run_batches grid w = []) as ->.
    { unfold run_batches, run_lookup.
      destruct (cache_lookup_spec (translationCache w) (uniqueTexts (extract grid)))
        as [-> _].
      destruct (map_keys (uniqueTexts (extract grid))) as [| t keys] eqn:Hkeys;
        [reflexivity |].
      exfalso. destruct (unique_keys grid) as [_ Hin].
      destruct (proj1 (Hin t)) as (c & Hc & _); [rewrite Hkeys; left |].
      rewrite Hcells in Hc. inversion Hc. }
    rewrite app_nil_r. cbn.
    split; [reflexivity |]. split; [lia |]. split; [lia |].
    split; [now destruct (String.eqb _ _) |]. intros ms Hin. inversion Hin. }
  destruct (loop_pace E net model (length (run_batches grid w))
              (run_batches grid w) 0 (run_start grid w) eq_refl)
    as ([p w'] & events & Hloop & Htrace & Hrequests & Hfetch & Hcount & Hms).
  destruct (reconcile_extracted grid (texts_map p)) as (written & Hrec & _).
  exists (Outcome (totalErrors p) (firstErrorMessage p) (Some written)), w'.
  exists ((if 0 <? length (map_keys (uniqueTexts (extract grid)))
                   - length (textsToFetchFromApi (run_lookup grid w))
           then [Sleep 500] else []) ++ events).
  cbn [snd] in Htrace, Hrequests.
  assert (trace (run_start grid w).2 =
          trace w ++ (if 0 <? length (map_keys (uniqueTexts (extract grid)))
                              - length (textsToFetchFromApi (run_lookup grid w))
                      then [Sleep 500] else [])
          /\ requests (run_start grid w).2 = requests w) as [Htrace0 Hrequests0].
  { unfold run_start, run_lookup. cbn [snd].
    destruct (0 <? _); cbn [emit trace requests];
      [| rewrite app_nil_r]; split; reflexivity. }
  split; [| split; [| split; [| split; [| split]]]].
  - unfold translateRange. rewrite Hcells. cbn [length Nat.eqb].
    rewrite <- Hcells.
    fold (run_lookup grid w). fold (run_start grid w).
    assert ((if 0 <? length (textsToFetchFromApi (run_lookup grid w))
             then process_batches E net model
                    (length (smart_batching (textsToFetchFromApi (run_lookup grid w))))
                    0 (smart_batching (textsToFetchFromApi (run_lookup grid w)))
                    (run_start grid w)
             else Some (run_start grid w)) = Some (p, w')) as ->.
    { fold (run_batches grid w).
      destruct (0 <? length (textsToFetchFromApi (run_lookup grid w))) eqn:Hsome;
        [exact Hloop |].
      apply Nat.ltb_ge in Hsome.
      assert (textsToFetchFromApi (run_lookup grid w) = []) as Hnil
        by (apply length_zero_iff_nil; lia).
      unfold run_batches in Hloop. rewrite Hnil in Hloop.
      change (smart_batching []) with (@nil (list string)) in Hloop.
      exact Hloop. }
    cbn [mbind option_bind]. rewrite Hrec. reflexivity.
  - now rewrite Htrace, Htrace0, app_assoc.
  - rewrite Hrequests, Hrequests0, fetches_app.
    destruct (0 <? _); [change (fetches [Sleep 500]) with 0
                       | change (fetches []) with 0]; lia.
  - rewrite fetches_app.
    destruct (0 <? _); [change (fetches [Sleep 500]) with 0
                       | change (fetches []) with 0]; lia.
  - rewrite countdowns_app.
    destruct (0 <? _); [change (countdowns [Sleep 500]) with 0
                       | change (countdowns []) with 0]; exact Hcount.
  - intros ms Hin. apply elem_of_app in Hin as [Hin | Hin]; [| now apply Hms].
    destruct (0 <? _); [| inversion Hin].
    apply list_elem_of_singleton in Hin. discriminate.
Qed.
